(** * Coin-flip game backend: fairness engine and room/game state machine

    A shallow embedding of [ProvablyFairService] (provably-fair.service.ts)
    and [GameService] (game.service.ts), together with the properties the
    design document states about them.

    Conventions of the embedding.
    - A JavaScript string is its sequence of UTF-16 code units.
    - A byte, a code unit and a 32-bit word are values of [N]; the places
      where the program wraps or masks are written out.
    - An [async] method that may throw is a function from the store to an
      outcome (returned value or thrown exception) and the store it leaves
      behind. *)

From Stdlib Require Import List NArith ZArith Lia Bool String Ascii.
From Stdlib Require Import DecimalString DecimalN.
Import ListNotations.

Local Open Scope N_scope.

(* ===================================================================== *)
(** ** JavaScript strings *)
(* ===================================================================== *)

Module JS.

(** A string value: UTF-16 code units, each below [65536]. *)
Definition jsstring := list N.

(** A literal written in the source (ASCII only). *)
Definition lit (s : string) : jsstring :=
  map N_of_ascii (list_ascii_of_string s).

(** [a === b] on two strings. *)
Fixpoint streq (a b : jsstring) : bool :=
  match a, b with
  | [], [] => true
  | x :: a', y :: b' => (x =? y) && streq a' b'
  | _, _ => false
  end.

(** [s.substring(i, j)]: indices are clamped to the length and swapped
    when [i > j]. *)
Definition substring (s : jsstring) (i j : nat) : jsstring :=
  let lo := Nat.min i j in
  let hi := Nat.max i j in
  firstn (hi - lo) (skipn lo s).

(** [Number.MAX_SAFE_INTEGER]. *)
Definition MAX_SAFE_INTEGER : N := 2 ^ 53 - 1.

(** [`${n}`] for a number holding a non-negative integer. For the safe
    integers (up to [MAX_SAFE_INTEGER]) ToString is the plain decimal
    numeral; beyond [10^21] JavaScript switches to exponent notation, so
    the embedding is faithful on safe integers only. *)
Definition numberToString (n : N) : jsstring :=
  lit (NilZero.string_of_uint (N.to_uint n)).

(** Value of one hexadecimal digit, [None] for any other code unit. *)
Definition hex_value (u : N) : option N :=
  if (48 <=? u) && (u <=? 57) then Some (u - 48)
  else if (97 <=? u) && (u <=? 102) then Some (u - 87)
  else if (65 <=? u) && (u <=? 70) then Some (u - 55)
  else None.

Fixpoint parse_hex_digits (s : jsstring) (acc : N) : N :=
  match s with
  | [] => acc
  | u :: rest =>
      match hex_value u with
      | Some d => parse_hex_digits rest (acc * 16 + d)
      | None => acc
      end
  end.

(** [parseInt(s, 16)] on a string that starts neither with white space,
    a sign nor a [0x] prefix (none of which a hex digest contains): the
    longest prefix of hex digits is read; [None] stands for [NaN]. *)
Definition parseInt16 (s : jsstring) : option N :=
  match s with
  | [] => None
  | u :: _ =>
      match hex_value u with
      | Some _ => Some (parse_hex_digits s 0)
      | None => None
      end
  end.

(** U+FFFD, the replacement character, in UTF-8. *)
Definition replacement : list N := [239; 191; 189].

Definition is_high_surrogate (u : N) : bool := (55296 <=? u) && (u <=? 56319).
Definition is_low_surrogate (u : N) : bool := (56320 <=? u) && (u <=? 57343).

(** UTF-8 bytes of a code point. *)
Definition utf8_of_code_point (cp : N) : list N :=
  if cp <? 128 then [cp]
  else if cp <? 2048 then
    [N.lor 192 (N.shiftr cp 6); N.lor 128 (N.land cp 63)]
  else if cp <? 65536 then
    [N.lor 224 (N.shiftr cp 12);
     N.lor 128 (N.land (N.shiftr cp 6) 63);
     N.lor 128 (N.land cp 63)]
  else
    [N.lor 240 (N.shiftr cp 18);
     N.lor 128 (N.land (N.shiftr cp 12) 63);
     N.lor 128 (N.land (N.shiftr cp 6) 63);
     N.lor 128 (N.land cp 63)].

(** The bytes Node hands to a hash for a string argument: the UTF-8
    encoding of the string, a surrogate pair giving one code point and an
    unpaired surrogate giving U+FFFD. *)
Fixpoint utf8_encode (s : jsstring) : list N :=
  match s with
  | [] => []
  | u :: rest =>
      if is_high_surrogate u then
        match rest with
        | l :: rest' =>
            if is_low_surrogate l
            then utf8_of_code_point
                   (65536 + (u - 55296) * 1024 + (l - 56320))
                 ++ utf8_encode rest'
            else replacement ++ utf8_encode rest
        | [] => replacement
        end
      else if is_low_surrogate u then replacement ++ utf8_encode rest
      else utf8_of_code_point u ++ utf8_encode rest
  end.

(** One lower-case hexadecimal digit as a code unit. *)
Definition hex_digit (d : N) : N :=
  if d <? 10 then 48 + d else 87 + d.

(** [buf.toString('hex')]: two lower-case digits per byte. *)
Definition hex_of_byte (b : N) : jsstring :=
  [hex_digit (b / 16); hex_digit (b mod 16)].

Definition toHex (bytes : list N) : jsstring :=
  flat_map hex_of_byte bytes.

End JS.

(* ===================================================================== *)
(** ** SHA-256 (FIPS 180-4), as [createHash('sha256')] computes it *)
(* ===================================================================== *)

Module SHA256.

Definition w32 (x : N) : N := x mod 2 ^ 32.
Definition add32 (a b : N) : N := w32 (a + b).
Definition not32 (x : N) : N := N.lxor (w32 x) 4294967295.
Definition rotr (n x : N) : N :=
  N.lor (N.shiftr x n) (w32 (N.shiftl x (32 - n))).
Definition shr (n x : N) : N := N.shiftr x n.

Definition Ch (x y z : N) : N := N.lxor (N.land x y) (N.land (not32 x) z).
Definition Maj (x y z : N) : N :=
  N.lxor (N.lxor (N.land x y) (N.land x z)) (N.land y z).
Definition Sigma0 (x : N) : N := N.lxor (N.lxor (rotr 2 x) (rotr 13 x)) (rotr 22 x).
Definition Sigma1 (x : N) : N := N.lxor (N.lxor (rotr 6 x) (rotr 11 x)) (rotr 25 x).
Definition sigma0 (x : N) : N := N.lxor (N.lxor (rotr 7 x) (rotr 18 x)) (shr 3 x).
Definition sigma1 (x : N) : N := N.lxor (N.lxor (rotr 17 x) (rotr 19 x)) (shr 10 x).

(** Primality by trial division. *)
Definition is_prime (n : N) : bool :=
  (2 <=? n)
  && forallb (fun d => negb (n mod (N.of_nat d) =? 0))
             (seq 2 (N.to_nat n - 2)).

(** The prime numbers up to 311: the first sixty-four. *)
Definition primes : list N :=
  Eval vm_compute in filter is_prime (map N.of_nat (seq 2 310)).

(** Integer cube root, one bit at a time from the top. *)
Fixpoint cbrt_bits (bits : nat) (x r : N) : N :=
  match bits with
  | O => r
  | S b =>
      let c := r + 2 ^ N.of_nat b in
      cbrt_bits b x (if c * c * c <=? x then c else r)
  end.

Definition cbrt (x : N) : N := cbrt_bits 40 x 0.

(** The round constants: the first 32 bits of the fractional parts of
    the cube roots of the first sixty-four primes. *)
Definition K : list N :=
  Eval vm_compute in map (fun p => w32 (cbrt (p * 2 ^ 96))) primes.

(** The eight working words. *)
Record state := mkState {
  h0 : N; h1 : N; h2 : N; h3 : N; h4 : N; h5 : N; h6 : N; h7 : N }.

(** The initial hash value: the first 32 bits of the fractional parts of
    the square roots of the first eight primes. *)
Definition initial : state :=
  Eval vm_compute in
    match map (fun p => w32 (N.sqrt (p * 2 ^ 64))) (firstn 8 primes) with
    | [a; b; c; d; e; f; g; h] => mkState a b c d e f g h
    | _ => mkState 0 0 0 0 0 0 0 0
    end.

(** Big-endian bytes of a word and of the 64-bit length. *)
Definition bytes_of_word (w : N) : list N :=
  [ (w / 2 ^ 24) mod 256; (w / 2 ^ 16) mod 256; (w / 2 ^ 8) mod 256; w mod 256 ].

Definition bytes_of_length (bits : N) : list N :=
  bytes_of_word (bits / 2 ^ 32) ++ bytes_of_word bits.

(** Padding: a one bit, zeros up to 56 modulo 64, the length in bits. *)
Definition pad (msg : list N) : list N :=
  let len := N.of_nat (List.length msg) in
  msg ++ [128]
      ++ repeat 0 (N.to_nat ((119 - len mod 64) mod 64))
      ++ bytes_of_length (8 * len).

Fixpoint words_of_bytes (bs : list N) : list N :=
  match bs with
  | b0 :: b1 :: b2 :: b3 :: rest =>
      (b0 mod 256) * 2 ^ 24 + (b1 mod 256) * 2 ^ 16 + (b2 mod 256) * 2 ^ 8 + b3 mod 256
      :: words_of_bytes rest
  | _ => []
  end.

(** Message schedule, most recent word first. *)
Fixpoint expand (n : nat) (w : list N) : list N :=
  match n with
  | O => w
  | S n' =>
      let wt := add32 (add32 (sigma1 (nth 1 w 0)) (nth 6 w 0))
                      (add32 (sigma0 (nth 14 w 0)) (nth 15 w 0)) in
      expand n' (wt :: w)
  end.

Definition schedule (block : list N) : list N :=
  rev (expand 48 (rev block)).

Definition round (s : state) (kw : N * N) : state :=
  let (k, w) := kw in
  let t1 := add32 (add32 (add32 (h7 s) (Sigma1 (h4 s))) (Ch (h4 s) (h5 s) (h6 s)))
                  (add32 k w) in
  let t2 := add32 (Sigma0 (h0 s)) (Maj (h0 s) (h1 s) (h2 s)) in
  mkState (add32 t1 t2) (h0 s) (h1 s) (h2 s) (add32 (h3 s) t1) (h4 s) (h5 s) (h6 s).

Definition compress (s : state) (block : list N) : state :=
  let r := fold_left round (combine K (schedule block)) s in
  mkState (add32 (h0 s) (h0 r)) (add32 (h1 s) (h1 r))
          (add32 (h2 s) (h2 r)) (add32 (h3 s) (h3 r))
          (add32 (h4 s) (h4 r)) (add32 (h5 s) (h5 r))
          (add32 (h6 s) (h6 r)) (add32 (h7 s) (h7 r)).

Fixpoint blocks (fuel : nat) (ws : list N) (s : state) : state :=
  match fuel with
  | O => s
  | S fuel' =>
      match ws with
      | [] => s
      | _ => blocks fuel' (skipn 16 ws) (compress s (firstn 16 ws))
      end
  end.

Definition final (msg : list N) : state :=
  let ws := words_of_bytes (pad msg) in
  blocks (List.length ws) ws initial.

(** The 32 digest bytes. *)
Definition digest_of_state (s : state) : list N :=
  bytes_of_word (h0 s) ++ bytes_of_word (h1 s) ++ bytes_of_word (h2 s)
  ++ bytes_of_word (h3 s) ++ bytes_of_word (h4 s) ++ bytes_of_word (h5 s)
  ++ bytes_of_word (h6 s) ++ bytes_of_word (h7 s).

Definition digest (msg : list N) : list N := digest_of_state (final msg).

End SHA256.

(** [createHash('sha256').update(s).digest('hex')] for a string [s]. *)
Definition sha256_hex (s : JS.jsstring) : JS.jsstring :=
  JS.toHex (SHA256.digest (JS.utf8_encode s)).


(* ===================================================================== *)
(** ** Data model (game.types.ts) *)
(* ===================================================================== *)

Import JS.

Inductive CoinSide : Type := heads | tails.

Inductive RoomStatus : Type := waiting | full | playing | completed.

(** The text of a side, as stored and as compared by [===]. *)
Definition side_text (s : CoinSide) : jsstring :=
  match s with heads => lit "heads" | tails => lit "tails" end.

Definition side_eqb (a b : CoinSide) : bool :=
  match a, b with
  | heads, heads | tails, tails => true
  | _, _ => false
  end.

Definition status_eqb (a b : RoomStatus) : bool :=
  match a, b with
  | waiting, waiting | full, full | playing, playing | completed, completed => true
  | _, _ => false
  end.

(** Row identifiers. The store draws them ([uuid_generate_v4()]); they
    are abstracted to serial numbers. *)
Definition Id := N.

(** The clock-valued columns ([created_at], [updated_at], [joined_at],
    [completed_at]) are left out: no operation below reads them. Amounts
    are in whole dollars. *)
Record Room : Type := mkRoom {
  room_id : Id;
  room_code : jsstring;
  creator_side : CoinSide;
  room_stake_amount : Z;
  room_total_pot : Z;
  status : RoomStatus;
  room_server_seed : jsstring;
  room_client_seed : option jsstring;
  room_nonce : N }.

Record Player : Type := mkPlayer {
  player_id : Id;
  player_room_id : Id;
  socket_id : jsstring;
  name : jsstring;
  side : CoinSide;
  is_creator : bool;
  player_stake_amount : Z;
  has_paid : bool }.

Record Game : Type := mkGame {
  game_id : Id;
  game_room_id : Id;
  flip_result : CoinSide;
  winner_side : CoinSide;
  winner_player_id : Id;
  game_total_pot : Z;
  game_server_seed : jsstring;
  game_client_seed : jsstring;
  game_nonce : N;
  hash_result : jsstring;
  is_verified : bool }.

(** [{ ...room, status }], [{ ...room, client_seed }], [{ ...room, nonce }]. *)
Definition set_status (st : RoomStatus) (r : Room) : Room :=
  mkRoom (room_id r) (room_code r) (creator_side r) (room_stake_amount r)
         (room_total_pot r) st (room_server_seed r) (room_client_seed r)
         (room_nonce r).

Definition set_client_seed (seed : option jsstring) (r : Room) : Room :=
  mkRoom (room_id r) (room_code r) (creator_side r) (room_stake_amount r)
         (room_total_pot r) (status r) (room_server_seed r) seed
         (room_nonce r).

Definition set_nonce (n : N) (r : Room) : Room :=
  mkRoom (room_id r) (room_code r) (creator_side r) (room_stake_amount r)
         (room_total_pot r) (status r) (room_server_seed r)
         (room_client_seed r) n.

Record CreateRoomDto : Type := mkCreateRoomDto {
  dto_side : CoinSide;
  dto_playerName : option jsstring }.

Record JoinRoomDto : Type := mkJoinRoomDto {
  dto_code : jsstring;
  dto_joinerName : option jsstring }.

(* ===================================================================== *)
(** ** Exceptions and outcomes *)
(* ===================================================================== *)

(** The exceptions the two services throw (game.exceptions.ts and the
    built-in [Error]). *)
Inductive Exn : Type :=
| Error (message : jsstring)
| RoomFullException (roomCode : jsstring)
| InvalidGameStateException (currentState requiredState : jsstring)
| DatabaseException (operation details : jsstring).

(** [error.message]. *)
Definition message_of (e : Exn) : jsstring :=
  match e with
  | Error message => message
  | RoomFullException roomCode =>
      lit "Room '" ++ roomCode ++ lit "' is already full"
  | InvalidGameStateException currentState requiredState =>
      lit "Invalid game state. Current: " ++ currentState
      ++ lit ", Required: " ++ requiredState
  | DatabaseException operation details =>
      match details with
      | [] => lit "Database error during " ++ operation
      | _ => lit "Database error during " ++ operation ++ lit ": " ++ details
      end
  end.

Inductive Outcome (A : Type) : Type :=
| Returns (a : A)
| Throws (e : Exn).

Arguments Returns {A} a.
Arguments Throws {A} e.

(** [try { body } catch (error) { handler }]. *)
Definition try_catch {A : Type} (body : Outcome A) (handler : Exn -> Outcome A)
  : Outcome A :=
  match body with
  | Returns a => Returns a
  | Throws e => handler e
  end.

(* ===================================================================== *)
(** ** Fairness engine (provably-fair.service.ts) *)
(* ===================================================================== *)

Record ProvablyFairResult : Type := mkProvablyFairResult {
  result : CoinSide;
  serverSeed : jsstring;
  clientSeed : jsstring;
  nonce : N;
  hash : jsstring;
  isVerifiable : bool }.

(** [randomBytes(32).toString('hex')], given the bytes drawn. *)
Definition generateServerSeed (bytes32 : list N) : jsstring := toHex bytes32.

(** [randomBytes(16).toString('hex')], given the bytes drawn. *)
Definition generateClientSeed (bytes16 : list N) : jsstring := toHex bytes16.

Definition hashServerSeed (serverSeed : jsstring) : jsstring :=
  sha256_hex serverSeed.

(** [hashInt % 2 === 0 ? 'heads' : 'tails']; [NaN % 2] is [NaN], which is
    not [=== 0]. *)
Definition side_of_hashInt (hashInt : option N) : CoinSide :=
  match hashInt with
  | Some v => if v mod 2 =? 0 then heads else tails
  | None => tails
  end.

Definition generateResult (serverSeed clientSeed : jsstring) (nonce : N)
  : ProvablyFairResult :=
  let combinedInput :=
    serverSeed ++ lit ":" ++ clientSeed ++ lit ":" ++ numberToString nonce in
  let hash := sha256_hex combinedInput in
  let hashInt := parseInt16 (substring hash 0 8) in
  let result := side_of_hashInt hashInt in
  mkProvablyFairResult result serverSeed clientSeed nonce hash true.

(** [expectedResult] is whatever string the caller passed: the type
    annotation is erased at run time. *)
Definition verifyResult (serverSeed clientSeed : jsstring) (nonce : N)
    (expectedHash expectedResult : jsstring) : Outcome bool :=
  try_catch
    (let computed := generateResult serverSeed clientSeed nonce in
     Returns (streq (hash computed) expectedHash
              && streq (side_text (result computed)) expectedResult))
    (fun _ => Returns false).

(** *** Arguments as JavaScript hands them over

    The parameter types of [verifyResult] are erased at run time, so a
    caller can pass any value. A value is told apart here by what a
    template literal and [===] do with it. *)
Inductive JSValue : Type :=
| JSString (s : jsstring)
| JSNumber (n : N)
| JSUndefined
| JSNull
| JSBoolean (b : bool)
| JSSymbol
| JSOther (conversion : Outcome jsstring).

(** [`${v}`]: the conversion of a value to a string. A number is a safe
    non-negative integer; a symbol throws a [TypeError]; any other value
    (an object, a number of another kind) stands with what its
    conversion returns or throws. *)
Definition templateString (v : JSValue) : Outcome jsstring :=
  match v with
  | JSString s => Returns s
  | JSNumber n => Returns (numberToString n)
  | JSUndefined => Returns (lit "undefined")
  | JSNull => Returns (lit "null")
  | JSBoolean true => Returns (lit "true")
  | JSBoolean false => Returns (lit "false")
  | JSSymbol => Throws (Error (lit "Cannot convert a Symbol value to a string"))
  | JSOther conversion => conversion
  end.

(** [x === v] for a string [x]: nothing is converted. *)
Definition strictEqualsString (x : jsstring) (v : JSValue) : bool :=
  match v with
  | JSString s => streq x s
  | _ => false
  end.

(** The combined input of [generateResult] for any three values, the
    substitutions converted from left to right. *)
Definition combinedInputOf (serverSeed clientSeed nonce : JSValue)
  : Outcome jsstring :=
  match templateString serverSeed with
  | Throws e => Throws e
  | Returns s =>
      match templateString clientSeed with
      | Throws e => Throws e
      | Returns c =>
          match templateString nonce with
          | Throws e => Throws e
          | Returns n => Returns (s ++ lit ":" ++ c ++ lit ":" ++ n)
          end
      end
  end.

(** The hash and the result [generateResult] returns for any three
    values. *)
Definition generateResultOf (serverSeed clientSeed nonce : JSValue)
  : Outcome (jsstring * CoinSide) :=
  match combinedInputOf serverSeed clientSeed nonce with
  | Throws e => Throws e
  | Returns combinedInput =>
      let hash := sha256_hex combinedInput in
      let hashInt := parseInt16 (substring hash 0 8) in
      Returns (hash, side_of_hashInt hashInt)
  end.

(** [verifyResult] for any five values. *)
Definition verifyResultOf
    (serverSeed clientSeed nonce expectedHash expectedResult : JSValue)
  : Outcome bool :=
  try_catch
    (match generateResultOf serverSeed clientSeed nonce with
     | Throws e => Throws e
     | Returns (hash, result) =>
         Returns (strictEqualsString hash expectedHash
                  && strictEqualsString (side_text result) expectedResult)
     end)
    (fun _ => Returns false).

Record VerificationData : Type := mkVerificationData {
  v_serverSeed : jsstring;
  v_clientSeed : jsstring;
  v_nonce : N;
  verificationUrl : jsstring;
  instructions : list string }.

Definition createVerificationData (serverSeed clientSeed : jsstring) (nonce : N)
  : VerificationData :=
  mkVerificationData serverSeed clientSeed nonce
    (lit "https://tools.pnxbet.com/fair/coinflip?server=" ++ serverSeed
     ++ lit "&client=" ++ clientSeed ++ lit "&nonce=" ++ numberToString nonce)
    [ "1. Copy the server seed, client seed, and nonce"%string;
      "2. Visit any provably fair verification tool"%string;
      "3. Input the values to verify the result"%string;
      "4. The result should match the game outcome"%string ].

(* ===================================================================== *)
(** ** Persistence collaborator *)
(* ===================================================================== *)

(** The three tables and the counter the next row identifier comes from. *)
Record Store : Type := mkStore {
  rooms : list Room;
  players : list Player;
  games : list Game;
  next_id : Id }.

Definition empty_store : Store := mkStore [] [] [] 0.

(** What a request resolves to: [{ data, error: null }] or
    [{ data: null, error }]. The client never throws. *)
Inductive Response (A : Type) : Type :=
| Data (data : A)
| Failure (error : jsstring).

Arguments Data {A} data.
Arguments Failure {A} error.

(** A method of the service: from the store to an outcome and the store
    left behind (also when it throws). *)
Definition M (A : Type) : Type := Store -> Outcome A * Store.

Definition ret {A : Type} (a : A) : M A := fun db => (Returns a, db).

Definition throw {A : Type} (e : Exn) : M A := fun db => (Throws e, db).

Definition bind {A B : Type} (c : M A) (k : A -> M B) : M B :=
  fun db =>
    match c db with
    | (Returns a, db') => k a db'
    | (Throws e, db') => (Throws e, db')
    end.

Notation "x <- c ;; k" := (bind c (fun x => k))
  (at level 61, c at next level, right associativity).
Notation "c ;;; k" := (bind c (fun _ => k))
  (at level 61, right associativity).

(** [try { body } catch (error) { handler }] around a method body. *)
Definition try_catch_M {A : Type} (body : M A) (handler : Exn -> M A) : M A :=
  fun db =>
    match body db with
    | (Returns a, db') => (Returns a, db')
    | (Throws e, db') => handler e db'
    end.

(** The rows keyed by a room identifier. *)
Definition room_with_id (db : Store) (roomId : Id) : list Room :=
  filter (fun r => room_id r =? roomId) (rooms db).

Definition players_in (db : Store) (roomId : Id) : list Player :=
  filter (fun p => player_room_id p =? roomId) (players db).

Definition games_of (db : Store) (roomId : Id) : list Game :=
  filter (fun g => game_room_id g =? roomId) (games db).

(** The player rows holding a connection identifier. *)
Definition players_on (db : Store) (socketId : jsstring) : list Player :=
  filter (fun p => streq (socket_id p) socketId) (players db).

Module DB.

(** Modelled from the spec: the reply of the persistence collaborator
    (supabase.service.ts and the database behind it are not among the
    sources) when a request does not get through. *)
Definition unreachable {A : Type} : Response A := Failure (lit "fetch failed").

(** Modelled from the spec: persistence collaborator, select-by-equality
    of a single row; anything but exactly one matching row is an error. *)
Definition single {A : Type} (rows : list A) : Response A :=
  match rows with
  | [row] => Data row
  | _ => Failure (lit "JSON object requested, multiple (or no) rows returned")
  end.

(** Modelled from the spec: persistence collaborator, select-by-equality
    on rooms, one row expected. [up] tells whether the request gets
    through. *)
Definition rooms_select_single (up : bool) (p : Room -> bool) : M (Response Room) :=
  fun db =>
    (Returns (if up then single (filter p (rooms db)) else unreachable), db).

(** Modelled from the spec: persistence collaborator, select-by-equality
    on players, all matching rows. *)
Definition players_select (up : bool) (p : Player -> bool)
  : M (Response (list Player)) :=
  fun db =>
    (Returns (if up then Data (filter p (players db)) else unreachable), db).

(** Modelled from the spec: persistence collaborator, select-by-equality
    on players, one row expected. *)
Definition players_select_single (up : bool) (p : Player -> bool)
  : M (Response Player) :=
  fun db =>
    (Returns (if up then single (filter p (players db)) else unreachable), db).

(** Modelled from the spec: persistence collaborator, insert-with-return
    on rooms; the store draws the identifier and refuses a code already
    in use (unique code). *)
Definition rooms_insert (up : bool) (row : Id -> Room) : M (Response Room) :=
  fun db =>
    if up then
      let r := row (next_id db) in
      if existsb (fun r' => streq (room_code r') (room_code r)) (rooms db)
      then (Returns (Failure (lit "duplicate key value violates unique constraint")), db)
      else (Returns (Data r),
            mkStore (rooms db ++ [r]) (players db) (games db) (N.succ (next_id db)))
    else (Returns unreachable, db).

(** Modelled from the spec: persistence collaborator, insert-with-return
    on players. *)
Definition players_insert (up : bool) (row : Id -> Player) : M (Response Player) :=
  fun db =>
    if up then
      let p := row (next_id db) in
      (Returns (Data p),
       mkStore (rooms db) (players db ++ [p]) (games db) (N.succ (next_id db)))
    else (Returns unreachable, db).

(** Modelled from the spec: persistence collaborator, insert-with-return
    on games. *)
Definition games_insert (up : bool) (row : Id -> Game) : M (Response Game) :=
  fun db =>
    if up then
      let g := row (next_id db) in
      (Returns (Data g),
       mkStore (rooms db) (players db) (games db ++ [g]) (N.succ (next_id db)))
    else (Returns unreachable, db).

(** Modelled from the spec: persistence collaborator, update-by-id on
    rooms: every matching row is patched. *)
Definition rooms_update (up : bool) (patch : Room -> Room) (p : Room -> bool)
  : M (Response unit) :=
  fun db =>
    if up then
      (Returns (Data tt),
       mkStore (map (fun r => if p r then patch r else r) (rooms db))
               (players db) (games db) (next_id db))
    else (Returns unreachable, db).

(** Modelled from the spec: persistence collaborator, the foreign key
    from a game's winner to the players. It has no action on delete: a
    player whom a game names as winner cannot go while that game
    stays. *)
Definition names_winner (gs : list Game) (x : Player) : bool :=
  existsb (fun g => winner_player_id g =? player_id x) gs.

Definition refused : Response unit :=
  Failure (lit "update or delete on table players violates foreign key constraint").

(** Modelled from the spec: persistence collaborator, delete-by-equality
    on players. The statement is refused as a whole when one of the
    rows it would delete is the winner of a game. *)
Definition players_delete (up : bool) (p : Player -> bool) : M (Response unit) :=
  fun db =>
    if up then
      if existsb (names_winner (games db)) (filter p (players db))
      then (Returns refused, db)
      else
        (Returns (Data tt),
         mkStore (rooms db) (filter (fun x => negb (p x)) (players db))
                 (games db) (next_id db))
    else (Returns unreachable, db).

(** Modelled from the spec: persistence collaborator, delete-by-id on
    rooms, with cascading delete from room to players and games. The
    reference from a game's winner to the players is checked when the
    statement ends: it is refused when a game that stays names a player
    that went with a room. *)
Definition rooms_delete (up : bool) (p : Room -> bool) : M (Response unit) :=
  fun db =>
    if up then
      let gone := filter p (rooms db) in
      let owned (rid : Id) := existsb (fun r => room_id r =? rid) gone in
      let kept := filter (fun g => negb (owned (game_room_id g))) (games db) in
      if existsb (names_winner kept)
                 (filter (fun x => owned (player_room_id x)) (players db))
      then (Returns refused, db)
      else
        (Returns (Data tt),
         mkStore (filter (fun r => negb (p r)) (rooms db))
                 (filter (fun x => negb (owned (player_room_id x))) (players db))
                 kept
                 (next_id db))
    else (Returns unreachable, db).

End DB.

(* ===================================================================== *)
(** ** What a call takes from its surroundings *)
(* ===================================================================== *)

(** The requests a method sends, in program order. *)
Inductive Request : Type :=
| LookupCode (attempt : nat) | InsertRoom | InsertCreator | RollbackRoom
| FindWaitingRoom | ListExisting | InsertJoiner | MarkFull
| ResetRoom
| FindRoom | RefetchRoom | ListPlayers | InsertGame | MarkCompleted
| FindPlayer | DeletePlayer | DeleteRoom.

(** One call's surroundings: which of its requests get through, the
    values [Math.floor(Math.random() * chars.length)] takes, and the
    bytes [randomBytes] returns. *)
Record Env : Type := mkEnv {
  served : Request -> bool;
  random_index : nat -> N;
  randomBytes : nat -> list N }.

(** A call none of whose requests is lost. *)
Definition reliable (env : Env) : Prop := forall q, served env q = true.

(* ===================================================================== *)
(** ** Room/game state machine (game.service.ts) *)
(* ===================================================================== *)

Module GameService.

Definition FIXED_STAKE : Z := 10%Z.
Definition TOTAL_POT : Z := 20%Z.

(** [value || fallback] on an optional string: an absent and an empty
    string are both falsy. *)
Definition or_else (value : option jsstring) (fallback : jsstring) : jsstring :=
  match value with
  | Some (u :: s) => u :: s
  | _ => fallback
  end.

(** [`Player ${socketId.substring(0, 4)}`]. *)
Definition defaultName (socketId : jsstring) : jsstring :=
  lit "Player " ++ substring socketId 0 4.

Definition chars : jsstring := lit "ABCDEFGHIJKLMNOPQRSTUVWXYZ0123456789".

(** [s.charAt(i)]: the empty string out of range. *)
Definition charAt (s : jsstring) (i : N) : jsstring :=
  match nth_error s (N.to_nat i) with
  | Some u => [u]
  | None => []
  end.

(** The code drawn at the given attempt: six characters of [chars]. *)
Definition generateRoomCode (env : Env) (attempt : nat) : jsstring :=
  flat_map (fun i => charAt chars (random_index env (6 * attempt + i)%nat))
           (seq 0 6).

Definition maxAttempts : nat := 10.

(** The [do ... while (codeExists)] loop of [createRoom]; [remaining] is
    [maxAttempts - attempts], so that [attempts >= maxAttempts] reads
    [remaining = 0]. *)
Fixpoint pickRoomCode (env : Env) (remaining attempts : nat) : M jsstring :=
  match remaining with
  | O => throw (DatabaseException (lit "room creation")
                                  (lit "Unable to generate unique room code"))
  | S remaining' =>
      let roomCode := generateRoomCode env attempts in
      looked <- DB.rooms_select_single (served env (LookupCode attempts))
                  (fun r => streq (room_code r) roomCode) ;;
      match looked with
      | Data _ => pickRoomCode env remaining' (S attempts)
      | Failure _ => ret roomCode
      end
  end.

Definition createRoom (env : Env) (createRoomDto : CreateRoomDto)
    (socketId : jsstring) : M Room :=
  let playerName :=
    or_else (dto_playerName createRoomDto) (defaultName socketId) in
  try_catch_M
    (roomCode <- pickRoomCode env maxAttempts 0 ;;
     let serverSeed := generateServerSeed (randomBytes env 32) in
     roomResp <- DB.rooms_insert (served env InsertRoom)
                   (fun id => mkRoom id roomCode (dto_side createRoomDto)
                                     FIXED_STAKE TOTAL_POT waiting serverSeed
                                     None 0) ;;
     match roomResp with
     | Failure roomError =>
         throw (DatabaseException (lit "room creation") roomError)
     | Data room =>
         playerResp <- DB.players_insert (served env InsertCreator)
                         (fun id => mkPlayer id (room_id room) socketId
                                             playerName (dto_side createRoomDto)
                                             true FIXED_STAKE true) ;;
         match playerResp with
         | Failure playerError =>
             DB.rooms_delete (served env RollbackRoom)
               (fun r => room_id r =? room_id room) ;;;
             throw (DatabaseException (lit "player creation") playerError)
         | Data _ => ret room
         end
     end)
    (fun error =>
       match error with
       | DatabaseException _ _ => throw error
       | _ => throw (DatabaseException (lit "room creation") (message_of error))
       end).

Definition joinRoom (env : Env) (joinRoomDto : JoinRoomDto)
    (socketId : jsstring) : M (Room * Player) :=
  let playerName :=
    or_else (dto_joinerName joinRoomDto) (defaultName socketId) in
  roomResp <- DB.rooms_select_single (served env FindWaitingRoom)
                (fun r => streq (room_code r) (dto_code joinRoomDto)
                          && status_eqb (status r) waiting) ;;
  match roomResp with
  | Failure _ => throw (Error (lit "Room not found or not available"))
  | Data room =>
      existingPlayers <- DB.players_select (served env ListExisting)
                           (fun p => player_room_id p =? room_id room) ;;
      if match existingPlayers with
         | Data ps => (2 <=? List.length ps)%nat
         | Failure _ => false
         end
      then throw (RoomFullException (dto_code joinRoomDto))
      else
        let playerSide :=
          if side_eqb (creator_side room) heads then tails else heads in
        if side_eqb playerSide (creator_side room)
        then throw (InvalidGameStateException
                      (lit "Both players have side " ++ [34] ++ side_text playerSide ++ [34])
                      (lit "Players must have opposite sides"))
        else
          let clientSeed := generateClientSeed (randomBytes env 16) in
          playerResp <- DB.players_insert (served env InsertJoiner)
                          (fun id => mkPlayer id (room_id room) socketId
                                              playerName playerSide false
                                              FIXED_STAKE true) ;;
          match playerResp with
          | Failure playerError =>
              throw (Error (lit "Failed to join room: " ++ playerError))
          | Data player =>
              updated <- DB.rooms_update (served env MarkFull)
                           (fun r => set_client_seed (Some clientSeed)
                                       (set_status full r))
                           (fun r => room_id r =? room_id room) ;;
              match updated with
              | Failure updateError =>
                  throw (Error (lit "Failed to update room status: " ++ updateError))
              | Data _ =>
                  ret (set_client_seed (Some clientSeed) (set_status full room),
                       player)
              end
          end
  end.

Definition resetRoomForReplay (env : Env) (roomId : Id) : M unit :=
  reset <- DB.rooms_update (served env ResetRoom)
             (set_status full)
             (fun r => room_id r =? roomId) ;;
  match reset with
  | Failure resetError =>
      throw (Error (lit "Failed to reset room for replay: " ++ resetError))
  | Data _ => ret tt
  end.

(** What [flipCoin] resolves to. *)
Record FlipOutcome : Type := mkFlipOutcome {
  out_result : CoinSide;
  out_winner : CoinSide;
  out_game : Game;
  out_verification : VerificationData;
  out_winnerPlayer : Player }.

Definition flipCoin (env : Env) (roomId : Id) : M FlipOutcome :=
  found <- DB.rooms_select_single (served env FindRoom)
             (fun r => (room_id r =? roomId)
                       && (status_eqb (status r) full
                           || status_eqb (status r) completed)) ;;
  match found with
  | Failure _ => throw (Error (lit "Room not found or not ready for game"))
  | Data fetched =>
      room <- (if status_eqb (status fetched) completed
               then
                 resetRoomForReplay env roomId ;;;
                 refetched <- DB.rooms_select_single (served env RefetchRoom)
                                (fun r => room_id r =? roomId) ;;
                 ret (match refetched with
                      | Data updatedRoom => updatedRoom
                      | Failure _ => fetched
                      end)
               else ret fetched) ;;
      match room_client_seed room with
      | None | Some [] =>
          throw (Error (lit "Client seed not set - room not ready for play"))
      | Some client_seed =>
          let newNonce := room_nonce room + 1 in
          let fairResult :=
            generateResult (room_server_seed room) client_seed newNonce in
          listed <- DB.players_select (served env ListPlayers)
                      (fun p => player_room_id p =? roomId) ;;
          match listed with
          | Failure _ => throw (Error (lit "Invalid player count for game"))
          | Data players =>
              if negb (List.length players =? 2)%nat
              then throw (Error (lit "Invalid player count for game"))
              else
                match find (fun p => side_eqb (side p) (result fairResult))
                           players with
                | None => throw (Error (lit "Unable to determine winner"))
                | Some winnerPlayer =>
                    inserted <- DB.games_insert (served env InsertGame)
                                  (fun id =>
                                     mkGame id roomId (result fairResult)
                                       (result fairResult)
                                       (player_id winnerPlayer)
                                       (room_total_pot room)
                                       (room_server_seed room) client_seed
                                       newNonce (hash fairResult) true) ;;
                    match inserted with
                    | Failure gameError =>
                        throw (Error (lit "Failed to create game: " ++ gameError))
                    | Data game =>
                        DB.rooms_update (served env MarkCompleted)
                          (fun r => set_nonce newNonce (set_status completed r))
                          (fun r => room_id r =? roomId) ;;;
                        let verification :=
                          createVerificationData (room_server_seed room)
                            client_seed newNonce in
                        ret (mkFlipOutcome (result fairResult)
                               (result fairResult) game verification
                               winnerPlayer)
                    end
                end
          end
      end
  end.

Definition removePlayer (env : Env) (socketId : jsstring) : M unit :=
  found <- DB.players_select_single (served env FindPlayer)
             (fun p => streq (socket_id p) socketId) ;;
  match found with
  | Data player =>
      DB.players_delete (served env DeletePlayer)
        (fun p => streq (socket_id p) socketId) ;;;
      if is_creator player
      then
        DB.rooms_delete (served env DeleteRoom)
          (fun r => room_id r =? player_room_id player) ;;;
        ret tt
      else ret tt
  | Failure _ => ret tt
  end.

End GameService.

(* ===================================================================== *)
(** ** The design document's wording of the fairness engine *)
(* ===================================================================== *)

Module Spec.

(** The big-endian unsigned integer a list of bytes spells. *)
Definition uint_be (bytes : list N) : N :=
  fold_left (fun acc b => acc * 256 + b) bytes 0.

(** [serverSeed:clientSeed:nonce], nonce as a decimal integer. *)
Definition combined (s c : jsstring) (n : N) : jsstring :=
  s ++ lit ":" ++ c ++ lit ":" ++ numberToString n.

(** The SHA-256 digest (32 bytes) of the combined string. *)
Definition digest (s c : jsstring) (n : N) : list N :=
  SHA256.digest (utf8_encode (combined s c n)).

(** The unsigned 32-bit integer held by the first four digest bytes,
    that is, by the first eight hex characters. *)
Definition uint32 (s c : jsstring) (n : N) : N :=
  uint_be (firstn 4 (digest s c n)).

(** Even gives heads, odd gives tails. *)
Definition side_of_parity (v : N) : CoinSide :=
  if N.even v then heads else tails.

(** The side strictly opposite a side. *)
Definition opposite (s : CoinSide) : CoinSide :=
  match s with heads => tails | tails => heads end.

(** The value a string of decimal digits denotes. *)
Definition digit_step (acc u : N) : N := acc * 10 + (u - 48).

Definition decimal_value (s : jsstring) : N := fold_left digit_step s 0.

End Spec.

(* ===================================================================== *)
(** ** The state machine as a whole *)
(* ===================================================================== *)

Import GameService.

(** The store once the room has been reset, and once the flip is
    recorded. *)
Definition after_reset (roomId : Id) (db : Store) : Store :=
  mkStore (map (fun r => if room_id r =? roomId then set_status full r else r)
               (rooms db))
          (players db) (games db) (next_id db).

Definition after_flip (roomId : Id) (newNonce : N) (g : Game) (db : Store) : Store :=
  mkStore (map (fun r => if room_id r =? roomId
                         then set_nonce newNonce (set_status completed r)
                         else r)
               (rooms db))
          (players db) (games db ++ [g]) (N.succ (next_id db)).

(** The game a flip in [room] records, and what the caller gets. *)
Definition game_of_flip (id : Id) (room : Room) (seed : jsstring) (w : Player) : Game :=
  let fair := generateResult (room_server_seed room) seed (room_nonce room + 1) in
  mkGame id (room_id room) (result fair) (result fair) (player_id w)
         (room_total_pot room) (room_server_seed room) seed
         (room_nonce room + 1) (hash fair) true.

Definition outcome_of_flip (id : Id) (room : Room) (seed : jsstring) (w : Player)
  : FlipOutcome :=
  let fair := generateResult (room_server_seed room) seed (room_nonce room + 1) in
  mkFlipOutcome (result fair) (result fair) (game_of_flip id room seed w)
    (createVerificationData (room_server_seed room) seed (room_nonce room + 1))
    w.


(** The store once a joiner has been added to [room]. *)
Definition after_join (room : Room) (seed : jsstring) (joiner : Player) (db : Store)
  : Store :=
  mkStore (map (fun r => if room_id r =? room_id room
                         then set_client_seed (Some seed) (set_status full r)
                         else r)
               (rooms db))
          (players db ++ [joiner]) (games db) (N.succ (next_id db)).

(** The store without a room, its players and its games; and the store
    without the players on a connection. *)
Definition without_room (roomId : Id) (db : Store) : Store :=
  mkStore (filter (fun r => negb (room_id r =? roomId)) (rooms db))
          (filter (fun p => negb (player_room_id p =? roomId)) (players db))
          (filter (fun g => negb (game_room_id g =? roomId)) (games db))
          (next_id db).

Definition without_socket (socketId : jsstring) (db : Store) : Store :=
  mkStore (rooms db)
          (filter (fun p => negb (streq (socket_id p) socketId)) (players db))
          (games db) (next_id db).

(** The store once a room and its creator have been added. *)
Definition after_create (code seed : jsstring) (side : CoinSide)
    (socketId playerName : jsstring) (db : Store) : Store :=
  mkStore (rooms db ++ [mkRoom (next_id db) code side GameService.FIXED_STAKE
                               GameService.TOTAL_POT waiting seed None 0])
          (players db ++ [mkPlayer (N.succ (next_id db)) (next_id db) socketId
                                   playerName side true
                                   GameService.FIXED_STAKE true])
          (games db) (N.succ (N.succ (next_id db))).

(** A change to a room row that keeps its key, creator side and seeds
    and does not send it back to [waiting]. *)
Definition benign (f : Room -> Room) : Prop :=
  forall r,
    room_id (f r) = room_id r /\ creator_side (f r) = creator_side r /\
    room_server_seed (f r) = room_server_seed r /\
    room_client_seed (f r) = room_client_seed r /\
    (status r <> waiting -> status (f r) <> waiting).

(** The four operations, each with the surroundings of the call. *)
Inductive Op : Type :=
| CreateRoom (env : Env) (createRoomDto : CreateRoomDto) (socketId : jsstring)
| JoinRoom (env : Env) (joinRoomDto : JoinRoomDto) (socketId : jsstring)
| FlipCoin (env : Env) (roomId : Id)
| RemovePlayer (env : Env) (socketId : jsstring).

Definition env_of (op : Op) : Env :=
  match op with
  | CreateRoom env _ _ | JoinRoom env _ _ | FlipCoin env _ | RemovePlayer env _ => env
  end.

(** The store an operation leaves, whether it returns or throws. *)
Definition exec (op : Op) (db : Store) : Store :=
  match op with
  | CreateRoom env dto socketId => snd (createRoom env dto socketId db)
  | JoinRoom env dto socketId => snd (joinRoom env dto socketId db)
  | FlipCoin env roomId => snd (flipCoin env roomId db)
  | RemovePlayer env socketId => snd (removePlayer env socketId db)
  end.

(** The stores the operations build from the empty one when no request
    is lost. *)
Inductive reachable : Store -> Prop :=
| reachable_empty : reachable empty_store
| reachable_step (op : Op) (db : Store) :
    reachable db -> reliable (env_of op) -> reachable (exec op db).

(** At most two players per room, and two players hold opposite sides. *)
Definition at_most_two_opposite (db : Store) : Prop :=
  forall roomId,
    (List.length (players_in db roomId) <= 2)%nat /\
    forall p q, players_in db roomId = [p; q] ->
                side p <> side q /\ side q = Spec.opposite (side p).

(** What the operations maintain besides: identifiers come from the
    counter and key the rooms, every player and every game belongs to a
    room, a game carries its room's seeds, and a room holds its creator
    and, once it has left [waiting], at most the joiner. *)
Record wf (db : Store) : Prop := mk_wf {
  wf_room_ids : forall r, In r (rooms db) -> room_id r < next_id db;
  wf_room_key : NoDup (map room_id (rooms db));
  wf_owner : forall p, In p (players db) ->
      exists r, In r (rooms db) /\ room_id r = player_room_id p;
  wf_game_room : forall g, In g (games db) ->
      exists r, In r (rooms db) /\ room_id r = game_room_id g /\
                status r <> waiting /\
                game_server_seed g = room_server_seed r /\
                room_client_seed r = Some (game_client_seed g);
  wf_players : forall r, In r (rooms db) ->
      exists c, is_creator c = true /\ side c = creator_side r /\
        (players_in db (room_id r) = [c] \/
         (status r <> waiting /\
          exists j, is_creator j = false /\
                    side j = Spec.opposite (creator_side r) /\
                    players_in db (room_id r) = [c; j])) }.

(** A sample run: one room, created for heads, joined, flipped twice. *)
Module Sample.

Definition env : Env :=
  mkEnv (fun _ => true) (fun k => N.of_nat k) (fun n => map N.of_nat (seq 0 n)).

Definition created : Store :=
  exec (CreateRoom env (mkCreateRoomDto heads None) (lit "sock-A")) empty_store.

Definition joined : Store :=
  exec (JoinRoom env (mkJoinRoomDto (lit "ABCDEF") None) (lit "sock-B")) created.

Definition flipped : Store := exec (FlipCoin env 0) joined.

Definition replayed : Store := exec (FlipCoin env 0) flipped.

(** The joiner's connection is lost after the first flip. *)
Definition joiner_left : Store := exec (RemovePlayer env (lit "sock-B")) flipped.

(** The creator's connection is lost after the first flip. *)
Definition creator_left : Store := exec (RemovePlayer env (lit "sock-A")) flipped.

(** Another room, created for tails. *)
Definition created_tails : Store :=
  exec (CreateRoom env (mkCreateRoomDto tails None) (lit "sock-C")) empty_store.

(** A store the operations never build: both players on heads. *)
Definition same_side : Store :=
  mkStore [mkRoom 0 (lit "ABCDEF") heads 10 20 full (lit "s") (Some (lit "c")) 0]
          [mkPlayer 1 0 (lit "sock-A") (lit "A") heads true 10 true;
           mkPlayer 2 0 (lit "sock-B") (lit "B") heads false 10 true]
          [] 3.

End Sample.

(* ===================================================================== *)
(** ** The queries of the service (game.service.ts) *)
(* ===================================================================== *)

(** Character classes of the texts the services produce. *)
Definition is_lower_hex (u : N) : bool :=
  ((48 <=? u) && (u <=? 57)) || ((97 <=? u) && (u <=? 102)).

Definition is_ascii (u : N) : bool := u <? 128.

Definition is_code_char (u : N) : bool :=
  ((65 <=? u) && (u <=? 90)) || ((48 <=? u) && (u <=? 57)).

Module GameQueries.

(** The requests the queries send. *)
Inductive Query : Type := RoomByCode | RoomById | PlayersOfRoom.

(** Modelled from the spec: persistence collaborator, ordered select
    (players ordered by join time ascending). The store keeps the player
    rows in the order of their insertion, which is the order of the join
    times the database stamps on them. *)
Definition players_select_ordered (up : bool) (p : Player -> bool)
  : M (Response (list Player)) :=
  fun db =>
    (Returns (if up then Data (filter p (players db)) else DB.unreachable), db).

Definition formatPlayerForWebSocket (player : Player) : Player :=
  mkPlayer (player_id player) (player_room_id player) (socket_id player)
           (or_else (Some (name player)) (defaultName (socket_id player)))
           (side player) (is_creator player) (player_stake_amount player)
           (has_paid player).

(** [null] is [None]. *)
Definition getRoomByCode (served : Query -> bool) (code : jsstring)
  : M (option Room) :=
  found <- DB.rooms_select_single (served RoomByCode)
             (fun r => streq (room_code r) code) ;;
  ret (match found with Data room => Some room | Failure _ => None end).

Definition getPlayersInRoom (served : Query -> bool) (roomId : Id)
  : M (list Player) :=
  listed <- players_select_ordered (served PlayersOfRoom)
              (fun p => player_room_id p =? roomId) ;;
  ret (map formatPlayerForWebSocket
           (match listed with Data players => players | Failure _ => [] end)).

Definition getRoomWithPlayers (served : Query -> bool) (roomId : Id)
  : M (option Room * list Player) :=
  found <- DB.rooms_select_single (served RoomById)
             (fun r => room_id r =? roomId) ;;
  players <- getPlayersInRoom served roomId ;;
  ret (match found with Data room => Some room | Failure _ => None end, players).

Definition isRoomReadyForReplay (served : Query -> bool) (roomId : Id) : M bool :=
  fetched <- getRoomWithPlayers served roomId ;;
  let (room, players) := fetched in
  match room with
  | None => ret false
  | Some room =>
      if negb (List.length players =? 2)%nat
         || negb (status_eqb (status room) completed)
      then ret false
      else
        let creator := find (fun p => is_creator p) players in
        let joiner := find (fun p => negb (is_creator p)) players in
        match creator, joiner with
        | Some creator, Some joiner =>
            if side_eqb (side creator) (side joiner) then ret false else ret true
        | _, _ => ret false
        end
  end.

(** The reply to the look-up of the code [createRoom] draws at an
    attempt. *)
Definition code_lookup (env : Env) (db : Store) (attempt : nat) : Response Room :=
  if served env (LookupCode attempt)
  then DB.single (filter (fun r => streq (room_code r) (generateRoomCode env attempt))
                         (rooms db))
  else DB.unreachable.

Definition is_data {A : Type} (r : Response A) : bool :=
  match r with Data _ => true | Failure _ => false end.

(** Queries that all get through. *)
Definition all_served : Query -> bool := fun _ => true.

End GameQueries.

(* ===================================================================== *)
(** ** What the gateway announces after a flip (game.gateway.ts) *)
(* ===================================================================== *)

Module GameGateway.

Import GameQueries.

(** The winner as the events show it. *)
Record EventPlayer : Type := mkEventPlayer {
  ev_id : Id;
  ev_name : jsstring;
  ev_side : CoinSide;
  ev_is_creator : bool;
  ev_socket_id : jsstring }.

(** [player.name || `Player ${player.socket_id?.substring(0, 4) || 'Unknown'}`]. *)
Definition formatPlayerForEvent (player : Player) : EventPlayer :=
  mkEventPlayer (player_id player)
    (or_else (Some (name player))
       (lit "Player " ++ or_else (Some (substring (socket_id player) 0 4))
                                 (lit "Unknown")))
    (side player) (is_creator player) (socket_id player).

Inductive GameResult : Type := win | lose.

(** The events sent: the result to the room, the personal result to the
    connection of each player, or the error to the room. *)
Inductive Emitted : Type :=
| coin_flip_result (toRoom : Id) (flipResult winnerSide : CoinSide)
    (winnerPlayer : EventPlayer) (totalPot : Z) (players : list Player)
    (game : Game) (verification : VerificationData)
| game_completed (toSocket : jsstring) (result : GameResult)
    (flipResult yourSide winnerSide : CoinSide) (winnings : Z)
    (players : list Player) (verification : VerificationData) (game : Game)
| error_event (toRoom : Id) (message type : jsstring).

(** The body of [players.forEach]. *)
Definition game_completed_for (result : FlipOutcome) (players : list Player)
    (gamePlayer : Player) : Emitted :=
  let isWinner := player_id gamePlayer =? player_id (out_winnerPlayer result) in
  game_completed (socket_id gamePlayer) (if isWinner then win else lose)
    (out_result result) (side gamePlayer) (out_winner result)
    (if isWinner then 20%Z else 0%Z) players (out_verification result)
    (out_game result).

(** The function the gateway runs once the animation delay is over, in
    [handleFlipCoin] with the error type [flip_coin_error] and in
    [handleJoinRoom] with [auto_flip_error]: the flip, the players
    fetched again, the events; an exception becomes an error event. *)
Definition announceFlip (env : Env) (served : Query -> bool) (roomId : Id)
    (errorType : jsstring) (db : Store) : list Emitted * Store :=
  match flipCoin env roomId db with
  | (Returns result, db1) =>
      match getRoomWithPlayers served roomId db1 with
      | (Returns (_, players), db2) =>
          (coin_flip_result roomId (out_result result) (out_winner result)
             (formatPlayerForEvent (out_winnerPlayer result)) 20%Z players
             (out_game result) (out_verification result)
           :: map (game_completed_for result players) players,
           db2)
      | (Throws error, db2) =>
          ([error_event roomId (message_of error) errorType], db2)
      end
  | (Throws error, db1) =>
      ([error_event roomId (message_of error) errorType], db1)
  end.

(** What the personal results pay out in all, and to whom they say
    [win]. *)
Definition winnings_of (e : Emitted) : Z :=
  match e with
  | game_completed _ _ _ _ _ winnings _ _ _ => winnings
  | _ => 0%Z
  end.

Definition winnings_paid (events : list Emitted) : Z :=
  fold_right (fun e total => (winnings_of e + total)%Z) 0%Z events.

Definition told_win (e : Emitted) : option jsstring :=
  match e with
  | game_completed toSocket win _ _ _ _ _ _ _ => Some toSocket
  | _ => None
  end.

Definition winners_told (events : list Emitted) : list jsstring :=
  flat_map (fun e => match told_win e with Some s => [s] | None => [] end)
           events.

End GameGateway.

(** Runs in which something goes wrong. *)
Module Faulty.

(** The request that adds the creator is lost. *)
Definition creator_lost : Env :=
  mkEnv (fun q => match q with InsertCreator => false | _ => true end)
        (fun k => N.of_nat k) (fun n => map N.of_nat (seq 0 n)).

(** The update that marks the room full is lost. *)
Definition full_mark_lost : Env :=
  mkEnv (fun q => match q with MarkFull => false | _ => true end)
        (fun k => N.of_nat k) (fun n => map N.of_nat (seq 0 n)).

(** The update that marks the room completed is lost. *)
Definition completed_mark_lost : Env :=
  mkEnv (fun q => match q with MarkCompleted => false | _ => true end)
        (fun k => N.of_nat k) (fun n => map N.of_nat (seq 0 n)).

(** The update that resets a completed room is lost. *)
Definition reset_lost : Env :=
  mkEnv (fun q => match q with ResetRoom => false | _ => true end)
        (fun k => N.of_nat k) (fun n => map N.of_nat (seq 0 n)).

(** Every draw gives the first character, so every code is the same. *)
Definition same_code : Env :=
  mkEnv (fun _ => true) (fun _ => 0) (fun n => map N.of_nat (seq 0 n)).

(** A store in which that code is taken. *)
Definition taken : Store :=
  exec (CreateRoom same_code (mkCreateRoomDto heads None) (lit "sock-A"))
       empty_store.

(** The request that lists the players already in the room is lost. *)
Definition listing_lost : Env :=
  mkEnv (fun q => match q with ListExisting => false | _ => true end)
        (fun k => N.of_nat k) (fun n => map N.of_nat (seq 0 n)).

(** One connection creates two rooms. *)
Definition two_rooms : Store :=
  exec (CreateRoom Sample.env (mkCreateRoomDto tails None) (lit "sock-A"))
       Sample.created.

(** A join whose update of the room is lost: the joiner is in, the room
    still waits. *)
Definition half_joined : Store :=
  exec (JoinRoom full_mark_lost (mkJoinRoomDto (lit "ABCDEF") None) (lit "sock-B"))
       Sample.created.

(** Then a join whose listing of the players is lost. *)
Definition crowded : Store :=
  exec (JoinRoom listing_lost (mkJoinRoomDto (lit "ABCDEF") None) (lit "sock-C"))
       half_joined.

End Faulty.

(* ===================================================================== *)
(** ** The stores the operations build, step by step *)
(* ===================================================================== *)

(** The changes the four operations make to the store when no request is
    lost: a room with its creator is added, a joiner is added to a
    waiting room, a completed room is reset, a flip in a full room is
    recorded, a room goes with all it owns, a joiner goes. *)
Inductive built : Store -> Prop :=
| built_empty : built empty_store
| built_create (db : Store) (code seed : jsstring) (side : CoinSide)
    (socketId playerName : jsstring) :
    built db ->
    (forall r, In r (rooms db) -> room_code r <> code) ->
    playerName <> [] ->
    built (after_create code seed side socketId playerName db)
| built_join (db : Store) (room : Room) (seed socketId playerName : jsstring) :
    built db ->
    In room (rooms db) -> status room = waiting -> playerName <> [] ->
    built (after_join room seed
             (mkPlayer (next_id db) (room_id room) socketId playerName
                       (Spec.opposite (creator_side room)) false
                       FIXED_STAKE true)
             db)
| built_reset (db : Store) (room : Room) :
    built db ->
    In room (rooms db) -> status room = completed ->
    built (after_reset (room_id room) db)
| built_flip (db : Store) (room : Room) (seed : jsstring) (w : Player) :
    built db ->
    In room (rooms db) -> status room = full ->
    room_client_seed room = Some seed -> seed <> [] ->
    In w (players_in db (room_id room)) ->
    side w = result (generateResult (room_server_seed room) seed
                                    (room_nonce room + 1)) ->
    built (after_flip (room_id room) (room_nonce room + 1)
             (game_of_flip (next_id db) room seed w) db)
| built_drop_room (db : Store) (p : Player) :
    built db ->
    In p (players db) -> is_creator p = true ->
    built (without_room (player_room_id p) db)
| built_drop_player (db : Store) (socketId : jsstring) (p : Player) :
    built db ->
    players_on db socketId = [p] -> is_creator p = false ->
    built (without_socket socketId db).

(** A recorded game checks out: [verifyResult] accepts its seeds, nonce,
    hash and result, and the winner side is the result. *)
Definition game_sound (g : Game) : Prop :=
  verifyResult (game_server_seed g) (game_client_seed g) (game_nonce g)
               (hash_result g) (side_text (flip_result g)) = Returns true /\
  winner_side g = flip_result g /\ is_verified g = true.

(** Where a room is in its life. *)
Definition room_stage (r : Room) : Prop :=
  (status r = waiting /\ room_client_seed r = None /\ room_nonce r = 0) \/
  ((status r = full \/ status r = completed) /\
   exists seed, room_client_seed r = Some seed).

(** The nonces [1 .. n]. *)
Definition nonces_up_to (n : N) : list N :=
  map N.of_nat (seq 1 (N.to_nat n)).

(** What holds of every store the operations build. *)
Record store_invariant (db : Store) : Prop := mk_store_invariant {
  inv_codes : NoDup (map room_code (rooms db));
  inv_stage : forall r, In r (rooms db) -> room_stage r;
  inv_completed : forall r, In r (rooms db) -> status r = completed ->
      1 <= room_nonce r;
  inv_nonces : forall r, In r (rooms db) ->
      map game_nonce (games_of db (room_id r)) = nonces_up_to (room_nonce r);
  inv_games : forall g, In g (games db) -> game_sound g;
  inv_names : forall p, In p (players db) -> name p <> [];
  inv_player_ids : forall p, In p (players db) -> player_id p < next_id db;
  inv_player_key : NoDup (map player_id (players db));
  inv_winner_ids : forall g, In g (games db) -> winner_player_id g < next_id db;
  inv_winner : forall g p, In g (games db) -> In p (players db) ->
      player_id p = winner_player_id g ->
      player_room_id p = game_room_id g /\ side p = winner_side g }.

(** One step of a room's life: what may differ between a room row and
    the row with the same key one operation later. *)
Definition room_succeeds (r r' : Room) : Prop :=
  room_code r' = room_code r /\ creator_side r' = creator_side r /\
  room_server_seed r' = room_server_seed r /\
  room_stake_amount r' = room_stake_amount r /\
  room_total_pot r' = room_total_pot r /\
  room_nonce r <= room_nonce r' /\
  (forall seed, room_client_seed r = Some seed -> room_client_seed r' = Some seed) /\
  (status r <> waiting -> status r' <> waiting).

(* ===================================================================== *)
(** ** Rate limiting (rate-limit.guard.ts) *)
(* ===================================================================== *)

Module RateLimitGuard.

Definition maxRequests : nat := 100.

Definition windowMs : Z := (15 * 60 * 1000)%Z.

(** [Map<string, number[]>]: the request times kept per address. *)
Definition Requests : Type := jsstring -> option (list Z).

Definition no_requests : Requests := fun _ => None.

Definition map_set (key : jsstring) (value : list Z) (m : Requests) : Requests :=
  fun k => if streq k key then Some value else m k.

Definition map_delete (key : jsstring) (m : Requests) : Requests :=
  fun k => if streq k key then None else m k.

(** [this.requests.get(clientIp) || []]. *)
Definition times_of (m : Requests) (clientIp : jsstring) : list Z :=
  match m clientIp with Some times => times | None => [] end.

(** The parts of a request [getClientIp] reads. *)
Record HttpRequest : Type := mkHttpRequest {
  x_forwarded_for : option jsstring;
  x_real_ip : option jsstring;
  connection_remoteAddress : option jsstring;
  socket_remoteAddress : option jsstring }.

Definition getClientIp (request : HttpRequest) : jsstring :=
  or_else (x_forwarded_for request)
    (or_else (x_real_ip request)
       (or_else (connection_remoteAddress request)
          (or_else (socket_remoteAddress request) (lit "unknown")))).

(** [now] is what [Date.now()] returns. *)
Definition cleanOldRequests (now : Z) (clientIp : jsstring) (m : Requests)
  : Requests :=
  let requestTimes := times_of m clientIp in
  let validRequests := filter (fun time => (now - time <? windowMs)%Z) requestTimes in
  if (List.length validRequests =? 0)%nat
  then map_delete clientIp m
  else map_set clientIp validRequests m.

(** What [canActivate] does: it returns [true] or throws the
    [HttpException] with status 429. *)
Inductive Verdict : Type := Activated | TooManyRequests.

(** [cleanedAt] and [now] are the two readings of [Date.now()], in
    [cleanOldRequests] and at the push. *)
Definition canActivate (cleanedAt now : Z) (clientIp : jsstring) (m : Requests)
  : Verdict * Requests :=
  let m := cleanOldRequests cleanedAt clientIp m in
  let requestTimes := times_of m clientIp in
  if (maxRequests <=? List.length requestTimes)%nat
  then (TooManyRequests, m)
  else (Activated, map_set clientIp (requestTimes ++ [now]) m).

(** A run of the guard: each request with the two clock readings it
    makes and its address, and the verdicts the requests got. *)
Fixpoint serve (calls : list (Z * Z * jsstring)) (m : Requests)
  : list (Z * jsstring * Verdict) * Requests :=
  match calls with
  | [] => ([], m)
  | (cleanedAt, now, clientIp) :: rest =>
      let (verdict, m') := canActivate cleanedAt now clientIp m in
      let (log, m'') := serve rest m' in
      ((now, clientIp, verdict) :: log, m'')
  end.

(** The times recorded for the requests of an address that were let
    through. *)
Definition activated_at (clientIp : jsstring) (log : list (Z * jsstring * Verdict))
  : list Z :=
  map (fun e => fst (fst e))
      (filter (fun e => match snd e with
                        | Activated => streq (snd (fst e)) clientIp
                        | TooManyRequests => false
                        end) log).

(** A clock that never goes back, starting at [from]. *)
Fixpoint ascending (from : Z) (calls : list (Z * Z * jsstring)) : Prop :=
  match calls with
  | [] => True
  | (cleanedAt, now, _) :: rest =>
      (from <= cleanedAt)%Z /\ (cleanedAt <= now)%Z /\ ascending now rest
  end.

(** What the clock reads after a run that started at [from]. *)
Definition clock_after (from : Z) (calls : list (Z * Z * jsstring)) : Z :=
  fold_left (fun _ call => snd (fst call)) calls from.

End RateLimitGuard.

(* ===================================================================== *)
(** * Properties *)
(* ===================================================================== *)

(** ** Test vectors *)

(** FIPS 180-4 vectors: the empty message, "abc", and a message whose
    padding spills into a second block. *)
Example sha256_empty :
  sha256_hex (lit "") =
  lit "e3b0c44298fc1c149afbf4c8996fb92427ae41e4649b934ca495991b7852b855".
Proof. vm_compute. reflexivity. Qed.

Example sha256_abc :
  sha256_hex (lit "abc") =
  lit "ba7816bf8f01cfea414140de5dae2223b00361a396177a9cb410ff61f20015ad".
Proof. vm_compute. reflexivity. Qed.

Example sha256_two_blocks :
  sha256_hex (lit "abcdbcdecdefdefgefghfghighijhijkijkljklmklmnlmnomnopnopq") =
  lit "248d6a61d20638b8e5c026930c3e6039a33ce45964ff2167f6ecedd419db06c1".
Proof. vm_compute. reflexivity. Qed.

Example numberToString_42 : numberToString 42 = lit "42".
Proof. reflexivity. Qed.

Example numberToString_0 : numberToString 0 = lit "0".
Proof. reflexivity. Qed.

Example numberToString_max :
  numberToString MAX_SAFE_INTEGER = lit "9007199254740991".
Proof. vm_compute. reflexivity. Qed.

(** The unit test "should generate deterministic results", seeds
    ['a' x 64] and ['b' x 32], nonce 1. *)
Example generateResult_unit_test :
  let r := generateResult (repeat 97 64) (repeat 98 32) 1 in
  hash r = lit "a83c7aec99a1ca34fbc4a65da9f0232a019ef30fe558a9b6d60b067f3108d5ed"
  /\ result r = heads.
Proof. vm_compute. split; reflexivity. Qed.

(** An unpaired surrogate is hashed as U+FFFD. *)
Example utf8_unpaired_surrogate :
  utf8_encode [55296] = [239; 191; 189] /\ utf8_encode [55297] = [239; 191; 189].
Proof. split; reflexivity. Qed.

Example utf8_pair : utf8_encode [55357; 56832] = [240; 159; 152; 128].
Proof. reflexivity. Qed.

(** ** Strings, hexadecimal digits, digests *)

Lemma streq_refl (a : jsstring) : streq a a = true.
Proof.
  induction a as [|x a IH]; simpl; [reflexivity|].
  now rewrite N.eqb_refl, IH.
Qed.

Lemma streq_eq (a b : jsstring) : streq a b = true <-> a = b.
Proof.
  split.
  - revert b; induction a as [|x a IH]; intros [|y b] H; simpl in H;
      try discriminate; [reflexivity|].
    apply andb_true_iff in H as [Hx Ha].
    apply N.eqb_eq in Hx. f_equal; [exact Hx | now apply IH].
  - intros ->. apply streq_refl.
Qed.

Lemma streq_neq (a b : jsstring) : streq a b = false <-> a <> b.
Proof.
  split.
  - intros H E. apply streq_eq in E. congruence.
  - intros H. destruct (streq a b) eqn:E; [|reflexivity].
    apply streq_eq in E. contradiction.
Qed.

Lemma side_text_inj (a b : CoinSide) : side_text a = side_text b -> a = b.
Proof. destruct a, b; intros H; try reflexivity; vm_compute in H; discriminate. Qed.

Lemma hex_value_hex_digit (d : N) : d < 16 -> hex_value (hex_digit d) = Some d.
Proof.
  intros Hd. unfold hex_digit, hex_value.
  destruct (d <? 10) eqn:E.
  - apply N.ltb_lt in E.
    replace ((48 <=? 48 + d) && (48 + d <=? 57)) with true.
    + f_equal. lia.
    + symmetry. apply andb_true_iff. split; apply N.leb_le; lia.
  - apply N.ltb_ge in E.
    replace ((48 <=? 87 + d) && (87 + d <=? 57)) with false.
    + replace ((97 <=? 87 + d) && (87 + d <=? 102)) with true.
      * f_equal. lia.
      * symmetry. apply andb_true_iff. split; apply N.leb_le; lia.
    + symmetry. apply andb_false_iff. right. apply N.leb_gt. lia.
Qed.

Lemma hex_value_high (b : N) : b < 256 -> hex_value (hex_digit (b / 16)) = Some (b / 16).
Proof.
  intros Hb. apply hex_value_hex_digit.
  apply N.Div0.div_lt_upper_bound. lia.
Qed.

Lemma hex_value_low (b : N) : hex_value (hex_digit (b mod 16)) = Some (b mod 16).
Proof. apply hex_value_hex_digit. apply N.mod_lt. lia. Qed.

(** Reading back the hex text of four bytes gives the big-endian word. *)
Lemma parseInt16_toHex_4 (b0 b1 b2 b3 : N) :
  b0 < 256 -> b1 < 256 -> b2 < 256 -> b3 < 256 ->
  parseInt16 (toHex [b0; b1; b2; b3]) = Some (Spec.uint_be [b0; b1; b2; b3]).
Proof.
  intros H0 H1 H2 H3.
  unfold parseInt16, toHex, hex_of_byte.
  cbn [flat_map app parse_hex_digits].
  rewrite !hex_value_high, !hex_value_low by assumption.
  f_equal. unfold Spec.uint_be. cbn [fold_left].
  pose proof (N.div_mod' b0 16). pose proof (N.div_mod' b1 16).
  pose proof (N.div_mod' b2 16). pose proof (N.div_mod' b3 16).
  lia.
Qed.

Lemma substring_toHex_8 (b0 b1 b2 b3 : N) (rest : list N) :
  substring (toHex (b0 :: b1 :: b2 :: b3 :: rest)) 0 8 = toHex [b0; b1; b2; b3].
Proof. reflexivity. Qed.

Lemma byte_lt (x : N) : x mod 256 < 256.
Proof. apply N.mod_lt. lia. Qed.

Lemma uint_be_4_lt (b0 b1 b2 b3 : N) :
  b0 < 256 -> b1 < 256 -> b2 < 256 -> b3 < 256 ->
  Spec.uint_be [b0; b1; b2; b3] < 2 ^ 32.
Proof.
  intros. unfold Spec.uint_be. cbn [fold_left].
  change (2 ^ 32) with 4294967296. lia.
Qed.

Lemma digest_length (msg : list N) : List.length (SHA256.digest msg) = 32%nat.
Proof. reflexivity. Qed.

Lemma side_of_hashInt_parity (v : N) :
  side_of_hashInt (Some v) = Spec.side_of_parity v.
Proof.
  unfold side_of_hashInt, Spec.side_of_parity.
  rewrite <- N.bit0_mod, N.bit0_odd, <- N.negb_even.
  destruct (N.even v); reflexivity.
Qed.

(** The text of a nonce is the decimal numeral of that nonce. *)
Lemma digits_of_uint_acc (d : Decimal.uint) (p : positive) :
  fold_left Spec.digit_step (lit (NilEmpty.string_of_uint d)) (N.pos p)
  = N.pos (Pos.of_uint_acc d p).
Proof.
  revert p. induction d; intros p; cbn [NilEmpty.string_of_uint Pos.of_uint_acc];
    [reflexivity | ..];
    (etransitivity; [|apply IHd]); unfold lit; cbn [list_ascii_of_string map fold_left];
    f_equal; unfold Spec.digit_step; cbn [N_of_ascii N_of_digits]; lia.
Qed.

Lemma digits_of_uint (d : Decimal.uint) :
  fold_left Spec.digit_step (lit (NilEmpty.string_of_uint d)) 0 = Pos.of_uint d.
Proof.
  induction d; cbn [NilEmpty.string_of_uint Pos.of_uint]; [reflexivity | ..];
    unfold lit; cbn [list_ascii_of_string map fold_left];
    try (etransitivity; [|apply digits_of_uint_acc]);
    try (etransitivity; [|apply IHd]);
    f_equal.
Qed.

Lemma numberToString_decimal (n : N) :
  Spec.decimal_value (numberToString n) = n.
Proof.
  unfold Spec.decimal_value, numberToString, NilZero.string_of_uint.
  rewrite <- (DecimalN.Unsigned.of_to n) at 2.
  destruct (N.to_uint n) eqn:E; try apply digits_of_uint.
  reflexivity.
Qed.

(** ** Fairness engine *)

(** The first four digest bytes, spelled out. *)
Lemma digest_head (msg : list N) :
  exists b0 b1 b2 b3 rest,
    SHA256.digest msg = b0 :: b1 :: b2 :: b3 :: rest /\
    b0 < 256 /\ b1 < 256 /\ b2 < 256 /\ b3 < 256.
Proof.
  unfold SHA256.digest, SHA256.digest_of_state, SHA256.bytes_of_word.
  cbn [app].
  do 5 eexists. split; [reflexivity|].
  repeat split; apply byte_lt.
Qed.

(** C1. For server seed [s], client seed [c] and a nonce [n] that is a
    safe integer, [generateResult] returns as hash the hex text of the
    SHA-256 digest of [s:c:n], where the text of the nonce is its decimal
    numeral; the first eight hex characters read back as the unsigned
    32-bit integer of the first four digest bytes, and the side is heads
    exactly when that integer is even, tails exactly when it is odd. *)
Theorem generateResult_hash_and_parity (s c : jsstring) (n : N) :
  n <= MAX_SAFE_INTEGER ->
  let r := generateResult s c n in
  hash r = toHex (SHA256.digest (utf8_encode
             (s ++ lit ":" ++ c ++ lit ":" ++ numberToString n))) /\
  Spec.decimal_value (numberToString n) = n /\
  List.length (hash r) = 64%nat /\
  parseInt16 (substring (hash r) 0 8) = Some (Spec.uint32 s c n) /\
  Spec.uint32 s c n < 2 ^ 32 /\
  (result r = heads <-> N.even (Spec.uint32 s c n) = true) /\
  (result r = tails <-> N.odd (Spec.uint32 s c n) = true).
Proof.
  intros _ r.
  assert (Hhash : hash r = toHex (Spec.digest s c n)) by reflexivity.
  destruct (digest_head (utf8_encode (Spec.combined s c n)))
    as (b0 & b1 & b2 & b3 & rest & Hd & H0 & H1 & H2 & H3).
  assert (Hu : Spec.uint32 s c n = Spec.uint_be [b0; b1; b2; b3]).
  { unfold Spec.uint32, Spec.digest. rewrite Hd. reflexivity. }
  assert (Hp : parseInt16 (substring (hash r) 0 8) = Some (Spec.uint32 s c n)).
  { rewrite Hhash. unfold Spec.digest. rewrite Hd, substring_toHex_8, Hu.
    now apply parseInt16_toHex_4. }
  assert (Hr : result r = Spec.side_of_parity (Spec.uint32 s c n)).
  { change (result r) with (side_of_hashInt (parseInt16 (substring (hash r) 0 8))).
    rewrite Hp. apply side_of_hashInt_parity. }
  split; [exact Hhash|].
  split; [apply numberToString_decimal|].
  split; [reflexivity|].
  split; [exact Hp|].
  split; [rewrite Hu; now apply uint_be_4_lt|].
  rewrite Hr. unfold Spec.side_of_parity.
  rewrite <- N.negb_even.
  destruct (N.even (Spec.uint32 s c n)); simpl; split; split;
    congruence.
Qed.

Lemma generateResult_hash_and_parity_witness :
  let r := generateResult (lit "s") (lit "c") 7 in
  hash r = toHex (SHA256.digest (utf8_encode
             (lit "s" ++ lit ":" ++ lit "c" ++ lit ":" ++ numberToString 7))) /\
  Spec.decimal_value (numberToString 7) = 7 /\
  List.length (hash r) = 64%nat /\
  parseInt16 (substring (hash r) 0 8) = Some (Spec.uint32 (lit "s") (lit "c") 7) /\
  Spec.uint32 (lit "s") (lit "c") 7 < 2 ^ 32 /\
  (result r = heads <-> N.even (Spec.uint32 (lit "s") (lit "c") 7) = true) /\
  (result r = tails <-> N.odd (Spec.uint32 (lit "s") (lit "c") 7) = true).
Proof.
  apply (generateResult_hash_and_parity (lit "s") (lit "c") 7).
  vm_compute. discriminate.
Defined.

(** ** Seeds and hashes as texts *)

Lemma hex_digit_lower (d : N) : d < 16 -> is_lower_hex (hex_digit d) = true.
Proof.
  intros Hd. unfold is_lower_hex, hex_digit.
  destruct (d <? 10) eqn:E;
    [apply N.ltb_lt in E | apply N.ltb_ge in E];
    apply orb_true_iff; [left | right];
    apply andb_true_iff; split; apply N.leb_le; lia.
Qed.

Lemma toHex_length (bytes : list N) :
  List.length (toHex bytes) = (2 * List.length bytes)%nat.
Proof.
  unfold toHex. induction bytes as [|b bytes IH];
    cbn [flat_map hex_of_byte app List.length]; lia.
Qed.

Lemma toHex_lower (bytes : list N) :
  Forall (fun b => b < 256) bytes -> forallb is_lower_hex (toHex bytes) = true.
Proof.
  unfold toHex. induction 1 as [|b bytes Hb _ IH]; [reflexivity|].
  cbn [flat_map hex_of_byte app forallb].
  rewrite !hex_digit_lower, IH; [reflexivity | |].
  - apply N.mod_lt. lia.
  - apply N.Div0.div_lt_upper_bound. lia.
Qed.

Lemma hex_of_byte_inj (a b : N) :
  a < 256 -> b < 256 -> hex_of_byte a = hex_of_byte b -> a = b.
Proof.
  intros Ha Hb H. unfold hex_of_byte in H. injection H as Hhi Hlo.
  apply (f_equal hex_value) in Hhi, Hlo.
  rewrite !hex_value_high in Hhi by assumption.
  rewrite !hex_value_low in Hlo.
  injection Hhi as Hhi. injection Hlo as Hlo.
  rewrite (N.div_mod' a 16), (N.div_mod' b 16). congruence.
Qed.

Lemma toHex_inj (bs bs' : list N) :
  Forall (fun b => b < 256) bs -> Forall (fun b => b < 256) bs' ->
  toHex bs = toHex bs' -> bs = bs'.
Proof.
  intros H. revert bs'.
  induction H as [|a bs Ha _ IH]; intros bs' H' E;
    destruct H' as [|b bs' Hb Hbs']; try reflexivity; try discriminate.
  unfold toHex in E. cbn [flat_map hex_of_byte app] in E.
  injection E as Ehi Elo E.
  f_equal.
  - apply hex_of_byte_inj; try assumption. unfold hex_of_byte. congruence.
  - now apply IH.
Qed.

Lemma digest_bytes (msg : list N) :
  Forall (fun b => b < 256) (SHA256.digest msg).
Proof.
  unfold SHA256.digest, SHA256.digest_of_state, SHA256.bytes_of_word.
  cbn [app]. repeat constructor; apply byte_lt.
Qed.

Lemma utf8_encode_ascii (s : jsstring) :
  Forall (fun u => u < 128) s -> utf8_encode s = s.
Proof.
  induction 1 as [|u s Hu _ IH]; [reflexivity|].
  cbn [utf8_encode].
  replace (is_high_surrogate u) with false
    by (symmetry; apply andb_false_iff; left; apply N.leb_gt; lia).
  replace (is_low_surrogate u) with false
    by (symmetry; apply andb_false_iff; left; apply N.leb_gt; lia).
  unfold utf8_of_code_point.
  replace (u <? 128) with true by (symmetry; now apply N.ltb_lt).
  cbn [app]. now rewrite IH.
Qed.

Lemma lower_hex_bounds (s : jsstring) :
  forallb is_lower_hex s = true -> Forall (fun u => u < 128 /\ u <> 58) s.
Proof.
  intros H. apply Forall_forall. intros u Hu.
  rewrite forallb_forall in H. specialize (H u Hu).
  unfold is_lower_hex in H.
  apply orb_true_iff in H as [H|H]; apply andb_true_iff in H as [H1 H2];
    apply N.leb_le in H1, H2; lia.
Qed.

(** The numeral of a nonce holds decimal digits only. *)
Lemma uint_digits (d : Decimal.uint) :
  Forall (fun u => u < 128) (lit (NilEmpty.string_of_uint d)).
Proof.
  induction d; cbn [NilEmpty.string_of_uint]; unfold lit;
    cbn [list_ascii_of_string map]; constructor;
    solve [ vm_compute; reflexivity | exact IHd ].
Qed.

Lemma numberToString_ascii (n : N) :
  Forall (fun u => u < 128) (numberToString n).
Proof.
  unfold numberToString, NilZero.string_of_uint.
  destruct (N.to_uint n); try apply uint_digits.
  repeat constructor.
Qed.

Lemma numberToString_inj (n n' : N) :
  numberToString n = numberToString n' -> n = n'.
Proof.
  intros H. rewrite <- (numberToString_decimal n), <- (numberToString_decimal n').
  now rewrite H.
Qed.

(** A text is cut at its first colon in one way only. *)
Lemma cut_at_colon (a a' rest rest' : jsstring) :
  Forall (fun u => u < 128 /\ u <> 58) a ->
  Forall (fun u => u < 128 /\ u <> 58) a' ->
  a ++ 58 :: rest = a' ++ 58 :: rest' -> a = a' /\ rest = rest'.
Proof.
  intros Ha. revert a'.
  induction Ha as [|u a [_ Hu] _ IH]; intros a' Ha' E;
    destruct Ha' as [|u' a' [_ Hu'] Ha']; cbn [app] in E.
  - injection E as E. now split.
  - injection E as E _. congruence.
  - injection E as E _. congruence.
  - injection E as -> E. destruct (IH a' Ha' E) as [-> ->]. now split.
Qed.

(** The text [generateResult] hashes. *)
Lemma generateResult_hash (s c : jsstring) (n : N) :
  hash (generateResult s c n)
  = toHex (SHA256.digest (utf8_encode (s ++ 58 :: c ++ 58 :: numberToString n))).
Proof. reflexivity. Qed.

Lemma combined_ascii (s c : jsstring) (n : N) :
  forallb is_lower_hex s = true -> forallb is_lower_hex c = true ->
  Forall (fun u => u < 128) (s ++ 58 :: c ++ 58 :: numberToString n).
Proof.
  intros Hs Hc.
  apply lower_hex_bounds in Hs, Hc.
  apply Forall_app. split.
  - eapply Forall_impl; [|exact Hs]. now intros u [Hu _].
  - constructor; [lia|]. apply Forall_app. split.
    + eapply Forall_impl; [|exact Hc]. now intros u [Hu _].
    + constructor; [lia | apply numberToString_ascii].
Qed.


(** [verifyResult] returns, and says yes exactly when both texts agree. *)
Lemma verifyResult_returns (s c : jsstring) (n : N) (h side : jsstring) :
  verifyResult s c n h side =
  Returns (streq (hash (generateResult s c n)) h
           && streq (side_text (result (generateResult s c n))) side).
Proof. reflexivity. Qed.

Lemma verifyResult_true_iff (s c : jsstring) (n : N) (h side : jsstring) :
  verifyResult s c n h side = Returns true <->
  h = hash (generateResult s c n) /\
  side = side_text (result (generateResult s c n)).
Proof.
  rewrite verifyResult_returns. split.
  - intros H.
    assert (H' : streq (hash (generateResult s c n)) h
                 && streq (side_text (result (generateResult s c n))) side = true)
      by congruence.
    apply andb_true_iff in H' as [H1 H2].
    apply streq_eq in H1, H2. now split.
  - intros [-> ->]. now rewrite !streq_refl.
Qed.

(** The side is a function of the hash alone. *)
Lemma result_of_hash (s c s' c' : jsstring) (n n' : N) :
  hash (generateResult s' c' n') = hash (generateResult s c n) ->
  result (generateResult s' c' n') = result (generateResult s c n).
Proof.
  intros H.
  change (side_of_hashInt (parseInt16 (substring (hash (generateResult s' c' n')) 0 8))
          = side_of_hashInt (parseInt16 (substring (hash (generateResult s c n)) 0 8))).
  now rewrite H.
Qed.

(** *** What altering one value does to the hashed text *)

Lemma ascii_bounds (s : jsstring) :
  forallb is_ascii s = true -> Forall (fun u => u < 128) s.
Proof.
  intros H. apply Forall_forall. intros u Hu.
  rewrite forallb_forall in H. specialize (H u Hu).
  now apply N.ltb_lt in H.
Qed.

Lemma combined_text (s c : jsstring) (n : N) :
  Spec.combined s c n = s ++ 58 :: c ++ 58 :: numberToString n.
Proof. reflexivity. Qed.

(** The bytes hashed for seeds of ASCII characters are the characters
    of the combined text. *)
Lemma combined_bytes (s c : jsstring) (n : N) :
  forallb is_ascii s = true -> forallb is_ascii c = true ->
  utf8_encode (Spec.combined s c n) = Spec.combined s c n.
Proof.
  intros Hs Hc. apply utf8_encode_ascii. rewrite combined_text.
  apply Forall_app. split; [now apply ascii_bounds|].
  constructor; [lia|]. apply Forall_app. split; [now apply ascii_bounds|].
  constructor; [lia | apply numberToString_ascii].
Qed.

(** Altering one of server seed, client seed and nonce alters the
    combined text; so does altering several of them when the seeds hold
    hexadecimal digits only. *)
Lemma combined_altered (s c s' c' : jsstring) (n n' : N) :
  (s', c', n') <> (s, c, n) ->
  (s' = s /\ c' = c) \/ (s' = s /\ n' = n) \/ (c' = c /\ n' = n) \/
  (forallb is_lower_hex s = true /\ forallb is_lower_hex c = true /\
   forallb is_lower_hex s' = true /\ forallb is_lower_hex c' = true) ->
  Spec.combined s' c' n' <> Spec.combined s c n.
Proof.
  intros Hne Hcase E. apply Hne. rewrite !combined_text in E.
  destruct Hcase as [[-> ->] | [[-> ->] | [[-> ->] | (Hs & Hc & Hs' & Hc')]]].
  - apply app_inv_head in E. injection E as E.
    apply app_inv_head in E. injection E as E.
    apply numberToString_inj in E. now subst.
  - apply app_inv_head in E. injection E as E.
    change (c' ++ 58 :: numberToString n) with (c' ++ [58] ++ numberToString n) in E.
    change (c ++ 58 :: numberToString n) with (c ++ [58] ++ numberToString n) in E.
    rewrite !app_assoc in E. apply app_inv_tail in E. apply app_inv_tail in E.
    now subst.
  - apply app_inv_tail in E. now subst.
  - apply cut_at_colon in E as [-> E]; try now apply lower_hex_bounds.
    apply cut_at_colon in E as [-> E]; try now apply lower_hex_bounds.
    apply numberToString_inj in E. now subst.
Qed.

Lemma lower_hex_ascii (s : jsstring) :
  forallb is_lower_hex s = true -> forallb is_ascii s = true.
Proof.
  intros H. apply forallb_forall. intros u Hu. apply N.ltb_lt.
  apply lower_hex_bounds in H. rewrite Forall_forall in H.
  now destruct (H u Hu).
Qed.

(** Two flips have the same hash exactly when their combined texts have
    the same digest. *)
Lemma hash_eq_iff_digest (s c s' c' : jsstring) (n n' : N) :
  hash (generateResult s' c' n') = hash (generateResult s c n) <->
  Spec.digest s' c' n' = Spec.digest s c n.
Proof.
  rewrite !generateResult_hash. unfold Spec.digest. rewrite !combined_text.
  split; [|now intros ->].
  intros E. apply toHex_inj in E; [exact E | apply digest_bytes | apply digest_bytes].
Qed.




(** *** Any five values *)

Lemma verifyResultOf_thrown (sv cv nv hv rv : JSValue) (e : Exn) :
  combinedInputOf sv cv nv = Throws e ->
  verifyResultOf sv cv nv hv rv = Returns false.
Proof.
  intros H. unfold verifyResultOf, generateResultOf. now rewrite H.
Qed.

Lemma verifyResultOf_converted (sv cv nv hv rv : JSValue) (text : jsstring) :
  combinedInputOf sv cv nv = Returns text ->
  verifyResultOf sv cv nv hv rv
  = Returns (strictEqualsString (sha256_hex text) hv
             && strictEqualsString
                  (side_text (side_of_hashInt
                                (parseInt16 (substring (sha256_hex text) 0 8))))
                  rv).
Proof.
  intros H. unfold verifyResultOf, generateResultOf. now rewrite H.
Qed.

Lemma strictEqualsString_true (x : jsstring) (v : JSValue) :
  strictEqualsString x v = true <-> v = JSString x.
Proof.
  destruct v; cbn [strictEqualsString]; try (split; discriminate).
  rewrite streq_eq. split; [now intros -> | now intros [= ->]].
Qed.

(** C9, as stated, fails: seeds are hashed as they are, so a seed that
    is no hexadecimal text, with the hash and the side of its own flip,
    is answered with true; so are [undefined] for the client seed and
    [null] for the nonce. *)
Lemma verifyResult_accepts_malformed_seed :
  forallb is_lower_hex (lit "not-a-seed") = false /\
  verifyResult (lit "not-a-seed") (lit "??") 1
    (lit "d9efd019219c9f6f198404bc7af5e0dd658698165e9585318d49309eebb9bd2c")
    (lit "tails") = Returns true /\
  verifyResultOf (JSString (lit "not-a-seed")) JSUndefined JSNull
    (JSString (lit "5be4781d58d1c097f37562d727035422616b89cb9a0a27c18b3ac1a3fda8641f"))
    (JSString (lit "tails")) = Returns true.
Proof. vm_compute. repeat split. Qed.

(** C9, amended. Whatever five values [verifyResult] is given, it
    returns a boolean and does not throw. The answer is false when the
    conversion of a seed or of the nonce to text throws (the handler
    catches it), when the expected hash or the expected side is not a
    string, when the expected side is neither heads nor tails, and on
    any mismatch of the hash or the side; it is true exactly when the
    expected hash and side are the strings recomputed from the texts of
    the seeds and the nonce, whether these are well formed or not. On
    string seeds, a numeric nonce and string expectations this is
    [verifyResult] as typed. *)
Theorem verifyResult_total :
  (forall sv cv nv hv rv : JSValue,
     exists b : bool,
       verifyResultOf sv cv nv hv rv = Returns b /\
       ((exists e, templateString sv = Throws e \/ templateString cv = Throws e
                   \/ templateString nv = Throws e) -> b = false) /\
       (forall text, combinedInputOf sv cv nv = Returns text ->
          (b = true <->
           hv = JSString (sha256_hex text) /\
           rv = JSString (side_text (side_of_hashInt
                            (parseInt16 (substring (sha256_hex text) 0 8)))))) /\
       ((forall h, hv <> JSString h) -> b = false) /\
       (rv <> JSString (lit "heads") -> rv <> JSString (lit "tails") -> b = false)) /\
  (forall (s c : jsstring) (n : N) (h side : jsstring),
     verifyResultOf (JSString s) (JSString c) (JSNumber n) (JSString h) (JSString side)
     = verifyResult s c n h side /\
     exists b : bool,
       verifyResult s c n h side = Returns b /\
       (b = true <->
        h = hash (generateResult s c n) /\
        side = side_text (result (generateResult s c n)))).
Proof.
  split.
  - intros sv cv nv hv rv.
    destruct (combinedInputOf sv cv nv) as [text|e] eqn:Hc.
    + eexists. split; [exact (verifyResultOf_converted _ _ _ hv rv _ Hc)|].
      split; [|split; [|split]].
      * intros (e & He). unfold combinedInputOf in Hc.
        destruct (templateString sv); [|discriminate].
        destruct (templateString cv); [|discriminate].
        destruct (templateString nv); [|discriminate].
        destruct He as [He|[He|He]]; discriminate.
      * intros text' [= <-].
        rewrite andb_true_iff, !strictEqualsString_true. reflexivity.
      * intros Hh. apply andb_false_iff. left.
        destruct hv; try reflexivity. now elim (Hh s).
      * intros Hh Ht. apply andb_false_iff. right.
        destruct (strictEqualsString _ rv) eqn:E; [|reflexivity].
        apply strictEqualsString_true in E.
        destruct (side_of_hashInt _); cbn [side_text] in E; contradiction.
    + exists false. split; [exact (verifyResultOf_thrown _ _ _ hv rv e Hc)|].
      split; [reflexivity|]. split; [discriminate|]. split; reflexivity.
  - intros s c n h side. split; [reflexivity|].
    eexists. split; [apply verifyResult_returns|].
    rewrite <- verifyResult_true_iff, verifyResult_returns. split; congruence.
Qed.

Lemma verifyResult_total_witness :
  verifyResultOf JSSymbol (JSString (lit "c1")) (JSNumber 1)
    (JSString (lit "5e")) (JSString (lit "heads")) = Returns false /\
  verifyResultOf (JSString (lit "5e")) (JSString (lit "c1"))
    (JSOther (Throws (Error (lit "toString failed"))))
    (JSString (lit "5e")) (JSString (lit "heads")) = Returns false /\
  verifyResultOf (JSString (lit "5e")) (JSString (lit "c1")) (JSNumber 1)
    (JSNumber 7) JSNull = Returns false.
Proof.
  destruct verifyResult_total as [H _].
  split; [|split].
  - destruct (H JSSymbol (JSString (lit "c1")) (JSNumber 1)
                (JSString (lit "5e")) (JSString (lit "heads")))
      as (b & E & Hthrow & _).
    rewrite E. f_equal. apply Hthrow. eexists. left. reflexivity.
  - destruct (H (JSString (lit "5e")) (JSString (lit "c1"))
                (JSOther (Throws (Error (lit "toString failed"))))
                (JSString (lit "5e")) (JSString (lit "heads")))
      as (b & E & Hthrow & _).
    rewrite E. f_equal. apply Hthrow. eexists. right. right. reflexivity.
  - destruct (H (JSString (lit "5e")) (JSString (lit "c1")) (JSNumber 1)
                (JSNumber 7) JSNull)
      as (b & E & _ & _ & Hh & _).
    rewrite E. f_equal. apply Hh. intros h. discriminate.
Defined.
(** ** What the generators and the hash give *)

(** Both seed generators return two lower-case hexadecimal digits per
    byte drawn, so 64 characters for the 32 bytes of a server seed and
    32 characters for the 16 bytes of a client seed. *)
Theorem generated_seeds_are_lower_hex (bytes : list N) :
  Forall (fun b => b < 256) bytes ->
  List.length (generateServerSeed bytes) = (2 * List.length bytes)%nat /\
  forallb is_lower_hex (generateServerSeed bytes) = true /\
  List.length (generateClientSeed bytes) = (2 * List.length bytes)%nat /\
  forallb is_lower_hex (generateClientSeed bytes) = true.
Proof.
  intros H. unfold generateServerSeed, generateClientSeed.
  repeat split; first [apply toHex_length | now apply toHex_lower].
Qed.

Lemma generated_seeds_are_lower_hex_witness :
  List.length (generateServerSeed [0; 171; 255]) = 6%nat /\
  forallb is_lower_hex (generateServerSeed [0; 171; 255]) = true /\
  List.length (generateClientSeed [0; 171; 255]) = 6%nat /\
  forallb is_lower_hex (generateClientSeed [0; 171; 255]) = true.
Proof.
  apply (generated_seeds_are_lower_hex [0; 171; 255]).
  repeat constructor.
Defined.

(** Different random bytes give different seeds: the hexadecimal text
    of a seed determines the bytes it was made from. *)
Theorem generated_seeds_keep_the_bytes (bytes bytes' : list N) :
  Forall (fun b => b < 256) bytes -> Forall (fun b => b < 256) bytes' ->
  generateServerSeed bytes = generateServerSeed bytes' \/
  generateClientSeed bytes = generateClientSeed bytes' ->
  bytes = bytes'.
Proof.
  intros H H' [E|E]; now apply toHex_inj.
Qed.

Lemma generated_seeds_keep_the_bytes_witness : [18; 52] = [18; 52].
Proof.
  apply (generated_seeds_keep_the_bytes [18; 52] [18; 52]).
  - repeat constructor.
  - repeat constructor.
  - left. reflexivity.
Defined.

(** The hash of a server seed and the hash of a flip are 64 lower-case
    hexadecimal digits, whatever the seeds and the nonce. *)
Theorem hashes_are_64_lower_hex (s c : jsstring) (n : N) :
  List.length (hashServerSeed s) = 64%nat /\
  forallb is_lower_hex (hashServerSeed s) = true /\
  List.length (hash (generateResult s c n)) = 64%nat /\
  forallb is_lower_hex (hash (generateResult s c n)) = true.
Proof.
  rewrite generateResult_hash. unfold hashServerSeed, sha256_hex.
  rewrite !toHex_length, !digest_length.
  repeat split; apply toHex_lower, digest_bytes.
Qed.

(** For seeds made of lower-case hexadecimal digits, as the generators
    make them, the hash of a flip binds the seeds and the nonce: two
    flips that differ in a seed or in the nonce hash different bytes,
    and their hashes are equal only if SHA-256 gives these two byte
    strings the same digest. *)
Theorem generateResult_binds_hex_seeds (s c s' c' : jsstring) (n n' : N) :
  forallb is_lower_hex s = true -> forallb is_lower_hex c = true ->
  forallb is_lower_hex s' = true -> forallb is_lower_hex c' = true ->
  (s', c', n') <> (s, c, n) ->
  utf8_encode (Spec.combined s' c' n') <> utf8_encode (Spec.combined s c n) /\
  (hash (generateResult s' c' n') = hash (generateResult s c n) <->
   SHA256.digest (utf8_encode (Spec.combined s' c' n'))
   = SHA256.digest (utf8_encode (Spec.combined s c n))).
Proof.
  intros Hs Hc Hs' Hc' Hne. split.
  - rewrite !combined_bytes by now apply lower_hex_ascii.
    apply combined_altered; [exact Hne|]. right. right. right. auto.
  - apply hash_eq_iff_digest.
Qed.

Lemma generateResult_binds_hex_seeds_witness :
  utf8_encode (Spec.combined (lit "ab") (lit "0f") 4)
  <> utf8_encode (Spec.combined (lit "ab") (lit "0f") 3) /\
  hash (generateResult (lit "ac") (lit "0f") 3)
  <> hash (generateResult (lit "ab") (lit "0f") 3).
Proof.
  split.
  - apply (generateResult_binds_hex_seeds (lit "ab") (lit "0f") (lit "ab")
             (lit "0f") 3 4); try reflexivity.
    vm_compute. discriminate.
  - intros E.
    apply (generateResult_binds_hex_seeds (lit "ab") (lit "0f") (lit "ac")
             (lit "0f") 3 3) in E; try reflexivity.
    + vm_compute in E. discriminate.
    + vm_compute. discriminate.
Defined.

(** A colon inside a seed is not told from the separator: moving the
    cut between the server seed and the client seed leaves the hash and
    the result as they are, and [verifyResult] accepts the one for the
    other. *)
Theorem generateResult_colon_in_seed (a b c : jsstring) (n : N) :
  let shifted := generateResult a (b ++ lit ":" ++ c) n in
  hash (generateResult (a ++ lit ":" ++ b) c n) = hash shifted /\
  result (generateResult (a ++ lit ":" ++ b) c n) = result shifted /\
  verifyResult (a ++ lit ":" ++ b) c n (hash shifted)
               (side_text (result shifted)) = Returns true.
Proof.
  intros shifted. subst shifted.
  assert (E : hash (generateResult (a ++ lit ":" ++ b) c n)
              = hash (generateResult a (b ++ lit ":" ++ c) n)).
  { rewrite !generateResult_hash. change (lit ":") with [58].
    now rewrite <- !app_assoc. }
  pose proof (result_of_hash _ _ _ _ _ _ E) as R.
  split; [exact E|]. split; [exact R|].
  apply verifyResult_true_iff. now rewrite E, R.
Qed.

(** ** Room codes *)

Lemma charAt_chars (i : N) :
  i < 36 -> exists u, charAt chars i = [u] /\ is_code_char u = true.
Proof.
  intros Hi. unfold charAt.
  assert (Hk : (N.to_nat i < 36)%nat) by lia.
  destruct (N.to_nat i) as [|k]; [eexists; split; reflexivity|].
  do 35 (destruct k as [|k]; [eexists; split; reflexivity|]).
  lia.
Qed.

(** When every draw is an index into the 36 characters, as
    [Math.floor(Math.random() * chars.length)] is, a room code is six
    characters, each a capital letter or a digit. *)
Theorem generateRoomCode_format (env : Env) (attempt : nat) :
  (forall i, (i < 6)%nat -> random_index env (6 * attempt + i) < 36) ->
  List.length (generateRoomCode env attempt) = 6%nat /\
  forallb is_code_char (generateRoomCode env attempt) = true.
Proof.
  intros H. unfold generateRoomCode. cbn [seq flat_map].
  destruct (charAt_chars _ (H 0%nat ltac:(lia))) as (u0 & -> & H0).
  destruct (charAt_chars _ (H 1%nat ltac:(lia))) as (u1 & -> & H1).
  destruct (charAt_chars _ (H 2%nat ltac:(lia))) as (u2 & -> & H2).
  destruct (charAt_chars _ (H 3%nat ltac:(lia))) as (u3 & -> & H3).
  destruct (charAt_chars _ (H 4%nat ltac:(lia))) as (u4 & -> & H4).
  destruct (charAt_chars _ (H 5%nat ltac:(lia))) as (u5 & -> & H5).
  cbn [app List.length forallb].
  now rewrite H0, H1, H2, H3, H4, H5.
Qed.

Lemma generateRoomCode_format_witness :
  List.length (generateRoomCode Sample.env 2) = 6%nat /\
  forallb is_code_char (generateRoomCode Sample.env 2) = true.
Proof.
  apply (generateRoomCode_format Sample.env 2).
  intros i Hi. cbn [Sample.env random_index]. lia.
Defined.

(** ** The store *)

(** The state machine uses the fairness engine as a black box. *)
#[local] Opaque generateResult createVerificationData lit.

Lemma filter_andb {A : Type} (p q : A -> bool) (l : list A) :
  filter (fun x => p x && q x) l = filter q (filter p l).
Proof.
  induction l as [|x l IH]; simpl; [reflexivity|].
  destruct (p x); simpl; [destruct (q x)|]; now rewrite IH.
Qed.

Lemma filter_none {A : Type} (p : A -> bool) (l : list A) :
  (forall x, In x l -> p x = false) -> filter p l = [].
Proof.
  induction l as [|x l IH]; intros H; simpl; [reflexivity|].
  rewrite (H x (or_introl eq_refl)). apply IH. intros y Hy. apply H. now right.
Qed.

Lemma filter_all {A : Type} (p : A -> bool) (l : list A) :
  (forall x, In x l -> p x = true) -> filter p l = l.
Proof.
  induction l as [|x l IH]; intros H; simpl; [reflexivity|].
  rewrite (H x (or_introl eq_refl)). f_equal. apply IH. intros y Hy. apply H. now right.
Qed.

Lemma filter_map_patch (rid : Id) (f : Room -> Room) (l : list Room) :
  (forall r, room_id (f r) = room_id r) ->
  filter (fun r => room_id r =? rid)
         (map (fun r => if room_id r =? rid then f r else r) l)
  = map f (filter (fun r => room_id r =? rid) l).
Proof.
  intros Hf. induction l as [|x l IH]; simpl; [reflexivity|].
  destruct (room_id x =? rid) eqn:E; simpl.
  - rewrite Hf, E. simpl. now rewrite IH.
  - rewrite E. exact IH.
Qed.

Lemma side_eqb_eq (a b : CoinSide) : side_eqb a b = true <-> a = b.
Proof. destruct a, b; simpl; split; congruence. Qed.

Lemma status_eqb_eq (a b : RoomStatus) : status_eqb a b = true <-> a = b.
Proof. destruct a, b; simpl; split; congruence. Qed.

(** One case split on the scrutinee of an innermost [match]. *)
Ltac case_split H :=
  cbv beta iota in H;
  cbn [rooms players games next_id] in H;
  try rewrite filter_map_patch in H by reflexivity;
  match type of H with
  | context [match ?x with _ => _ end] =>
      lazymatch x with
      | context [match _ with _ => _ end] => fail
      | _ => destruct x eqn:?
      end
  end.

Ltac unfold_flip H :=
  unfold flipCoin, resetRoomForReplay, bind, ret, throw,
    DB.rooms_select_single, DB.rooms_update, DB.players_select,
    DB.games_insert, DB.single, DB.unreachable in H.

(** [flipCoin] that throws has at most reset the room. *)
Lemma flipCoin_throws_inv (env : Env) (roomId : Id) (db db' : Store) (e : Exn) :
  flipCoin env roomId db = (Throws e, db') ->
  db' = db \/
  db' = mkStore (map (fun r => if room_id r =? roomId then set_status full r else r)
                     (rooms db))
                (players db) (games db) (next_id db).
Proof.
  intros H. unfold_flip H.
  repeat case_split H;
    try discriminate.
  all: cbv beta iota in H; try discriminate.
  all: injection H as <- <-; auto.
Qed.

Lemma filter_singleton {A : Type} (p : A -> bool) (l : list A) (x : A) :
  filter p l = [x] -> In x l /\ p x = true.
Proof.
  intros H. apply filter_In. rewrite H. now left.
Qed.

Lemma map_singleton {A B : Type} (f : A -> B) (l : list A) (y : B) :
  map f l = [y] -> exists x, l = [x] /\ y = f x.
Proof.
  destruct l as [|x [|x' l]]; simpl; intros H; try discriminate.
  injection H as <-. now exists x.
Qed.

(** What a [flipCoin] that returns has done. *)
Lemma flipCoin_returns_inv (env : Env) (roomId : Id) (db db' : Store)
    (out : FlipOutcome) :
  flipCoin env roomId db = (Returns out, db') ->
  exists room cs u winnerPlayer,
    In room (rooms db) /\ room_id room = roomId /\
    (status room = full \/ status room = completed) /\
    room_client_seed room = Some (u :: cs) /\
    List.length (players_in db roomId) = 2%nat /\
    find (fun p => side_eqb (side p)
                     (result (generateResult (room_server_seed room) (u :: cs)
                                             (room_nonce room + 1))))
         (players_in db roomId) = Some winnerPlayer /\
    let fair := generateResult (room_server_seed room) (u :: cs) (room_nonce room + 1) in
    let game := mkGame (next_id db) roomId (result fair) (result fair)
                  (player_id winnerPlayer) (room_total_pot room)
                  (room_server_seed room) (u :: cs) (room_nonce room + 1)
                  (hash fair) true in
    out = mkFlipOutcome (result fair) (result fair) game
            (createVerificationData (room_server_seed room) (u :: cs)
                                    (room_nonce room + 1))
            winnerPlayer /\
    games db' = games db ++ [game] /\
    players db' = players db /\
    next_id db' = N.succ (next_id db).
Proof.
  intros H. unfold_flip H.
  repeat case_split H; try discriminate.
  all: cbv beta iota in H; try discriminate.
  all: injection H as <- <-.
  all: match goal with
       | Hf : filter (fun r => (room_id r =? _) && _) _ = [_] |- _ =>
           pose proof (filter_singleton _ _ _ Hf) as [Hin Hp];
           apply andb_true_iff in Hp as [Hid Hst];
           apply N.eqb_eq in Hid;
           apply orb_true_iff in Hst;
           rewrite !status_eqb_eq in Hst
       end.
  all: try match goal with
       | Hm : map (set_status full) _ = [_], Hr0 : In ?r _ |- _ =>
           apply map_singleton in Hm as (x & Hx & ->);
           assert (x = r) by
             (assert (Hr : In r [x]) by
                (rewrite <- Hx; apply filter_In; split;
                   [assumption | now apply N.eqb_eq]);
              destruct Hr as [Hr|[]]; exact Hr);
           subst x
       end.
  all: match goal with
       | Hc : room_client_seed _ = Some (?u :: ?cs),
         Hw : find _ _ = Some ?w, Hr0 : In ?r _ |- _ =>
           exists r, cs, u, w
       end.
  all: cbn [set_status room_client_seed room_server_seed room_nonce
            room_total_pot games players next_id] in *.
  all: repeat split; try assumption; try reflexivity.
  all: match goal with
       | Hl : negb (_ =? 2)%nat = false |- _ =>
           apply negb_false_iff, Nat.eqb_eq in Hl; exact Hl
       end.
Qed.

Lemma room_with_id_after_reset (roomId : Id) (db : Store) :
  room_with_id (after_reset roomId db) roomId
  = map (set_status full) (room_with_id db roomId).
Proof.
  unfold room_with_id, after_reset. cbn [rooms].
  now apply filter_map_patch.
Qed.

Lemma room_with_id_id (db : Store) (roomId : Id) (room : Room) :
  room_with_id db roomId = [room] -> room_id room = roomId.
Proof.
  intros H. apply filter_singleton in H as [_ H]. now apply N.eqb_eq.
Qed.

(** A flip in a room that is full. *)
Lemma flipCoin_full (env : Env) (roomId : Id) (db : Store) (room : Room)
    (seed : jsstring) (p1 p2 : Player) :
  served env FindRoom = true -> served env ListPlayers = true ->
  served env InsertGame = true -> served env MarkCompleted = true ->
  room_with_id db roomId = [room] ->
  status room = full ->
  room_client_seed room = Some seed -> seed <> [] ->
  players_in db roomId = [p1; p2] ->
  flipCoin env roomId db =
  match find (fun p => side_eqb (side p)
                         (result (generateResult (room_server_seed room) seed
                                                 (room_nonce room + 1))))
             [p1; p2] with
  | Some w =>
      (Returns (outcome_of_flip (next_id db) room seed w),
       after_flip roomId (room_nonce room + 1)
                  (game_of_flip (next_id db) room seed w) db)
  | None => (Throws (Error (lit "Unable to determine winner")), db)
  end.
Proof.
  intros S1 S2 S3 S4 Hroom Hst Hseed Hne Hpl.
  pose proof (room_with_id_id _ _ _ Hroom) as Hid.
  unfold flipCoin, bind, ret, throw, DB.rooms_select_single, DB.players_select,
    DB.games_insert, DB.rooms_update.
  rewrite S1, filter_andb.
  change (filter (fun r => room_id r =? roomId) (rooms db))
    with (room_with_id db roomId).
  rewrite Hroom. cbn [filter]. rewrite Hst. cbn [status_eqb orb DB.single].
  cbv beta iota. rewrite Hst. cbn [status_eqb]. cbv beta iota.
  rewrite Hseed. destruct seed as [|u cs]; [contradiction|].
  rewrite S2.
  change (filter (fun p => player_room_id p =? roomId) (players db))
    with (players_in db roomId).
  rewrite Hpl. cbn [List.length Nat.eqb negb].
  destruct (find _ [p1; p2]) as [w|]; [|reflexivity].
  rewrite S3, S4.
  unfold outcome_of_flip, game_of_flip, after_flip. rewrite Hid. reflexivity.
Qed.

(** A flip in a room that is completed. *)
Lemma flipCoin_completed (env : Env) (roomId : Id) (db : Store) (room : Room)
    (seed : jsstring) (p1 p2 : Player) :
  served env FindRoom = true -> served env ResetRoom = true ->
  served env RefetchRoom = true -> served env ListPlayers = true ->
  served env InsertGame = true -> served env MarkCompleted = true ->
  room_with_id db roomId = [room] ->
  status room = completed ->
  room_client_seed room = Some seed -> seed <> [] ->
  players_in db roomId = [p1; p2] ->
  flipCoin env roomId db =
  match find (fun p => side_eqb (side p)
                         (result (generateResult (room_server_seed room) seed
                                                 (room_nonce room + 1))))
             [p1; p2] with
  | Some w =>
      (Returns (outcome_of_flip (next_id db) (set_status full room) seed w),
       after_flip roomId (room_nonce room + 1)
                  (game_of_flip (next_id db) (set_status full room) seed w)
                  (after_reset roomId db))
  | None =>
      (Throws (Error (lit "Unable to determine winner")), after_reset roomId db)
  end.
Proof.
  intros S1 S2 S3 S4 S5 S6 Hroom Hst Hseed Hne Hpl.
  pose proof (room_with_id_id _ _ _ Hroom) as Hid.
  pose proof (room_with_id_after_reset roomId db) as Hreset.
  rewrite Hroom in Hreset. cbn [map] in Hreset.
  unfold flipCoin, resetRoomForReplay, bind, ret, throw,
    DB.rooms_select_single, DB.players_select, DB.games_insert, DB.rooms_update.
  rewrite S1, S2, S3, filter_andb.
  change (filter (fun r => room_id r =? roomId) (rooms db))
    with (room_with_id db roomId).
  rewrite Hroom. cbn [filter]. rewrite Hst. cbn [status_eqb orb DB.single].
  cbv beta iota. rewrite Hst. cbn [status_eqb]. cbv beta iota.
  fold (after_reset roomId db).
  change (filter (fun r => room_id r =? roomId) (rooms (after_reset roomId db)))
    with (room_with_id (after_reset roomId db) roomId).
  rewrite Hreset. cbn [DB.single set_status room_client_seed].
  rewrite Hseed. destruct seed as [|u cs]; [contradiction|].
  rewrite S4.
  change (filter (fun p => player_room_id p =? roomId)
                 (players (after_reset roomId db)))
    with (players_in db roomId).
  rewrite Hpl.
  cbn [List.length Nat.eqb negb set_status room_server_seed room_nonce].
  destruct (find _ [p1; p2]) as [w|]; [|reflexivity].
  rewrite S5, S6.
  unfold outcome_of_flip, game_of_flip, after_flip.
  cbn [set_status room_id room_server_seed room_nonce room_total_pot
       after_reset next_id rooms players games].
  rewrite Hid. reflexivity.
Qed.

(** A flip in a room that is completed, when the request that marks the
    room completed again is lost: the game is recorded and the room is
    left as the reset made it. *)
Lemma flipCoin_completed_unmarked (env : Env) (roomId : Id) (db : Store)
    (room : Room) (seed : jsstring) (p1 p2 : Player) :
  served env FindRoom = true -> served env ResetRoom = true ->
  served env RefetchRoom = true -> served env ListPlayers = true ->
  served env InsertGame = true -> served env MarkCompleted = false ->
  room_with_id db roomId = [room] ->
  status room = completed ->
  room_client_seed room = Some seed -> seed <> [] ->
  players_in db roomId = [p1; p2] ->
  flipCoin env roomId db =
  match find (fun p => side_eqb (side p)
                         (result (generateResult (room_server_seed room) seed
                                                 (room_nonce room + 1))))
             [p1; p2] with
  | Some w =>
      (Returns (outcome_of_flip (next_id db) (set_status full room) seed w),
       mkStore (rooms (after_reset roomId db)) (players db)
               (games db ++ [game_of_flip (next_id db) (set_status full room) seed w])
               (N.succ (next_id db)))
  | None =>
      (Throws (Error (lit "Unable to determine winner")), after_reset roomId db)
  end.
Proof.
  intros S1 S2 S3 S4 S5 S6 Hroom Hst Hseed Hne Hpl.
  pose proof (room_with_id_id _ _ _ Hroom) as Hid.
  pose proof (room_with_id_after_reset roomId db) as Hreset.
  rewrite Hroom in Hreset. cbn [map] in Hreset.
  unfold flipCoin, resetRoomForReplay, bind, ret, throw,
    DB.rooms_select_single, DB.players_select, DB.games_insert, DB.rooms_update.
  rewrite S1, S2, S3, filter_andb.
  change (filter (fun r => room_id r =? roomId) (rooms db))
    with (room_with_id db roomId).
  rewrite Hroom. cbn [filter]. rewrite Hst. cbn [status_eqb orb DB.single].
  cbv beta iota. rewrite Hst. cbn [status_eqb]. cbv beta iota.
  fold (after_reset roomId db).
  change (filter (fun r => room_id r =? roomId) (rooms (after_reset roomId db)))
    with (room_with_id (after_reset roomId db) roomId).
  rewrite Hreset. cbn [DB.single set_status room_client_seed].
  rewrite Hseed. destruct seed as [|u cs]; [contradiction|].
  rewrite S4.
  change (filter (fun p => player_room_id p =? roomId)
                 (players (after_reset roomId db)))
    with (players_in db roomId).
  rewrite Hpl.
  cbn [List.length Nat.eqb negb set_status room_server_seed room_nonce].
  destruct (find _ [p1; p2]) as [w|]; [|reflexivity].
  rewrite S5, S6.
  unfold outcome_of_flip, game_of_flip.
  cbn [set_status room_id room_server_seed room_nonce room_total_pot
       after_reset next_id rooms players games].
  rewrite Hid. reflexivity.
Qed.

(** A flip in a room that is completed, when the request that resets
    the room is lost: nothing is resolved and nothing is written. *)
Lemma flipCoin_completed_unreset (env : Env) (roomId : Id) (db : Store)
    (room : Room) :
  served env FindRoom = true -> served env ResetRoom = false ->
  room_with_id db roomId = [room] ->
  status room = completed ->
  flipCoin env roomId db =
  (Throws (Error (lit "Failed to reset room for replay: " ++ lit "fetch failed")),
   db).
Proof.
  intros S1 S2 Hroom Hst.
  unfold flipCoin, resetRoomForReplay, bind, ret, throw,
    DB.rooms_select_single, DB.rooms_update, DB.unreachable.
  rewrite S1, S2, filter_andb.
  change (filter (fun r => room_id r =? roomId) (rooms db))
    with (room_with_id db roomId).
  rewrite Hroom. cbn [filter]. rewrite Hst. cbn [status_eqb orb DB.single].
  cbv beta iota. rewrite Hst. cbn [status_eqb]. cbv beta iota.
  reflexivity.
Qed.

(** Why a [flipCoin] throws. *)
Lemma flipCoin_throws_reason (env : Env) (roomId : Id) (db db' : Store) (e : Exn) :
  flipCoin env roomId db = (Throws e, db') ->
  e = Error (lit "Room not found or not ready for game") \/
  (exists m, e = Error (lit "Failed to reset room for replay: " ++ m)) \/
  e = Error (lit "Client seed not set - room not ready for play") \/
  e = Error (lit "Invalid player count for game") \/
  e = Error (lit "Unable to determine winner") \/
  (exists m, e = Error (lit "Failed to create game: " ++ m)).
Proof.
  intros H. unfold_flip H.
  repeat case_split H; try discriminate.
  all: cbv beta iota in H; try discriminate.
  all: injection H as <- <-; eauto 10.
Qed.

(** Among two players of opposite sides one holds any given side. *)
Lemma find_side_opposite (p1 p2 : Player) (x : CoinSide) :
  side p2 = Spec.opposite (side p1) ->
  exists w, find (fun p => side_eqb (side p) x) [p1; p2] = Some w /\
            (w = p1 \/ w = p2) /\ side w = x.
Proof.
  intros H. cbn [find].
  destruct (side_eqb (side p1) x) eqn:E1.
  - exists p1. apply side_eqb_eq in E1. auto.
  - destruct (side_eqb (side p2) x) eqn:E2.
    + exists p2. apply side_eqb_eq in E2. auto.
    + rewrite H in E2. destruct (side p1), x; simpl in *; discriminate.
Qed.

Lemma find_side_none (p1 p2 : Player) (x : CoinSide) :
  side p1 <> x -> side p2 <> x ->
  find (fun p => side_eqb (side p) x) [p1; p2] = None.
Proof.
  intros H1 H2. cbn [find].
  destruct (side_eqb (side p1) x) eqn:E1; [apply side_eqb_eq in E1; contradiction|].
  destruct (side_eqb (side p2) x) eqn:E2; [apply side_eqb_eq in E2; contradiction|].
  reflexivity.
Qed.

(** ** flipCoin *)

(** C5. In a room whose status is waiting, [flipCoin] throws before
    anything is computed and leaves the store as it found it: no game is
    recorded, and the room keeps its status, nonce and seeds. *)
Theorem flipCoin_waiting_room_fails (env : Env) (roomId : Id) (db : Store)
    (room : Room) :
  room_with_id db roomId = [room] ->
  status room = waiting ->
  flipCoin env roomId db
  = (Throws (Error (lit "Room not found or not ready for game")), db).
Proof.
  intros Hroom Hst.
  unfold flipCoin, bind, throw, DB.rooms_select_single.
  rewrite filter_andb.
  change (filter (fun r => room_id r =? roomId) (rooms db))
    with (room_with_id db roomId).
  rewrite Hroom. cbn [filter]. rewrite Hst. cbn [status_eqb orb DB.single].
  destruct (served env FindRoom); reflexivity.
Qed.

Lemma flipCoin_waiting_room_fails_witness :
  flipCoin Sample.env 0 Sample.created
  = (Throws (Error (lit "Room not found or not ready for game")), Sample.created).
Proof.
  apply (flipCoin_waiting_room_fails Sample.env 0 Sample.created
           (mkRoom 0 (lit "ABCDEF") heads 10 20 waiting
                   (generateServerSeed (randomBytes Sample.env 32)) None 0)).
  - vm_compute. reflexivity.
  - reflexivity.
Defined.

(** C10. A [flipCoin] that throws has recorded no game: the games and
    the players are as before, and the store is either untouched or
    differs only in that the room was reset to full, which does happen on
    the replay path. *)
Theorem flipCoin_throw_records_no_game :
  (forall env roomId db e db',
     flipCoin env roomId db = (Throws e, db') ->
     games db' = games db /\ players db' = players db /\
     (db' = db \/ db' = after_reset roomId db) /\
     (e = Error (lit "Room not found or not ready for game") \/
      (exists m, e = Error (lit "Failed to reset room for replay: " ++ m)) \/
      e = Error (lit "Client seed not set - room not ready for play") \/
      e = Error (lit "Invalid player count for game") \/
      e = Error (lit "Unable to determine winner") \/
      (exists m, e = Error (lit "Failed to create game: " ++ m)))) /\
  (exists env roomId db e db' room,
     flipCoin env roomId db = (Throws e, db') /\
     room_with_id db roomId = [room] /\ status room = completed /\
     room_with_id db' roomId = [set_status full room]).
Proof.
  split.
  - intros env roomId db e db' H.
    pose proof (flipCoin_throws_reason _ _ _ _ _ H) as Hwhy.
    apply flipCoin_throws_inv in H.
    fold (after_reset roomId db) in H.
    destruct H as [-> | ->]; cbn [after_reset games players]; auto.
  - exists Sample.env, 0, Sample.joiner_left.
    eexists. eexists. eexists.
    split; [|split; [|split]].
    + vm_compute. reflexivity.
    + vm_compute. reflexivity.
    + reflexivity.
    + vm_compute. reflexivity.
Qed.

Lemma flipCoin_throw_records_no_game_witness :
  games (snd (flipCoin Sample.env 0 Sample.joiner_left)) = games Sample.joiner_left /\
  snd (flipCoin Sample.env 0 Sample.joiner_left) <> Sample.joiner_left.
Proof.
  destruct flipCoin_throw_records_no_game as [H _].
  split.
  - apply (H Sample.env 0 Sample.joiner_left
             (Error (lit "Invalid player count for game"))).
    vm_compute. reflexivity.
  - vm_compute. discriminate.
Defined.

(** C8. A [flipCoin] that returns has recorded one game whose winner
    side is its flip result; the winner it returns is a player of the
    room whose side is the result computed from the room's seeds and next
    nonce. With two players neither of whom holds the computed side
    [flipCoin] throws and records nothing. *)
Theorem flipCoin_winner_holds_result :
  (forall env roomId db out db',
     flipCoin env roomId db = (Returns out, db') ->
     games db' = games db ++ [out_game out] /\
     winner_side (out_game out) = flip_result (out_game out) /\
     flip_result (out_game out) = out_result out /\
     out_winner out = out_result out /\
     winner_player_id (out_game out) = player_id (out_winnerPlayer out) /\
     In (out_winnerPlayer out) (players_in db roomId) /\
     In (out_winnerPlayer out) (players db') /\
     side (out_winnerPlayer out) = out_result out /\
     exists room seed,
       In room (rooms db) /\ room_id room = roomId /\
       room_client_seed room = Some seed /\
       out_result out
       = result (generateResult (room_server_seed room) seed (room_nonce room + 1))) /\
  (forall env roomId db room seed p1 p2,
     room_with_id db roomId = [room] ->
     status room = full \/ status room = completed ->
     room_client_seed room = Some seed -> seed <> [] ->
     players_in db roomId = [p1; p2] ->
     side p1 <> result (generateResult (room_server_seed room) seed (room_nonce room + 1)) ->
     side p2 <> result (generateResult (room_server_seed room) seed (room_nonce room + 1)) ->
     exists e db',
       flipCoin env roomId db = (Throws e, db') /\
       games db' = games db /\
       (reliable env -> e = Error (lit "Unable to determine winner"))).
Proof.
  split.
  - intros env roomId db out db' H.
    apply flipCoin_returns_inv in H
      as (room & cs & u & w & Hin & Hid & Hst & Hseed & Hlen & Hfind & Hout
          & Hgames & Hplayers & Hnext).
    apply find_some in Hfind as [Hw Hside]. apply side_eqb_eq in Hside.
    subst out. cbn [out_game out_result out_winner out_winnerPlayer
                    winner_side flip_result winner_player_id].
    repeat split; try assumption; try reflexivity.
    + rewrite Hplayers. unfold players_in in Hw. now apply filter_In in Hw.
    + exists room, (u :: cs). auto.
  - intros env roomId db room seed p1 p2 Hroom Hst Hseed Hne Hpl H1 H2.
    pose proof (find_side_none p1 p2 _ H1 H2) as Hnone.
    destruct (flipCoin env roomId db) as [[out|e] db'] eqn:H.
    + exfalso.
      apply flipCoin_returns_inv in H
        as (room' & cs & u & w & Hin & Hid & _ & Hseed' & _ & Hfind & _).
      assert (room' = room).
      { assert (Hr : In room' (room_with_id db roomId)).
        { apply filter_In. split; [assumption | now apply N.eqb_eq]. }
        rewrite Hroom in Hr. destruct Hr as [Hr|[]]. now symmetry. }
      subst room'. rewrite Hseed in Hseed'. injection Hseed' as ->.
      rewrite Hpl in Hfind. congruence.
    + exists e, db'. split; [reflexivity|].
      split.
      * apply flipCoin_throws_inv in H. destruct H as [-> | ->]; reflexivity.
      * intros Hrel. destruct Hst as [Hst|Hst].
        -- rewrite (flipCoin_full env roomId db room seed p1 p2) in H
             by (try apply Hrel; assumption).
           rewrite Hnone in H. congruence.
        -- rewrite (flipCoin_completed env roomId db room seed p1 p2) in H
             by (try apply Hrel; assumption).
           rewrite Hnone in H. congruence.
Qed.

Lemma flipCoin_winner_holds_result_witness :
  (exists out db',
     flipCoin Sample.env 0 Sample.joined = (Returns out, db') /\
     winner_side (out_game out) = flip_result (out_game out) /\
     In (out_winnerPlayer out) (players_in Sample.joined 0) /\
     side (out_winnerPlayer out) = out_result out) /\
  (exists e db',
     flipCoin Sample.env 0 Sample.same_side = (Throws e, db') /\
     games db' = games Sample.same_side /\
     e = Error (lit "Unable to determine winner")).
Proof.
  destruct flipCoin_winner_holds_result as [Hret Hthrow].
  split.
  - destruct (flipCoin Sample.env 0 Sample.joined) as [[out|e] db'] eqn:H;
      [|vm_compute in H; discriminate].
    exists out, db'. split; [reflexivity|].
    destruct (Hret _ _ _ _ _ H) as (_ & Hw & _ & _ & _ & Hin & _ & Hs & _).
    auto.
  - destruct (Hthrow Sample.env 0 Sample.same_side
                (mkRoom 0 (lit "ABCDEF") heads 10 20 full (lit "s") (Some (lit "c")) 0)
                (lit "c")
                (mkPlayer 1 0 (lit "sock-A") (lit "A") heads true 10 true)
                (mkPlayer 2 0 (lit "sock-B") (lit "B") heads false 10 true))
      as (e & db' & H & Hg & He).
    + reflexivity.
    + left. reflexivity.
    + reflexivity.
    + vm_compute. discriminate.
    + reflexivity.
    + vm_compute. discriminate.
    + vm_compute. discriminate.
    + exists e, db'. split; [exact H|]. split; [exact Hg|].
      apply He. intros q. reflexivity.
Defined.

(** ** joinRoom *)

Ltac unfold_join H :=
  unfold joinRoom, bind, ret, throw, DB.rooms_select_single, DB.rooms_update,
    DB.players_select, DB.players_insert, DB.single, DB.unreachable in H.

Lemma joiner_side_opposite (s : CoinSide) :
  (if side_eqb s heads then tails else heads) = Spec.opposite s.
Proof. now destruct s. Qed.

Lemma opposite_neq (s : CoinSide) : Spec.opposite s <> s.
Proof. destruct s; discriminate. Qed.

(** What a [joinRoom] that returns has done. *)
Lemma joinRoom_returns_inv (env : Env) (dto : JoinRoomDto) (socketId : jsstring)
    (db db' : Store) (room' : Room) (player : Player) :
  joinRoom env dto socketId db = (Returns (room', player), db') ->
  exists room,
    filter (fun r => streq (room_code r) (dto_code dto)
                     && status_eqb (status r) waiting) (rooms db) = [room] /\
    (served env ListExisting = true ->
     (List.length (players_in db (room_id room)) < 2)%nat) /\
    player = mkPlayer (next_id db) (room_id room) socketId
               (or_else (dto_joinerName dto) (defaultName socketId))
               (Spec.opposite (creator_side room)) false FIXED_STAKE true /\
    room' = set_client_seed (Some (generateClientSeed (randomBytes env 16)))
              (set_status full room) /\
    db' = after_join room (generateClientSeed (randomBytes env 16)) player db.
Proof.
  intros H. unfold_join H.
  repeat case_split H; try discriminate.
  all: cbv beta iota in H; try discriminate.
  all: injection H as <- <- <-.
  all: match goal with Hr : filter _ _ = [?r] |- _ => exists r end.
  all: match goal with
       | Hs : side_eqb (creator_side ?r) heads = _ |- _ =>
           destruct (creator_side r) eqn:Hcs; try discriminate
       end.
  all: split; [reflexivity|].
  all: split; [|split; [reflexivity|split; reflexivity]].
  all: intros Hs; try congruence.
  all: match goal with
       | Hl : (2 <=? _)%nat = false |- _ => apply Nat.leb_gt in Hl; exact Hl
       end.
Qed.

(** ** removePlayer *)

(** No game of another room names one of the room's players: the
    cascade of a room's delete then leaves no game without its winner. *)
Lemma names_winner_false (gs : list Game) (x : Player) :
  DB.names_winner gs x = false <->
  forall g, In g gs -> winner_player_id g <> player_id x.
Proof.
  unfold DB.names_winner. split.
  - intros H g Hg E.
    assert (Ht : existsb (fun g => winner_player_id g =? player_id x) gs = true).
    { apply existsb_exists. exists g. split; [exact Hg | now apply N.eqb_eq]. }
    congruence.
  - intros H. destruct (existsb _ gs) eqn:E; [|reflexivity].
    apply existsb_exists in E as (g & Hg & E). apply N.eqb_eq in E.
    now elim (H g Hg).
Qed.

Lemma rooms_delete_room (roomId : Id) (db : Store) (room : Room) :
  In room (rooms db) -> room_id room = roomId ->
  (forall g q, In g (games db) -> In q (players db) ->
               winner_player_id g = player_id q ->
               player_room_id q = roomId -> game_room_id g = roomId) ->
  DB.rooms_delete true (fun r => room_id r =? roomId) db
  = (Returns (Data tt), without_room roomId db).
Proof.
  intros Hin Hid Hfk. unfold DB.rooms_delete. cbv zeta.
  assert (Howned : forall x,
             existsb (fun r => room_id r =? x)
                     (filter (fun r => room_id r =? roomId) (rooms db))
             = (x =? roomId)).
  { intros x. destruct (x =? roomId) eqn:E.
    - apply N.eqb_eq in E. subst x. apply existsb_exists. exists room.
      split; [|now apply N.eqb_eq].
      apply filter_In. split; [assumption | now apply N.eqb_eq].
    - destruct (existsb _ _) eqn:E'; [|reflexivity].
      apply existsb_exists in E' as (r & Hr & Hx).
      apply filter_In in Hr as [_ Hr].
      apply N.eqb_eq in Hr, Hx. apply N.eqb_neq in E. congruence. }
  destruct (existsb _ (filter _ (players db))) eqn:E.
  - apply existsb_exists in E as (q & Hq & Hn).
    apply filter_In in Hq as [Hq Hroom]. rewrite Howned in Hroom.
    apply N.eqb_eq in Hroom.
    apply existsb_exists in Hn as (g & Hg & Hw). apply N.eqb_eq in Hw.
    apply filter_In in Hg as [Hg Hkept]. rewrite Howned in Hkept.
    rewrite (Hfk g q Hg Hq Hw Hroom), N.eqb_refl in Hkept. discriminate.
  - unfold without_room. f_equal. f_equal.
    + apply filter_ext. intros q. now rewrite Howned.
    + apply filter_ext. intros g. now rewrite Howned.
Qed.

Lemma without_room_without_socket (socketId : jsstring) (db : Store) (p : Player) :
  players_on db socketId = [p] ->
  without_room (player_room_id p) (without_socket socketId db)
  = without_room (player_room_id p) db.
Proof.
  intros Hp. unfold without_room, without_socket. cbn [rooms players games next_id].
  f_equal. rewrite <- filter_andb. apply filter_ext_in. intros q Hq.
  destruct (streq (socket_id q) socketId) eqn:E; [|reflexivity].
  assert (Hq' : In q (players_on db socketId)).
  { apply filter_In. now split. }
  rewrite Hp in Hq'. destruct Hq' as [<-|[]].
  now rewrite N.eqb_refl.
Qed.

Lemma removePlayer_creator (env : Env) (socketId : jsstring) (db : Store)
    (p : Player) (room : Room) :
  reliable env ->
  players_on db socketId = [p] -> is_creator p = true ->
  In room (rooms db) -> room_id room = player_room_id p ->
  (forall g q, In g (games db) -> In q (players db) ->
               winner_player_id g = player_id q ->
               player_room_id q = player_room_id p ->
               game_room_id g = player_room_id p) ->
  removePlayer env socketId db = (Returns tt, without_room (player_room_id p) db).
Proof.
  intros Hrel Hp Hc Hin Hid Hfk.
  unfold removePlayer, bind, ret, DB.players_select_single, DB.players_delete.
  rewrite !Hrel.
  change (filter (fun q => streq (socket_id q) socketId) (players db))
    with (players_on db socketId).
  rewrite Hp. cbn [DB.single]. cbv beta iota. rewrite Hc.
  change (filter (fun q => streq (socket_id q) socketId) (players db))
    with (players_on db socketId).
  rewrite Hp.
  destruct (existsb (DB.names_winner (games db)) [p]); cbv beta iota.
  - now rewrite (rooms_delete_room (player_room_id p) db room).
  - change (mkStore (rooms db)
              (filter (fun x => negb (streq (socket_id x) socketId)) (players db))
              (games db) (next_id db))
      with (without_socket socketId db).
    rewrite (rooms_delete_room (player_room_id p) (without_socket socketId db) room);
      [now rewrite without_room_without_socket | exact Hin | exact Hid |].
    intros g q Hg Hq. apply Hfk; [exact Hg|].
    unfold without_socket in Hq. cbn [players] in Hq.
    now apply filter_In in Hq.
Qed.

(** A joiner leaves when no game names them as its winner. *)
Lemma removePlayer_joiner (env : Env) (socketId : jsstring) (db : Store)
    (p : Player) :
  reliable env ->
  players_on db socketId = [p] -> is_creator p = false ->
  (forall g, In g (games db) -> winner_player_id g <> player_id p) ->
  removePlayer env socketId db = (Returns tt, without_socket socketId db).
Proof.
  intros Hrel Hp Hc Hfk.
  unfold removePlayer, bind, ret, DB.players_select_single, DB.players_delete.
  rewrite !Hrel.
  change (filter (fun q => streq (socket_id q) socketId) (players db))
    with (players_on db socketId).
  rewrite Hp. cbn [DB.single]. cbv beta iota.
  change (filter (fun q => streq (socket_id q) socketId) (players db))
    with (players_on db socketId).
  rewrite Hp. cbn [existsb].
  apply names_winner_false in Hfk. rewrite Hfk. cbn [orb]. cbv beta iota.
  rewrite Hc. reflexivity.
Qed.

(** A joiner who has won a game stays: the database refuses the delete
    and [removePlayer] does not look at the answer. *)
Lemma removePlayer_joiner_winner (env : Env) (socketId : jsstring) (db : Store)
    (p : Player) (g : Game) :
  players_on db socketId = [p] -> is_creator p = false ->
  In g (games db) -> winner_player_id g = player_id p ->
  removePlayer env socketId db = (Returns tt, db).
Proof.
  intros Hp Hc Hg Hw.
  unfold removePlayer, bind, ret, DB.players_select_single, DB.players_delete.
  change (filter (fun q => streq (socket_id q) socketId) (players db))
    with (players_on db socketId).
  destruct (served env FindPlayer); [|reflexivity].
  rewrite Hp. cbn [DB.single]. cbv beta iota.
  change (filter (fun q => streq (socket_id q) socketId) (players db))
    with (players_on db socketId).
  rewrite Hp. cbn [existsb].
  assert (Hn : DB.names_winner (games db) p = true).
  { apply existsb_exists. exists g. split; [exact Hg | now apply N.eqb_eq]. }
  rewrite Hn. cbn [orb].
  destruct (served env DeletePlayer); cbv beta iota; rewrite Hc; reflexivity.
Qed.

Lemma removePlayer_unmatched (env : Env) (socketId : jsstring) (db : Store) :
  (forall p, players_on db socketId <> [p]) ->
  removePlayer env socketId db = (Returns tt, db).
Proof.
  intros Hp.
  unfold removePlayer, bind, ret, DB.players_select_single.
  change (filter (fun q => streq (socket_id q) socketId) (players db))
    with (players_on db socketId).
  destruct (served env FindPlayer); [|reflexivity].
  destruct (players_on db socketId) as [|p [|p' l]]; try reflexivity.
  now elim (Hp p).
Qed.

Lemma without_socket_players (socketId : jsstring) (db : Store) (p q : Player) :
  players_on db socketId = [p] ->
  In q (players (without_socket socketId db)) <-> In q (players db) /\ q <> p.
Proof.
  intros Hp. unfold without_socket. cbn [players]. rewrite filter_In.
  assert (Hpin : In p (players_on db socketId)) by (rewrite Hp; now left).
  apply filter_In in Hpin as [_ Hps].
  split; intros [Hq Hne]; (split; [exact Hq|]).
  - intros ->. now rewrite Hps in Hne.
  - destruct (streq (socket_id q) socketId) eqn:E; [|reflexivity].
    assert (Hq' : In q (players_on db socketId)) by (apply filter_In; now split).
    rewrite Hp in Hq'. destruct Hq' as [<-|[]]. contradiction.
Qed.
(** C4. A [joinRoom] that returns has found the waiting room with the
    given code, has given the joiner the side opposite the creator's
    (tails for heads, heads for tails), has stored on the room the client
    seed generated in this call, and has set the room's status to full.
    The seed is the hexadecimal text of the bytes drawn in the call: for
    16 bytes it is 32 lower-case hexadecimal digits, it is not empty, and
    no other bytes give it. *)
Theorem joinRoom_assigns_opposite_side (env : Env) (dto : JoinRoomDto)
    (socketId : jsstring) (db db' : Store) (room' : Room) (player : Player) :
  joinRoom env dto socketId db = (Returns (room', player), db') ->
  exists room,
    In room (rooms db) /\ room_code room = dto_code dto /\ status room = waiting /\
    side player = Spec.opposite (creator_side room) /\
    side player <> creator_side room /\
    (creator_side room = heads -> side player = tails) /\
    (creator_side room = tails -> side player = heads) /\
    player_room_id player = room_id room /\
    socket_id player = socketId /\
    is_creator player = false /\
    players db' = players db ++ [player] /\
    room' = set_client_seed (Some (generateClientSeed (randomBytes env 16)))
              (set_status full room) /\
    status room' = full /\
    room_client_seed room' = Some (generateClientSeed (randomBytes env 16)) /\
    In room' (rooms db') /\
    room_with_id db' (room_id room)
    = map (fun r => set_client_seed (Some (generateClientSeed (randomBytes env 16)))
                      (set_status full r))
          (room_with_id db (room_id room)) /\
    (List.length (randomBytes env 16) = 16%nat ->
     Forall (fun b => b < 256) (randomBytes env 16) ->
     exists seed,
       room_client_seed room' = Some seed /\ seed <> [] /\
       List.length seed = 32%nat /\ forallb is_lower_hex seed = true /\
       forall bytes, Forall (fun b => b < 256) bytes ->
                     generateClientSeed bytes = seed ->
                     bytes = randomBytes env 16).
Proof.
  intros H.
  apply joinRoom_returns_inv in H as (room & Hroom & _ & Hplayer & Hroom' & Hdb).
  exists room.
  apply filter_singleton in Hroom as [Hin Hp].
  apply andb_true_iff in Hp as [Hcode Hst].
  apply streq_eq in Hcode. apply status_eqb_eq in Hst.
  subst player room' db'.
  cbn [side player_room_id socket_id is_creator after_join players rooms
       set_client_seed set_status status room_client_seed].
  repeat split; try assumption; try reflexivity.
  - apply opposite_neq.
  - now intros ->.
  - now intros ->.
  - apply in_map_iff. exists room. split; [|assumption].
    now rewrite N.eqb_refl.
  - unfold room_with_id. cbn [rooms]. now apply filter_map_patch.
  - intros Hlen Hbytes. exists (generateClientSeed (randomBytes env 16)).
    unfold generateClientSeed.
    assert (Hl : List.length (toHex (randomBytes env 16)) = 32%nat)
      by (rewrite toHex_length, Hlen; reflexivity).
    split; [reflexivity|]. split; [|split; [exact Hl|split]].
    + intros E. rewrite E in Hl. discriminate.
    + now apply toHex_lower.
    + intros bytes Hb E. now apply toHex_inj.
Qed.

Lemma joinRoom_assigns_opposite_side_witness :
  (exists room' player db',
     joinRoom Sample.env (mkJoinRoomDto (lit "ABCDEF") None) (lit "sock-B")
              Sample.created = (Returns (room', player), db') /\
     side player = tails /\ status room' = full /\
     exists seed, room_client_seed room' = Some seed /\ seed <> [] /\
                  List.length seed = 32%nat /\
                  forallb is_lower_hex seed = true) /\
  (exists room' player db',
     joinRoom Sample.env (mkJoinRoomDto (lit "ABCDEF") None) (lit "sock-D")
              Sample.created_tails = (Returns (room', player), db') /\
     side player = heads /\ status room' = full).
Proof.
  split.
  - destruct (joinRoom Sample.env (mkJoinRoomDto (lit "ABCDEF") None) (lit "sock-B")
                Sample.created) as [[[room' player]|e] db'] eqn:H;
      [|vm_compute in H; discriminate].
    exists room', player, db'. split; [reflexivity|].
    destruct (joinRoom_assigns_opposite_side _ _ _ _ _ _ _ H)
      as (room & Hin & _ & _ & _ & _ & Hh & _ & _ & _ & _ & _ & _ & Hst & _ & _
          & _ & Hseed).
    split; [|split; [exact Hst|]].
    + apply Hh. vm_compute in Hin. destruct Hin as [<-|[]]. reflexivity.
    + destruct Hseed as (seed & Hs & Hne & Hl & Hx & _).
      * reflexivity.
      * repeat constructor.
      * exists seed. auto.
  - destruct (joinRoom Sample.env (mkJoinRoomDto (lit "ABCDEF") None) (lit "sock-D")
                Sample.created_tails) as [[[room' player]|e] db'] eqn:H;
      [|vm_compute in H; discriminate].
    exists room', player, db'. split; [reflexivity|].
    destruct (joinRoom_assigns_opposite_side _ _ _ _ _ _ _ H)
      as (room & Hin & _ & _ & _ & _ & _ & Ht & _ & _ & _ & _ & _ & Hst & _).
    split; [|exact Hst]. apply Ht.
    vm_compute in Hin. destruct Hin as [<-|[]]. reflexivity.
Defined.

Lemma room_with_id_without_room (roomId : Id) (db : Store) :
  room_with_id (without_room roomId db) roomId = [] /\
  players_in (without_room roomId db) roomId = [] /\
  games_of (without_room roomId db) roomId = [].
Proof.
  unfold room_with_id, players_in, games_of, without_room.
  cbn [rooms players games].
  repeat split; apply filter_none; intros x Hx;
    apply filter_In in Hx as [_ Hx]; now apply negb_true_iff in Hx.
Qed.

(** What [removePlayer] does when exactly one player is on the
    connection and the database accepts the deletes: a creator takes the
    room, its players and its games along; a joiner whom no game names
    as its winner goes alone; with no player on the connection the
    store is untouched. *)
Lemma removePlayer_cases (env : Env) (socketId : jsstring) (db : Store) :
  (reliable env ->
   forall p room,
     players_on db socketId = [p] -> is_creator p = true ->
     In room (rooms db) -> room_id room = player_room_id p ->
     (forall g q, In g (games db) -> In q (players db) ->
                  winner_player_id g = player_id q ->
                  player_room_id q = player_room_id p ->
                  game_room_id g = player_room_id p) ->
     let db' := without_room (player_room_id p) db in
     removePlayer env socketId db = (Returns tt, db') /\
     room_with_id db' (player_room_id p) = [] /\
     players_in db' (player_room_id p) = [] /\
     ~ In room (rooms db') /\ ~ In p (players db') /\
     (forall r, room_id r <> player_room_id p ->
                (In r (rooms db') <-> In r (rooms db))) /\
     (forall q, player_room_id q <> player_room_id p ->
                (In q (players db') <-> In q (players db)))) /\
  (reliable env ->
   forall p,
     players_on db socketId = [p] -> is_creator p = false ->
     (forall g, In g (games db) -> winner_player_id g <> player_id p) ->
     let db' := without_socket socketId db in
     removePlayer env socketId db = (Returns tt, db') /\
     rooms db' = rooms db /\ games db' = games db /\
     (forall q, In q (players db') <-> In q (players db) /\ q <> p) /\
     (forall c, In c (players db) -> is_creator c = true -> In c (players db'))) /\
  (players_on db socketId = [] ->
   removePlayer env socketId db = (Returns tt, db)).
Proof.
  split; [|split].
  - intros Hrel p room Hp Hc Hin Hid Hfk db'.
    split; [now apply (removePlayer_creator env socketId db p room)|].
    destruct (room_with_id_without_room (player_room_id p) db) as (Hr & Hpl & _).
    split; [exact Hr|]. split; [exact Hpl|].
    subst db'. unfold without_room. cbn [rooms players].
    split; [|split; [|split]].
    + intros H. apply filter_In in H as [_ H].
      rewrite Hid, N.eqb_refl in H. discriminate.
    + intros H. apply filter_In in H as [_ H].
      rewrite N.eqb_refl in H. discriminate.
    + intros r Hne. rewrite filter_In. split; [now intros [H _]|].
      intros H. split; [exact H|].
      apply negb_true_iff. now apply N.eqb_neq.
    + intros q Hne. rewrite filter_In. split; [now intros [H _]|].
      intros H. split; [exact H|].
      apply negb_true_iff. now apply N.eqb_neq.
  - intros Hrel p Hp Hc Hfk db'.
    split; [now apply (removePlayer_joiner env socketId db p)|].
    split; [reflexivity|]. split; [reflexivity|].
    split.
    + intros q. now apply without_socket_players.
    + intros c Hcin Hcc. apply (without_socket_players socketId db p c Hp).
      split; [exact Hcin|]. intros ->. congruence.
  - intros Hp. apply removePlayer_unmatched. intros p. rewrite Hp. discriminate.
Qed.

(** C6, where the code departs from it. A connection that created two
    rooms holds two creators: the lookup of the one player on the
    connection fails and [removePlayer] removes nothing, neither the
    players nor their rooms. A joiner who has won a game is named by
    that game: the database refuses the delete, [removePlayer] does not
    look at the answer, and the joiner stays, although the same call
    with no request lost removes a joiner who has won nothing. *)
Theorem removePlayer_leaves_matching_players :
  map (fun p => (socket_id p, is_creator p)) (players Faulty.two_rooms)
  = [(lit "sock-A", true); (lit "sock-A", true)] /\
  List.length (rooms Faulty.two_rooms) = 2%nat /\
  removePlayer Sample.env (lit "sock-A") Faulty.two_rooms
  = (Returns tt, Faulty.two_rooms) /\
  map (fun p => (player_id p, is_creator p))
      (players_on Sample.replayed (lit "sock-B")) = [(2, false)] /\
  map winner_player_id (games Sample.replayed) = [1; 2] /\
  removePlayer Sample.env (lit "sock-B") Sample.replayed
  = (Returns tt, Sample.replayed) /\
  map player_id (players (snd (removePlayer Sample.env (lit "sock-B") Sample.flipped)))
  = [1].
Proof. vm_compute. repeat split. Qed.

(** ** The invariant *)

Lemma wf_empty : wf empty_store.
Proof.
  constructor; cbn; try (intros ? []). constructor.
Qed.

Lemma NoDup_map_inj {A B : Type} (f : A -> B) (l : list A) (x y : A) :
  NoDup (map f l) -> In x l -> In y l -> f x = f y -> x = y.
Proof.
  induction l as [|a l IH]; intros Hnd Hx Hy Hf; [destruct Hx|].
  cbn in Hnd. inversion Hnd as [|? ? Hn Hnd']; subst.
  destruct Hx as [->|Hx], Hy as [->|Hy].
  - reflexivity.
  - exfalso. apply Hn. rewrite Hf. now apply in_map.
  - exfalso. apply Hn. rewrite <- Hf. now apply in_map.
  - now apply IH.
Qed.

(** With keyed rooms, the rows with a room's identifier are that room. *)
Lemma wf_room_with_id (db : Store) (r : Room) :
  wf db -> In r (rooms db) -> room_with_id db (room_id r) = [r].
Proof.
  intros Hwf Hin. pose proof (wf_room_key db Hwf) as Hnd.
  unfold room_with_id. revert Hnd Hin.
  induction (rooms db) as [|a l IH]; intros Hnd Hin; [destruct Hin|].
  cbn in Hnd. inversion Hnd as [|? ? Hn Hnd']; subst.
  cbn [filter]. destruct Hin as [->|Hin].
  - rewrite N.eqb_refl. f_equal. apply filter_none. intros x Hx.
    apply N.eqb_neq. intros E. apply Hn. rewrite <- E. now apply in_map.
  - destruct (room_id a =? room_id r) eqn:E.
    + apply N.eqb_eq in E. exfalso. apply Hn. rewrite E. now apply in_map.
    + now apply IH.
Qed.

Lemma wf_invariant (db : Store) : wf db -> at_most_two_opposite db.
Proof.
  intros Hwf roomId.
  destruct (players_in db roomId) as [|p0 l] eqn:Hl.
  { split; [cbn; lia | discriminate]. }
  assert (Hp0 : In p0 (players_in db roomId)) by (rewrite Hl; now left).
  apply filter_In in Hp0 as [Hp0 Hid]. apply N.eqb_eq in Hid.
  destruct (wf_owner db Hwf p0 Hp0) as (r & Hr & Hrid).
  destruct (wf_players db Hwf r Hr) as (c & Hc & Hcs & Hcases).
  rewrite Hrid, Hid, Hl in Hcases.
  destruct Hcases as [E | (_ & j & Hj & Hjs & E)]; rewrite E.
  - split; [cbn; lia | discriminate].
  - split; [cbn; lia|].
    intros p q Hpq. injection Hpq as <- <-.
    rewrite Hcs, Hjs. split; [|reflexivity].
    intros Heq. symmetry in Heq. now apply opposite_neq in Heq.
Qed.

Lemma players_in_app (db : Store) (roomId : Id) (l : list Player) :
  filter (fun p => player_room_id p =? roomId) (players db ++ l)
  = players_in db roomId ++ filter (fun p => player_room_id p =? roomId) l.
Proof. apply filter_app. Qed.

(** Changing rooms benignly and recording games of rooms that have left
    [waiting] keeps the invariant. *)
Lemma wf_evolve (db db' : Store) (f : Room -> Room) :
  wf db -> benign f ->
  rooms db' = map f (rooms db) ->
  players db' = players db ->
  next_id db <= next_id db' ->
  (forall g, In g (games db') ->
     In g (games db) \/
     exists r, In r (rooms db) /\ room_id r = game_room_id g /\
               status r <> waiting /\
               game_server_seed g = room_server_seed r /\
               room_client_seed r = Some (game_client_seed g)) ->
  wf db'.
Proof.
  intros Hwf Hf Hrooms Hplayers Hnext Hgames.
  assert (Hids : map room_id (map f (rooms db)) = map room_id (rooms db)).
  { rewrite map_map. apply map_ext. intros r. apply Hf. }
  assert (Hroom : forall r, In r (rooms db) ->
            exists r', In r' (rooms db') /\ room_id r' = room_id r /\
                       (status r <> waiting -> status r' <> waiting) /\
                       room_server_seed r' = room_server_seed r /\
                       room_client_seed r' = room_client_seed r).
  { intros r Hr. exists (f r). rewrite Hrooms.
    destruct (Hf r) as (H1 & H2 & H3 & H4 & H5).
    split; [now apply in_map|]. auto. }
  constructor.
  - intros r' Hr'. rewrite Hrooms in Hr'. apply in_map_iff in Hr' as (r & <- & Hr).
    destruct (Hf r) as (-> & _). pose proof (wf_room_ids db Hwf r Hr). lia.
  - rewrite Hrooms, Hids. apply (wf_room_key db Hwf).
  - intros p Hp. rewrite Hplayers in Hp.
    destruct (wf_owner db Hwf p Hp) as (r & Hr & Hid).
    destruct (Hroom r Hr) as (r' & Hr' & Hid' & _).
    exists r'. split; [exact Hr' | congruence].
  - intros g Hg.
    assert (Hold : exists r, In r (rooms db) /\ room_id r = game_room_id g /\
               status r <> waiting /\
               game_server_seed g = room_server_seed r /\
               room_client_seed r = Some (game_client_seed g)).
    { destruct (Hgames g Hg) as [Hg0|Hnew]; [|exact Hnew].
      apply (wf_game_room db Hwf g Hg0). }
    destruct Hold as (r & Hr & Hid & Hst & Hss & Hcs).
    destruct (Hroom r Hr) as (r' & Hr' & Hid' & Hst' & Hss' & Hcs').
    exists r'. repeat split; try congruence; auto.
  - intros r' Hr'. rewrite Hrooms in Hr'. apply in_map_iff in Hr' as (r & <- & Hr).
    destruct (Hf r) as (Hid & Hcs & _ & _ & Hst).
    destruct (wf_players db Hwf r Hr) as (c & Hc & Hside & Hcases).
    exists c. split; [exact Hc|]. split; [congruence|].
    unfold players_in in *. rewrite Hplayers, Hid, Hcs.
    destruct Hcases as [E | (Hw & j & Hj & Hjs & E)]; [now left | right].
    split; [now apply Hst|]. exists j. auto.
Qed.

Ltac benign_tac :=
  let r := fresh "r" in
  intros r; cbn [set_status set_nonce];
  try match goal with
      | |- context [room_id r =? ?x] => destruct (room_id r =? x)
      end;
  cbn [set_status set_nonce set_client_seed room_id creator_side
       room_server_seed room_client_seed status];
  repeat split; auto; discriminate.

Lemma benign_compose (f g : Room -> Room) :
  benign f -> benign g -> benign (fun r => g (f r)).
Proof.
  intros Hf Hg r.
  destruct (Hf r) as (F1 & F2 & F3 & F4 & F5).
  destruct (Hg (f r)) as (G1 & G2 & G3 & G4 & G5).
  repeat split; try congruence. auto.
Qed.

(** Whatever [flipCoin] does, it changes rooms benignly. *)
Lemma flipCoin_evolves (env : Env) (roomId : Id) (db db' : Store)
    (o : Outcome FlipOutcome) :
  flipCoin env roomId db = (o, db') ->
  exists f, benign f /\ rooms db' = map f (rooms db).
Proof.
  intros H. unfold_flip H.
  repeat case_split H.
  all: cbv beta iota in H.
  all: injection H as <- <-; cbn [rooms].
  all: first
         [ exists (fun r => r); split; [benign_tac | symmetry; apply map_id]
         | eexists; split; [|reflexivity]; benign_tac
         | match goal with
           | |- exists f, _ /\ map ?g (map ?f0 ?l) = _ =>
               refine (ex_intro _ (fun x => g (f0 x))
                         (conj (benign_compose f0 g _ _) (map_map f0 g l)));
               benign_tac
           end ].
Qed.

Lemma wf_flipCoin (env : Env) (roomId : Id) (db : Store) :
  wf db -> wf (snd (flipCoin env roomId db)).
Proof.
  intros Hwf.
  destruct (flipCoin env roomId db) as [[out|e] db'] eqn:H; cbn [snd].
  - destruct (flipCoin_evolves _ _ _ _ _ H) as (f & Hf & Hrooms).
    apply flipCoin_returns_inv in H
      as (room & cs & u & w & Hin & Hid & Hst & Hseed & _ & _ & _
          & Hgames & Hplayers & Hnext).
    apply (wf_evolve db db' f Hwf Hf Hrooms Hplayers); [lia|].
    intros g Hg. rewrite Hgames in Hg. apply in_app_or in Hg as [Hg|[<-|[]]].
    + now left.
    + right. exists room. cbn [game_room_id game_server_seed game_client_seed].
      repeat split; auto.
      destruct Hst as [-> | ->]; discriminate.
  - destruct (flipCoin_evolves _ _ _ _ _ H) as (f & Hf & Hrooms).
    apply flipCoin_throws_inv in H.
    apply (wf_evolve db db' f Hwf Hf Hrooms).
    + destruct H as [-> | ->]; reflexivity.
    + destruct H as [-> | ->]; cbn [next_id]; lia.
    + intros g Hg. left. destruct H as [-> | ->]; exact Hg.
Qed.

(** *** createRoom *)

Lemma pickRoomCode_store (env : Env) (remaining attempts : nat) (db db' : Store)
    (o : Outcome jsstring) :
  pickRoomCode env remaining attempts db = (o, db') -> db' = db.
Proof.
  revert attempts. induction remaining as [|n IH]; intros attempts H.
  - cbn in H. unfold throw in H. now injection H as _ <-.
  - cbn [pickRoomCode] in H. unfold bind, DB.rooms_select_single in H.
    cbv beta iota in H.
    destruct (if served env (LookupCode attempts) then _ else _).
    + now apply IH in H.
    + unfold ret in H. now injection H as _ <-.
Qed.

(** Under a reliable store [createRoom] adds a room and its creator, or
    nothing. *)
Lemma createRoom_store (env : Env) (dto : CreateRoomDto) (socketId : jsstring)
    (db : Store) :
  reliable env ->
  snd (createRoom env dto socketId db) = db \/
  exists code,
    snd (createRoom env dto socketId db)
    = after_create code (generateServerSeed (randomBytes env 32)) (dto_side dto)
        socketId (or_else (dto_playerName dto) (defaultName socketId)) db.
Proof.
  intros Hrel.
  unfold createRoom, try_catch_M, bind, ret, throw, DB.rooms_insert,
    DB.players_insert.
  rewrite !Hrel.
  destruct (pickRoomCode env maxAttempts 0 db) as [[code|e] db1] eqn:Hpick;
    apply pickRoomCode_store in Hpick; subst db1.
  - cbv beta iota. cbn [room_code].
    destruct (existsb _ (rooms db)).
    + left. reflexivity.
    + right. exists code. reflexivity.
  - left. destruct e; reflexivity.
Qed.

Lemma wf_after_create (code seed : jsstring) (s : CoinSide)
    (socketId playerName : jsstring) (db : Store) :
  wf db -> wf (after_create code seed s socketId playerName db).
Proof.
  intros Hwf.
  assert (Hfresh : players_in db (next_id db) = []).
  { apply filter_none. intros p Hp. apply N.eqb_neq. intros E.
    destruct (wf_owner db Hwf p Hp) as (r & Hr & Hid).
    pose proof (wf_room_ids db Hwf r Hr). lia. }
  unfold after_create. constructor; cbn [rooms players games next_id].
  - intros r Hr. apply in_app_or in Hr as [Hr|[<-|[]]].
    + pose proof (wf_room_ids db Hwf r Hr). lia.
    + cbn. lia.
  - rewrite map_app. cbn [map room_id].
    apply NoDup_app; [apply (wf_room_key db Hwf) | repeat constructor; intros [] |].
    intros x Hx [<-|[]]. apply in_map_iff in Hx as (r & Hid & Hr).
    pose proof (wf_room_ids db Hwf r Hr). lia.
  - intros p Hp. apply in_app_or in Hp as [Hp|[<-|[]]].
    + destruct (wf_owner db Hwf p Hp) as (r & Hr & Hid).
      exists r. split; [apply in_or_app; now left | exact Hid].
    + eexists. split; [apply in_or_app; right; now left | reflexivity].
  - intros g Hg. destruct (wf_game_room db Hwf g Hg) as (r & Hr & H).
    exists r. split; [apply in_or_app; now left | exact H].
  - intros r Hr. unfold players_in. cbn [players]. rewrite players_in_app.
    apply in_app_or in Hr as [Hr|[<-|[]]].
    + pose proof (wf_room_ids db Hwf r Hr) as Hlt.
      destruct (wf_players db Hwf r Hr) as (c & Hc & Hside & Hcases).
      exists c. split; [exact Hc|]. split; [exact Hside|].
      cbn [filter player_room_id].
      replace (next_id db =? room_id r) with false
        by (symmetry; apply N.eqb_neq; lia).
      now rewrite app_nil_r.
    + eexists. split; [|split]; [| |left].
      3:{ cbn [room_id filter player_room_id]. rewrite Hfresh, N.eqb_refl.
          reflexivity. }
      all: reflexivity.
Qed.

Lemma wf_createRoom (env : Env) (dto : CreateRoomDto) (socketId : jsstring)
    (db : Store) :
  reliable env -> wf db -> wf (snd (createRoom env dto socketId db)).
Proof.
  intros Hrel Hwf.
  destruct (createRoom_store env dto socketId db Hrel) as [-> | (code & ->)];
    [exact Hwf | now apply wf_after_create].
Qed.

(** *** joinRoom *)

Lemma joinRoom_throws_store (env : Env) (dto : JoinRoomDto) (socketId : jsstring)
    (db db' : Store) (e : Exn) :
  reliable env ->
  joinRoom env dto socketId db = (Throws e, db') -> db' = db.
Proof.
  intros Hrel H. unfold_join H.
  rewrite !Hrel in H.
  repeat case_split H; try discriminate.
  all: cbv beta iota in H; try discriminate.
  all: now injection H as _ <-.
Qed.

Lemma wf_after_join (room : Room) (seed socketId playerName : jsstring)
    (db : Store) :
  wf db -> In room (rooms db) -> status room = waiting ->
  wf (after_join room seed
        (mkPlayer (next_id db) (room_id room) socketId playerName
                  (Spec.opposite (creator_side room)) false FIXED_STAKE true)
        db).
Proof.
  intros Hwf Hin Hst.
  set (f := fun r => if room_id r =? room_id room
                     then set_client_seed (Some seed) (set_status full r)
                     else r).
  assert (Hfid : forall r, room_id (f r) = room_id r).
  { intros r. unfold f. now destruct (room_id r =? room_id room). }
  assert (Hfother : forall r, In r (rooms db) -> room_id r <> room_id room -> f r = r).
  { intros r _ Hne. unfold f. apply N.eqb_neq in Hne. now rewrite Hne. }
  assert (Hsame : forall r, In r (rooms db) -> room_id r = room_id room -> r = room).
  { intros r Hr Hid. apply (NoDup_map_inj room_id (rooms db)); auto.
    apply (wf_room_key db Hwf). }
  unfold after_join. fold f.
  constructor; cbn [rooms players games next_id].
  - intros r' Hr'. apply in_map_iff in Hr' as (r & <- & Hr).
    rewrite Hfid. pose proof (wf_room_ids db Hwf r Hr). lia.
  - rewrite map_map. rewrite (map_ext _ room_id Hfid). apply (wf_room_key db Hwf).
  - intros p Hp. apply in_app_or in Hp as [Hp|[<-|[]]].
    + destruct (wf_owner db Hwf p Hp) as (r & Hr & Hid).
      exists (f r). split; [now apply in_map | now rewrite Hfid].
    + exists (f room). split; [now apply in_map | now rewrite Hfid].
  - intros g Hg.
    destruct (wf_game_room db Hwf g Hg) as (r & Hr & Hid & Hw & Hseeds).
    exists r. split; [|auto].
    assert (Hne : room_id r <> room_id room).
    { intros E. apply Hw. now rewrite (Hsame r Hr E). }
    rewrite <- (Hfother r Hr Hne). now apply in_map.
  - intros r' Hr'. apply in_map_iff in Hr' as (r & <- & Hr).
    rewrite Hfid. unfold players_in. cbn [players]. rewrite players_in_app.
    cbn [filter player_room_id].
    destruct (wf_players db Hwf r Hr) as (c & Hc & Hside & Hcases).
    exists c. split; [exact Hc|].
    destruct (N.eq_dec (room_id r) (room_id room)) as [E|Hne].
    + pose proof (Hsame r Hr E) as ->.
      unfold f. rewrite !N.eqb_refl.
      cbn [set_client_seed set_status creator_side status].
      split; [exact Hside|]. right. split; [discriminate|].
      exists (mkPlayer (next_id db) (room_id room) socketId playerName
                (Spec.opposite (creator_side room)) false FIXED_STAKE true).
      split; [reflexivity|]. split; [reflexivity|].
      destruct Hcases as [-> | (Hw & _)]; [reflexivity | contradiction].
    + rewrite (Hfother r Hr Hne). split; [exact Hside|].
      replace (room_id room =? room_id r) with false
        by (symmetry; apply N.eqb_neq; congruence).
      now rewrite app_nil_r.
Qed.

Lemma wf_joinRoom (env : Env) (dto : JoinRoomDto) (socketId : jsstring)
    (db : Store) :
  reliable env -> wf db -> wf (snd (joinRoom env dto socketId db)).
Proof.
  intros Hrel Hwf.
  destruct (joinRoom env dto socketId db) as [[[room' player]|e] db'] eqn:H;
    cbn [snd].
  - apply joinRoom_returns_inv in H as (room & Hroom & _ & -> & _ & ->).
    apply filter_singleton in Hroom as [Hin Hp].
    apply andb_true_iff in Hp as [_ Hst]. apply status_eqb_eq in Hst.
    now apply wf_after_join.
  - apply joinRoom_throws_store in H; [now subst | exact Hrel].
Qed.

(** *** removePlayer *)

(** Dropping rows keeps the room keys distinct. *)
Lemma room_key_filter (keep : Room -> bool) (rs : list Room) :
  NoDup (map room_id rs) -> NoDup (map room_id (filter keep rs)).
Proof.
  induction rs as [|a rs IH]; intros H; [constructor|].
  cbn in H. inversion H as [|? ? Hn Hnd]; subst.
  cbn [filter]. destruct (keep a); [|now apply IH].
  cbn [map]. constructor; [|now apply IH].
  intros Hin. apply Hn. apply in_map_iff in Hin as (x & Hx & Hxl).
  apply filter_In in Hxl as [Hxl _]. rewrite <- Hx. now apply in_map.
Qed.

Lemma filter_comm {A : Type} (p q : A -> bool) (l : list A) :
  filter p (filter q l) = filter q (filter p l).
Proof.
  rewrite <- !filter_andb. apply filter_ext. intros x. apply andb_comm.
Qed.

Lemma wf_without_room (roomId : Id) (db : Store) :
  wf db -> wf (without_room roomId db).
Proof.
  intros Hwf. unfold without_room.
  constructor; cbn [rooms players games next_id].
  - intros r Hr. apply filter_In in Hr as [Hr _]. apply (wf_room_ids db Hwf r Hr).
  - apply room_key_filter, (wf_room_key db Hwf).
  - intros p Hp. apply filter_In in Hp as [Hp Hne].
    destruct (wf_owner db Hwf p Hp) as (r & Hr & Hid).
    exists r. split; [|exact Hid]. apply filter_In. split; [exact Hr|].
    now rewrite Hid.
  - intros g Hg. apply filter_In in Hg as [Hg Hne].
    destruct (wf_game_room db Hwf g Hg) as (r & Hr & Hid & Hrest).
    exists r. split; [|auto]. apply filter_In. split; [exact Hr|].
    now rewrite Hid.
  - intros r Hr. apply filter_In in Hr as [Hr Hne].
    destruct (wf_players db Hwf r Hr) as (c & Hc & Hside & Hcases).
    exists c. split; [exact Hc|]. split; [exact Hside|].
    assert (E : players_in (mkStore (filter (fun r0 => negb (room_id r0 =? roomId)) (rooms db))
                   (filter (fun p => negb (player_room_id p =? roomId)) (players db))
                   (filter (fun g => negb (game_room_id g =? roomId)) (games db))
                   (next_id db)) (room_id r)
                = players_in db (room_id r)).
    { unfold players_in. cbn [players]. rewrite filter_comm.
      apply filter_all. intros p Hp. apply filter_In in Hp as [_ Hp].
      apply N.eqb_eq in Hp. now rewrite Hp. }
    rewrite E. exact Hcases.
Qed.

Lemma wf_without_socket (socketId : jsstring) (db : Store) (p : Player) :
  wf db -> players_on db socketId = [p] -> is_creator p = false ->
  wf (without_socket socketId db).
Proof.
  intros Hwf Hp Hnc. unfold without_socket.
  constructor; cbn [rooms players games next_id].
  - apply (wf_room_ids db Hwf).
  - apply (wf_room_key db Hwf).
  - intros q Hq. apply filter_In in Hq as [Hq _]. apply (wf_owner db Hwf q Hq).
  - apply (wf_game_room db Hwf).
  - intros r Hr.
    destruct (wf_players db Hwf r Hr) as (c & Hc & Hside & Hcases).
    exists c. split; [exact Hc|]. split; [exact Hside|].
    assert (Hkeep : streq (socket_id c) socketId = false).
    { destruct (streq (socket_id c) socketId) eqn:E; [|reflexivity].
      assert (Hcin : In c (players_in db (room_id r))).
      { destruct Hcases as [-> | (_ & j & _ & _ & ->)]; now left. }
      apply filter_In in Hcin as [Hcin _].
      assert (Hc' : In c (players_on db socketId)) by (apply filter_In; now split).
      rewrite Hp in Hc'. destruct Hc' as [<-|[]]. congruence. }
    unfold players_in in *. cbn [players]. rewrite filter_comm.
    destruct Hcases as [-> | (Hw & j & Hj & Hjs & ->)]; cbn [filter];
      rewrite Hkeep; cbn [negb].
    + now left.
    + destruct (streq (socket_id j) socketId); cbn [negb].
      * now left.
      * right. split; [exact Hw|]. exists j. auto.
Qed.


(* ===================================================================== *)
(** * More of the services *)
(* ===================================================================== *)

(** ** createRoom, case by case *)

Import GameQueries.

Lemma pickRoomCode_returns (env : Env) (remaining attempts : nat)
    (db db' : Store) (code : jsstring) :
  pickRoomCode env remaining attempts db = (Returns code, db') ->
  db' = db /\
  exists j, (attempts <= j < attempts + remaining)%nat /\
            code = generateRoomCode env j /\
            is_data (code_lookup env db j) = false /\
            forall i, (attempts <= i < j)%nat -> is_data (code_lookup env db i) = true.
Proof.
  revert attempts. induction remaining as [|n IH]; intros attempts H.
  - cbn in H. unfold throw in H. discriminate.
  - cbn [pickRoomCode] in H. unfold bind, DB.rooms_select_single in H.
    cbv beta iota in H. fold (code_lookup env db attempts) in H.
    destruct (code_lookup env db attempts) as [r|msg] eqn:E.
    + apply IH in H as (-> & j & Hj & Hc & Hfail & Hbefore).
      split; [reflexivity|]. exists j. split; [lia|]. split; [exact Hc|].
      split; [exact Hfail|]. intros i Hi.
      destruct (Nat.eq_dec i attempts) as [->|Hne]; [now rewrite E|].
      apply Hbefore. lia.
    + unfold ret in H. injection H as <- <-. split; [reflexivity|].
      exists attempts. split; [lia|]. split; [reflexivity|].
      split; [now rewrite E|]. intros i Hi. lia.
Qed.

Lemma pickRoomCode_throws (env : Env) (remaining attempts : nat)
    (db db' : Store) (e : Exn) :
  pickRoomCode env remaining attempts db = (Throws e, db') ->
  db' = db /\
  e = DatabaseException (lit "room creation")
                        (lit "Unable to generate unique room code") /\
  forall i, (attempts <= i < attempts + remaining)%nat ->
            is_data (code_lookup env db i) = true.
Proof.
  revert attempts. induction remaining as [|n IH]; intros attempts H.
  - cbn in H. unfold throw in H. injection H as <- <-.
    repeat split. intros i Hi. lia.
  - cbn [pickRoomCode] in H. unfold bind, DB.rooms_select_single in H.
    cbv beta iota in H. fold (code_lookup env db attempts) in H.
    destruct (code_lookup env db attempts) as [r|msg] eqn:E.
    + apply IH in H as (-> & -> & Hall). repeat split.
      intros i Hi.
      destruct (Nat.eq_dec i attempts) as [->|Hne]; [now rewrite E|].
      apply Hall. lia.
    + unfold ret in H. discriminate.
Qed.

Lemma pickRoomCode_exhausted (env : Env) (remaining attempts : nat) (db : Store) :
  (forall i, (attempts <= i < attempts + remaining)%nat ->
             is_data (code_lookup env db i) = true) ->
  pickRoomCode env remaining attempts db
  = (Throws (DatabaseException (lit "room creation")
                               (lit "Unable to generate unique room code")), db).
Proof.
  revert attempts. induction remaining as [|n IH]; intros attempts H.
  - reflexivity.
  - cbn [pickRoomCode]. unfold bind, DB.rooms_select_single.
    cbv beta iota. fold (code_lookup env db attempts).
    destruct (code_lookup env db attempts) as [r|msg] eqn:E.
    + apply IH. intros i Hi. apply H. lia.
    + specialize (H attempts ltac:(lia)). rewrite E in H. discriminate.
Qed.

Lemma existsb_code_false (code : jsstring) (l : list Room) :
  existsb (fun r' => streq (room_code r') code) l = false ->
  forall r, In r l -> room_code r <> code.
Proof.
  intros H r Hr E.
  assert (Ht : existsb (fun r' => streq (room_code r') code) l = true).
  { apply existsb_exists. exists r. split; [exact Hr|]. now apply streq_eq. }
  congruence.
Qed.

Lemma or_else_nonempty (value : option jsstring) (fallback : jsstring) :
  fallback <> [] -> or_else value fallback <> [].
Proof.
  intros H. destruct value as [[|u s]|]; cbn; auto. discriminate.
Qed.

Lemma defaultName_nonempty (socketId : jsstring) : defaultName socketId <> [].
Proof.
  unfold defaultName.
  change (lit "Player ") with (80 :: lit "layer ").
  discriminate.
Qed.

(** What a [createRoom] that returns has done. *)
Lemma createRoom_returns_inv (env : Env) (dto : CreateRoomDto)
    (socketId : jsstring) (db db' : Store) (room : Room) :
  createRoom env dto socketId db = (Returns room, db') ->
  exists j,
    (j < maxAttempts)%nat /\
    is_data (code_lookup env db j) = false /\
    (forall i, (i < j)%nat -> is_data (code_lookup env db i) = true) /\
    (forall r, In r (rooms db) -> room_code r <> generateRoomCode env j) /\
    room = mkRoom (next_id db) (generateRoomCode env j) (dto_side dto)
                  FIXED_STAKE TOTAL_POT waiting
                  (generateServerSeed (randomBytes env 32)) None 0 /\
    db' = after_create (generateRoomCode env j)
            (generateServerSeed (randomBytes env 32)) (dto_side dto) socketId
            (or_else (dto_playerName dto) (defaultName socketId)) db.
Proof.
  intros H.
  unfold createRoom, try_catch_M, bind in H.
  destruct (pickRoomCode env maxAttempts 0 db) as [[code|e] db1] eqn:Hpick.
  - apply pickRoomCode_returns in Hpick as (-> & j & Hj & -> & Hfail & Hbefore).
    unfold ret, throw, DB.rooms_insert, DB.players_insert in H.
    cbv beta iota in H. cbn [room_code] in H.
    destruct (served env InsertRoom); [|cbv beta iota in H; discriminate].
    destruct (existsb _ (rooms db)) eqn:Hex; [cbv beta iota in H; discriminate|].
    cbv beta iota in H. cbn [room_id players rooms games next_id] in H.
    destruct (served env InsertCreator).
    + cbv beta iota in H. injection H as <- <-.
      exists j. split; [lia|]. split; [exact Hfail|].
      split; [intros i Hi; apply Hbefore; lia|].
      split; [now apply existsb_code_false|]. split; reflexivity.
    + unfold DB.unreachable in H. cbv beta iota in H.
      destruct (DB.rooms_delete (served env RollbackRoom) _ _) as [[x|x] y];
        [|destruct x]; cbv beta iota in H; discriminate.
  - destruct e; discriminate.
Qed.

(** What a [createRoom] that throws has done. *)
Lemma createRoom_throws_inv (env : Env) (dto : CreateRoomDto)
    (socketId : jsstring) (db db' : Store) (e : Exn) :
  (forall p, In p (players db) -> player_room_id p <> next_id db) ->
  createRoom env dto socketId db = (Throws e, db') ->
  (exists operation details, e = DatabaseException operation details) /\
  (db' = db \/
   exists code,
     served env InsertCreator = false /\
     e = DatabaseException (lit "player creation") (lit "fetch failed") /\
     let added :=
       mkStore (rooms db ++ [mkRoom (next_id db) code (dto_side dto) FIXED_STAKE
                               TOTAL_POT waiting
                               (generateServerSeed (randomBytes env 32)) None 0])
               (players db) (games db) (N.succ (next_id db)) in
     db' = if served env RollbackRoom
           then without_room (next_id db) added
           else added).
Proof.
  intros Hfresh H.
  unfold createRoom, try_catch_M, bind in H.
  destruct (pickRoomCode env maxAttempts 0 db) as [[code|e0] db1] eqn:Hpick.
  - apply pickRoomCode_returns in Hpick as (-> & _).
    unfold ret, throw, DB.rooms_insert, DB.players_insert in H.
    cbv beta iota in H. cbn [room_code] in H.
    destruct (served env InsertRoom).
    + destruct (existsb _ (rooms db)) eqn:Hex.
      * cbv beta iota in H. injection H as <- <-. split; [eauto | now left].
      * cbv beta iota in H. cbn [room_id players rooms games next_id] in H.
        destruct (served env InsertCreator) eqn:Hcreator;
          [cbv beta iota in H; discriminate|].
        unfold DB.unreachable in H. cbv beta iota in H.
        destruct (served env RollbackRoom) eqn:Hroll.
        -- rewrite (rooms_delete_room (next_id db) _
                      (mkRoom (next_id db) code (dto_side dto) FIXED_STAKE
                         TOTAL_POT waiting
                         (generateServerSeed (randomBytes env 32)) None 0)) in H;
             [| cbn [rooms]; apply in_or_app; right; now left | reflexivity
              | cbn [players]; intros g q _ Hq _ Hroom;
                now elim (Hfresh q Hq)].
           cbv beta iota in H. injection H as <- <-.
           split; [eauto|]. right. exists code. auto.
        -- unfold DB.rooms_delete in H. cbv beta iota in H.
           injection H as <- <-.
           split; [eauto|]. right. exists code. auto.
    + unfold DB.unreachable in H. cbv beta iota in H.
      injection H as <- <-. split; [eauto | now left].
  - apply pickRoomCode_throws in Hpick as (-> & -> & _).
    cbv beta iota in H. unfold throw in H. injection H as <- <-.
    split; [eauto | now left].
Qed.

(** ** flipCoin and removePlayer, case by case *)

(** With no request lost, [flipCoin] throws and leaves the store alone,
    or throws after the reset of a completed room, or records the flip. *)
Lemma flipCoin_cases (env : Env) (roomId : Id) (db : Store) :
  reliable env ->
  (exists e, flipCoin env roomId db = (Throws e, db)) \/
  (exists e room,
     In room (rooms db) /\ room_id room = roomId /\ status room = completed /\
     flipCoin env roomId db = (Throws e, after_reset roomId db)) \/
  (exists room seed w,
     In room (rooms db) /\ room_id room = roomId /\
     (status room = full \/ status room = completed) /\
     room_client_seed room = Some seed /\ seed <> [] /\
     In w (players_in db roomId) /\
     side w = result (generateResult (room_server_seed room) seed
                                     (room_nonce room + 1)) /\
     flipCoin env roomId db
     = (Returns (outcome_of_flip (next_id db) room seed w),
        after_flip roomId (room_nonce room + 1)
          (game_of_flip (next_id db) room seed w)
          (match status room with
           | completed => after_reset roomId db
           | _ => db
           end))).
Proof.
  intros Hrel.
  destruct (flipCoin env roomId db) as [o db'] eqn:H.
  unfold_flip H. rewrite !Hrel in H.
  repeat case_split H.
  all: cbv beta iota in H; injection H as <- <-.
  all: try (left; eexists; reflexivity).
  all: match goal with
       | Hf : filter (fun r => (room_id r =? _) && _) _ = [_] |- _ =>
           pose proof (filter_singleton _ _ _ Hf) as [Hin Hp];
           apply andb_true_iff in Hp as [Hid Hst];
           apply N.eqb_eq in Hid;
           apply orb_true_iff in Hst;
           rewrite !status_eqb_eq in Hst
       end.
  all: try match goal with
       | Hm : map (set_status full) _ = [_], Hr0 : In ?r _ |- _ =>
           apply map_singleton in Hm as (x & Hx & ->);
           assert (x = r) by
             (assert (Hr : In r [x]) by
                (rewrite <- Hx; apply filter_In; split;
                   [assumption | now apply N.eqb_eq]);
              destruct Hr as [Hr|[]]; exact Hr);
           subst x
       end.
  all: match goal with
       | Hc : status_eqb (status ?r) completed = true |- _ =>
           apply status_eqb_eq in Hc
       | Hc : status_eqb (status ?r) completed = false |- _ =>
           assert (status r = full) by
             (destruct Hst as [Hst|Hst]; [exact Hst|];
              rewrite Hst in Hc; discriminate);
           clear Hc
       end.
  all: try (right; left; do 2 eexists;
            split; [eassumption|]; split; [eassumption|];
            split; [eassumption|]; reflexivity).
  all: right; right.
  all: match goal with
       | Hc : room_client_seed _ = Some (?u :: ?cs),
         Hw : find _ _ = Some ?w, Hr0 : In ?r _ |- _ =>
           exists r, (u :: cs), w;
           apply find_some in Hw as [Hwin Hws]; apply side_eqb_eq in Hws
       end.
  all: cbn [set_status room_client_seed room_server_seed room_nonce
            room_total_pot] in *.
  all: repeat (split; [first [assumption | discriminate]|]).
  all: match goal with
       | Hs : status ?r = _ |- _ => rewrite Hs
       end.
  all: unfold outcome_of_flip, game_of_flip, after_flip, after_reset;
       cbn [set_status room_id room_server_seed room_nonce room_total_pot
            rooms players games next_id];
       match goal with Hi : room_id _ = _ |- _ => rewrite Hi end;
       reflexivity.
Qed.

(** ** Every operation makes one of the changes of [built] *)

Lemma createRoom_built (env : Env) (dto : CreateRoomDto) (socketId : jsstring)
    (db : Store) :
  reliable env -> wf db -> built db ->
  built (snd (createRoom env dto socketId db)).
Proof.
  intros Hrel Hwf Hb.
  destruct (createRoom env dto socketId db) as [[room|e] db'] eqn:H; cbn [snd].
  - apply createRoom_returns_inv in H as (j & _ & _ & _ & Hfree & _ & ->).
    apply built_create; [exact Hb | exact Hfree |].
    apply or_else_nonempty, defaultName_nonempty.
  - apply createRoom_throws_inv in H as [_ [-> | (code & Hlost & _)]];
      [exact Hb | |].
    + rewrite Hrel in Hlost. discriminate.
    + intros p Hp E. destruct (wf_owner db Hwf p Hp) as (r & Hr & Hid).
      pose proof (wf_room_ids db Hwf r Hr). lia.
Qed.

Lemma joinRoom_built (env : Env) (dto : JoinRoomDto) (socketId : jsstring)
    (db : Store) :
  reliable env -> built db -> built (snd (joinRoom env dto socketId db)).
Proof.
  intros Hrel Hb.
  destruct (joinRoom env dto socketId db) as [[[room' player]|e] db'] eqn:H;
    cbn [snd].
  - apply joinRoom_returns_inv in H as (room & Hroom & _ & -> & _ & ->).
    apply filter_singleton in Hroom as [Hin Hp].
    apply andb_true_iff in Hp as [_ Hst]. apply status_eqb_eq in Hst.
    apply built_join; auto.
    apply or_else_nonempty, defaultName_nonempty.
  - apply joinRoom_throws_store in H; [now subst | exact Hrel].
Qed.

Lemma in_after_reset (room : Room) (db : Store) :
  In room (rooms db) ->
  In (set_status full room) (rooms (after_reset (room_id room) db)).
Proof.
  intros Hin. unfold after_reset. cbn [rooms].
  apply in_map_iff. exists room. now rewrite N.eqb_refl.
Qed.

Lemma flipCoin_built (env : Env) (roomId : Id) (db : Store) :
  reliable env -> built db -> built (snd (flipCoin env roomId db)).
Proof.
  intros Hrel Hb.
  destruct (flipCoin_cases env roomId db Hrel)
    as [(e & ->) | [(e & room & Hin & <- & Hst & ->)
                   | (room & seed & w & Hin & <- & Hst & Hseed & Hne & Hw
                      & Hside & ->)]];
    cbn [snd].
  - exact Hb.
  - now apply (built_reset db room).
  - destruct Hst as [Hst|Hst]; rewrite Hst.
    + now apply (built_flip db room seed w).
    + apply (built_flip (after_reset (room_id room) db) (set_status full room)
               seed w); auto.
      * now apply (built_reset db room).
      * now apply in_after_reset.
Qed.

(** Whether a game names a player as its winner. *)
Lemma winner_or_not (db : Store) (p : Player) :
  (exists g, In g (games db) /\ winner_player_id g = player_id p) \/
  (forall g, In g (games db) -> winner_player_id g <> player_id p).
Proof.
  destruct (DB.names_winner (games db) p) eqn:E.
  - left. apply existsb_exists in E as (g & Hg & E).
    exists g. split; [exact Hg | now apply N.eqb_eq].
  - right. now apply names_winner_false.
Qed.

Lemma removePlayer_built (env : Env) (socketId : jsstring) (db : Store) :
  reliable env -> wf db -> store_invariant db -> built db ->
  built (snd (removePlayer env socketId db)).
Proof.
  intros Hrel Hwf Hinv Hb.
  destruct (players_on db socketId) as [|p [|p' l]] eqn:Hp.
  - rewrite removePlayer_unmatched; [exact Hb|].
    intros q. rewrite Hp. discriminate.
  - assert (Hpin : In p (players db)).
    { assert (H : In p (players_on db socketId)) by (rewrite Hp; now left).
      now apply filter_In in H. }
    destruct (is_creator p) eqn:Hc.
    + destruct (wf_owner db Hwf p Hpin) as (r & Hr & Hid).
      rewrite (removePlayer_creator env socketId db p r); auto.
      * now apply built_drop_room.
      * intros g q Hg Hq Hw Hroom.
        destruct (inv_winner db Hinv g q Hg Hq (eq_sym Hw)) as [E _].
        congruence.
    + destruct (winner_or_not db p) as [(g & Hg & Hw) | Hfree].
      * rewrite (removePlayer_joiner_winner env socketId db p g); auto.
      * rewrite (removePlayer_joiner env socketId db p); auto.
        now apply (built_drop_player db socketId p).
  - rewrite removePlayer_unmatched; [exact Hb|].
    intros q. rewrite Hp. discriminate.
Qed.

Lemma built_wf (db : Store) : built db -> wf db.
Proof.
  induction 1 as [| db code seed s sock pname Hb IH Hfree Hname
                  | db room seed sock pname Hb IH Hin Hst Hname
                  | db room Hb IH Hin Hst
                  | db room seed w Hb IH Hin Hst Hseed Hne Hw Hside
                  | db p Hb IH Hin Hc
                  | db sock p Hb IH Hp Hc].
  - apply wf_empty.
  - now apply wf_after_create.
  - now apply wf_after_join.
  - apply (wf_evolve db _
             (fun r => if room_id r =? room_id room then set_status full r else r));
      [exact IH | benign_tac | reflexivity | reflexivity
      | cbn [after_reset next_id]; lia | intros g Hg; now left].
  - apply (wf_evolve db _
             (fun r => if room_id r =? room_id room
                       then set_nonce (room_nonce room + 1) (set_status completed r)
                       else r));
      [exact IH | benign_tac | reflexivity | reflexivity
      | cbn [after_flip next_id]; lia |].
    intros g Hg. cbn [after_flip games] in Hg.
    apply in_app_or in Hg as [Hg|[<-|[]]]; [now left|].
    right. exists room. cbn [game_of_flip game_room_id game_server_seed
                             game_client_seed].
    repeat split; auto. rewrite Hst. discriminate.
  - now apply wf_without_room.
  - now apply (wf_without_socket sock db p).
Qed.

(** ** What holds of every built store *)

Lemma nonces_up_to_succ (n : N) :
  nonces_up_to (n + 1) = nonces_up_to n ++ [n + 1].
Proof.
  unfold nonces_up_to.
  replace (N.to_nat (n + 1)) with (S (N.to_nat n)) by lia.
  rewrite seq_S, map_app. cbn [map]. do 2 f_equal. lia.
Qed.

Lemma room_code_filter (keep : Room -> bool) (rs : list Room) :
  NoDup (map room_code rs) -> NoDup (map room_code (filter keep rs)).
Proof.
  induction rs as [|a rs IH]; intros H; [constructor|].
  cbn in H. inversion H as [|? ? Hn Hnd]; subst.
  cbn [filter]. destruct (keep a); [|now apply IH].
  cbn [map]. constructor; [|now apply IH].
  intros Hin. apply Hn. apply in_map_iff in Hin as (x & Hx & Hxl).
  apply filter_In in Hxl as [Hxl _]. rewrite <- Hx. now apply in_map.
Qed.

Lemma player_key_filter (keep : Player -> bool) (ps : list Player) :
  NoDup (map player_id ps) -> NoDup (map player_id (filter keep ps)).
Proof.
  induction ps as [|a ps IH]; intros H; [constructor|].
  cbn in H. inversion H as [|? ? Hn Hnd]; subst.
  cbn [filter]. destruct (keep a); [|now apply IH].
  cbn [map]. constructor; [|now apply IH].
  intros Hin. apply Hn. apply in_map_iff in Hin as (x & Hx & Hxl).
  apply filter_In in Hxl as [Hxl _]. rewrite <- Hx. now apply in_map.
Qed.

Lemma codes_patch (f : Room -> Room) (roomId : Id) (rs : list Room) :
  (forall r, room_code (f r) = room_code r) ->
  map room_code (map (fun r => if room_id r =? roomId then f r else r) rs)
  = map room_code rs.
Proof.
  intros Hf. rewrite map_map. apply map_ext. intros r.
  destruct (room_id r =? roomId); [apply Hf | reflexivity].
Qed.

(** No game belongs to the room that would be created next. *)
Lemma games_of_fresh (db : Store) : wf db -> games_of db (next_id db) = [].
Proof.
  intros Hwf. apply filter_none. intros g Hg. apply N.eqb_neq. intros E.
  destruct (wf_game_room db Hwf g Hg) as (r & Hr & Hid & _).
  pose proof (wf_room_ids db Hwf r Hr). lia.
Qed.

(** The row with the key of a room is the room. *)
Lemma same_key (db : Store) (r room : Room) :
  wf db -> In r (rooms db) -> In room (rooms db) ->
  (room_id r =? room_id room) = true -> r = room.
Proof.
  intros Hwf Hr Hroom E. apply N.eqb_eq in E.
  exact (NoDup_map_inj room_id (rooms db) r room (wf_room_key db Hwf) Hr Hroom E).
Qed.

Lemma game_of_flip_sound (id : Id) (room : Room) (seed : jsstring) (w : Player) :
  game_sound (game_of_flip id room seed w).
Proof.
  unfold game_sound, game_of_flip.
  cbn [game_server_seed game_client_seed game_nonce hash_result flip_result
       winner_side is_verified].
  split; [|split; reflexivity].
  apply verifyResult_true_iff. split; reflexivity.
Qed.

Lemma invariant_empty : store_invariant empty_store.
Proof.
  constructor; cbn; try constructor; intros; contradiction.
Qed.

Lemma invariant_after_create (code seed : jsstring) (s : CoinSide)
    (socketId playerName : jsstring) (db : Store) :
  wf db -> store_invariant db ->
  (forall r, In r (rooms db) -> room_code r <> code) -> playerName <> [] ->
  store_invariant (after_create code seed s socketId playerName db).
Proof.
  intros Hwf Hinv Hfree Hname. unfold after_create.
  constructor; cbn [rooms players games next_id].
  - rewrite map_app. cbn [map room_code].
    apply NoDup_app;
      [apply (inv_codes db Hinv) | repeat constructor; intros [] |].
    intros x Hx [<-|[]]. apply in_map_iff in Hx as (r & Hc & Hr).
    now apply (Hfree r).
  - intros r Hr. apply in_app_or in Hr as [Hr|[<-|[]]].
    + now apply (inv_stage db Hinv).
    + left. cbn. auto.
  - intros r Hr Hst. apply in_app_or in Hr as [Hr|[<-|[]]].
    + now apply (inv_completed db Hinv).
    + discriminate.
  - intros r Hr. apply in_app_or in Hr as [Hr|[<-|[]]].
    + apply (inv_nonces db Hinv r Hr).
    + cbn [room_id room_nonce].
      change (map game_nonce (games_of db (next_id db)) = []).
      now rewrite games_of_fresh.
  - apply (inv_games db Hinv).
  - intros p Hp. apply in_app_or in Hp as [Hp|[<-|[]]];
      [now apply (inv_names db Hinv) | exact Hname].
  - intros p Hp. apply in_app_or in Hp as [Hp|[<-|[]]];
      [pose proof (inv_player_ids db Hinv p Hp) | cbn [player_id]]; lia.
  - rewrite map_app. cbn [map player_id].
    apply NoDup_app;
      [apply (inv_player_key db Hinv) | repeat constructor; intros [] |].
    intros x Hx [<-|[]]. apply in_map_iff in Hx as (p & Hid & Hp).
    pose proof (inv_player_ids db Hinv p Hp). lia.
  - intros g Hg. pose proof (inv_winner_ids db Hinv g Hg). lia.
  - intros g p Hg Hp Hid. apply in_app_or in Hp as [Hp|[<-|[]]].
    + now apply (inv_winner db Hinv g p).
    + cbn [player_id] in Hid. pose proof (inv_winner_ids db Hinv g Hg). lia.
Qed.

Lemma invariant_after_join (room : Room) (seed socketId playerName : jsstring)
    (db : Store) :
  wf db -> store_invariant db ->
  In room (rooms db) -> status room = waiting -> playerName <> [] ->
  store_invariant
    (after_join room seed
       (mkPlayer (next_id db) (room_id room) socketId playerName
                 (Spec.opposite (creator_side room)) false FIXED_STAKE true)
       db).
Proof.
  intros Hwf Hinv Hin Hst Hname. unfold after_join.
  constructor; cbn [rooms players games next_id].
  - rewrite codes_patch by reflexivity. apply (inv_codes db Hinv).
  - intros r' Hr'. apply in_map_iff in Hr' as (r & <- & Hr).
    destruct (room_id r =? room_id room) eqn:E.
    + right. cbn. split; [now left | eauto].
    + now apply (inv_stage db Hinv).
  - intros r' Hr' Hc. apply in_map_iff in Hr' as (r & <- & Hr).
    destruct (room_id r =? room_id room) eqn:E; [discriminate Hc|].
    now apply (inv_completed db Hinv).
  - intros r' Hr'. apply in_map_iff in Hr' as (r & <- & Hr).
    destruct (room_id r =? room_id room);
      exact (inv_nonces db Hinv r Hr).
  - apply (inv_games db Hinv).
  - intros p Hp. apply in_app_or in Hp as [Hp|[<-|[]]];
      [now apply (inv_names db Hinv) | exact Hname].
  - intros p Hp. apply in_app_or in Hp as [Hp|[<-|[]]];
      [pose proof (inv_player_ids db Hinv p Hp) | cbn [player_id]]; lia.
  - rewrite map_app. cbn [map player_id].
    apply NoDup_app;
      [apply (inv_player_key db Hinv) | repeat constructor; intros [] |].
    intros x Hx [<-|[]]. apply in_map_iff in Hx as (p & Hid & Hp).
    pose proof (inv_player_ids db Hinv p Hp). lia.
  - intros g Hg. pose proof (inv_winner_ids db Hinv g Hg). lia.
  - intros g p Hg Hp Hid. apply in_app_or in Hp as [Hp|[<-|[]]].
    + now apply (inv_winner db Hinv g p).
    + cbn [player_id] in Hid. pose proof (inv_winner_ids db Hinv g Hg). lia.
Qed.

Lemma invariant_after_reset (room : Room) (db : Store) :
  wf db -> store_invariant db ->
  In room (rooms db) -> status room = completed ->
  store_invariant (after_reset (room_id room) db).
Proof.
  intros Hwf Hinv Hin Hst. unfold after_reset.
  constructor; cbn [rooms players games next_id];
    try solve [apply Hinv].
  - rewrite codes_patch by reflexivity. apply (inv_codes db Hinv).
  - intros r' Hr'. apply in_map_iff in Hr' as (r & <- & Hr).
    destruct (room_id r =? room_id room) eqn:E;
      [|now apply (inv_stage db Hinv)].
    rewrite (same_key db r room Hwf Hr Hin E).
    destruct (inv_stage db Hinv room Hin) as [(Hw & _) | (_ & Hseed)];
      [congruence|].
    right. split; [now left | exact Hseed].
  - intros r' Hr' Hc. apply in_map_iff in Hr' as (r & <- & Hr).
    destruct (room_id r =? room_id room) eqn:E; [discriminate Hc|].
    now apply (inv_completed db Hinv).
  - intros r' Hr'. apply in_map_iff in Hr' as (r & <- & Hr).
    destruct (room_id r =? room_id room);
      exact (inv_nonces db Hinv r Hr).
Qed.

Lemma invariant_after_flip (room : Room) (seed : jsstring) (w : Player)
    (db : Store) :
  wf db -> store_invariant db ->
  In room (rooms db) -> status room = full ->
  room_client_seed room = Some seed ->
  In w (players_in db (room_id room)) ->
  side w = result (generateResult (room_server_seed room) seed
                                  (room_nonce room + 1)) ->
  store_invariant
    (after_flip (room_id room) (room_nonce room + 1)
       (game_of_flip (next_id db) room seed w) db).
Proof.
  intros Hwf Hinv Hin Hst Hseed Hw Hside.
  apply filter_In in Hw as [Hw Hwroom]. apply N.eqb_eq in Hwroom.
  unfold after_flip.
  constructor; cbn [rooms players games next_id].
  - rewrite codes_patch by reflexivity. apply (inv_codes db Hinv).
  - intros r' Hr'. apply in_map_iff in Hr' as (r & <- & Hr).
    destruct (room_id r =? room_id room) eqn:E;
      [|now apply (inv_stage db Hinv)].
    rewrite (same_key db r room Hwf Hr Hin E).
    right. split; [now right | now exists seed].
  - intros r' Hr' Hc. apply in_map_iff in Hr' as (r & <- & Hr).
    destruct (room_id r =? room_id room) eqn:E;
      [cbn [set_nonce room_nonce]; lia | now apply (inv_completed db Hinv)].
  - intros r' Hr'. apply in_map_iff in Hr' as (r & <- & Hr).
    unfold games_of. cbn [games]. rewrite filter_app, map_app.
    destruct (room_id r =? room_id room) eqn:E.
    + rewrite (same_key db r room Hwf Hr Hin E).
      cbn [set_nonce set_status room_id room_nonce filter game_of_flip
           game_room_id].
      rewrite N.eqb_refl. cbn [map game_nonce].
      rewrite nonces_up_to_succ. f_equal.
      exact (inv_nonces db Hinv room Hin).
    + cbn [filter game_of_flip game_room_id].
      replace (room_id room =? room_id r) with false
        by (symmetry; rewrite N.eqb_sym; exact E).
      cbn [map]. rewrite app_nil_r.
      exact (inv_nonces db Hinv r Hr).
  - intros g Hg. apply in_app_or in Hg as [Hg|[<-|[]]];
      [now apply (inv_games db Hinv) | apply game_of_flip_sound].
  - apply (inv_names db Hinv).
  - intros p Hp. pose proof (inv_player_ids db Hinv p Hp). lia.
  - apply (inv_player_key db Hinv).
  - intros g Hg. apply in_app_or in Hg as [Hg|[<-|[]]].
    + pose proof (inv_winner_ids db Hinv g Hg). lia.
    + cbn [game_of_flip winner_player_id].
      pose proof (inv_player_ids db Hinv w Hw). lia.
  - intros g p Hg Hp Hid. apply in_app_or in Hg as [Hg|[<-|[]]].
    + now apply (inv_winner db Hinv g p).
    + cbn [game_of_flip winner_player_id game_room_id winner_side] in *.
      assert (p = w) as ->
        by exact (NoDup_map_inj player_id (players db) p w
                    (inv_player_key db Hinv) Hp Hw Hid).
      split; [exact Hwroom | exact Hside].
Qed.

Lemma invariant_without_room (roomId : Id) (db : Store) :
  store_invariant db -> store_invariant (without_room roomId db).
Proof.
  intros Hinv. unfold without_room.
  constructor; cbn [rooms players games next_id].
  - apply room_code_filter, (inv_codes db Hinv).
  - intros r Hr. apply filter_In in Hr as [Hr _]. now apply (inv_stage db Hinv).
  - intros r Hr. apply filter_In in Hr as [Hr _].
    now apply (inv_completed db Hinv).
  - intros r Hr. apply filter_In in Hr as [Hr Hne].
    rewrite <- (inv_nonces db Hinv r Hr). f_equal.
    unfold games_of. cbn [games]. rewrite filter_comm.
    apply filter_all. intros g Hg. apply filter_In in Hg as [_ Hg].
    apply N.eqb_eq in Hg. now rewrite Hg.
  - intros g Hg. apply filter_In in Hg as [Hg _]. now apply (inv_games db Hinv).
  - intros p Hp. apply filter_In in Hp as [Hp _]. now apply (inv_names db Hinv).
  - intros p Hp. apply filter_In in Hp as [Hp _].
    now apply (inv_player_ids db Hinv).
  - apply player_key_filter, (inv_player_key db Hinv).
  - intros g Hg. apply filter_In in Hg as [Hg _].
    now apply (inv_winner_ids db Hinv).
  - intros g p Hg Hp. apply filter_In in Hg as [Hg _].
    apply filter_In in Hp as [Hp _]. now apply (inv_winner db Hinv).
Qed.

Lemma invariant_without_socket (socketId : jsstring) (db : Store) :
  store_invariant db -> store_invariant (without_socket socketId db).
Proof.
  intros Hinv. unfold without_socket.
  constructor; cbn [rooms players games next_id];
    try solve [apply Hinv].
  - intros p Hp. apply filter_In in Hp as [Hp _]. now apply (inv_names db Hinv).
  - intros p Hp. apply filter_In in Hp as [Hp _].
    now apply (inv_player_ids db Hinv).
  - apply player_key_filter, (inv_player_key db Hinv).
  - intros g p Hg Hp. apply filter_In in Hp as [Hp _].
    now apply (inv_winner db Hinv).
Qed.

Lemma built_invariant (db : Store) : built db -> store_invariant db.
Proof.
  intros Hb.
  induction Hb as [| db code seed s sock pname Hb IH Hfree Hname
                   | db room seed sock pname Hb IH Hin Hst Hname
                   | db room Hb IH Hin Hst
                   | db room seed w Hb IH Hin Hst Hseed Hne Hw Hside
                   | db p Hb IH Hin Hc
                   | db sock p Hb IH Hp Hc];
    try pose proof (built_wf db Hb) as Hwf.
  - apply invariant_empty.
  - now apply invariant_after_create.
  - now apply invariant_after_join.
  - now apply invariant_after_reset.
  - now apply invariant_after_flip.
  - now apply invariant_without_room.
  - now apply invariant_without_socket.
Qed.

(** Every store the operations reach is built by the changes of
    [built]. *)
Lemma reachable_built (db : Store) : reachable db -> built db.
Proof.
  intros Hreach.
  induction Hreach as [|op db Hreach IH Hrel]; [constructor|].
  pose proof (built_wf db IH) as Hwf.
  pose proof (built_invariant db IH) as Hinv.
  destruct op as [env dto s | env dto s | env rid | env s]; cbn [exec env_of] in *.
  - now apply createRoom_built.
  - now apply joinRoom_built.
  - now apply flipCoin_built.
  - now apply removePlayer_built.
Qed.

(** Every store the operations build satisfies the invariants. *)
Lemma reachable_wf (db : Store) : reachable db -> wf db.
Proof. intros H. now apply built_wf, reachable_built. Qed.

Lemma reachable_invariant (db : Store) : reachable db -> store_invariant db.
Proof. intros H. now apply built_invariant, reachable_built. Qed.


(** ** The state machine as a whole *)

(** The sample run: after the first flip the room is completed with
    nonce 1 and one game; the replay leaves nonce 2 and two games; the
    creator leaving empties the store. *)
Example sample_flipped :
  map status (rooms Sample.flipped) = [completed] /\
  map room_nonce (rooms Sample.flipped) = [1] /\
  map game_nonce (games Sample.flipped) = [1].
Proof. vm_compute. repeat split. Qed.

Example sample_replayed :
  map status (rooms Sample.replayed) = [completed] /\
  map room_nonce (rooms Sample.replayed) = [2] /\
  map game_nonce (games Sample.replayed) = [1; 2] /\
  map game_server_seed (games Sample.replayed)
  = map room_server_seed (rooms Sample.replayed ++ rooms Sample.replayed).
Proof. vm_compute. repeat split. Qed.

Example sample_creator_left : Sample.creator_left = mkStore [] [] [] 4.
Proof. vm_compute. reflexivity. Qed.

Lemma sample_env_reliable : reliable Sample.env.
Proof. intros q. reflexivity. Qed.

Lemma sample_flipped_reachable : reachable Sample.flipped.
Proof.
  unfold Sample.flipped, Sample.joined, Sample.created.
  repeat (apply reachable_step; [|exact sample_env_reliable]).
  apply reachable_empty.
Qed.

(** In every store the operations build when no request is lost, and
    again after any of [createRoom], [joinRoom], [flipCoin] and
    [removePlayer] with no request lost, every room has at most two
    players, and two players of a room hold opposite sides. *)
Theorem operations_keep_two_opposite_players (db : Store) (op : Op) :
  reachable db -> reliable (env_of op) ->
  at_most_two_opposite db /\ at_most_two_opposite (exec op db).
Proof.
  intros Hreach Hrel. split; apply wf_invariant, reachable_wf.
  - exact Hreach.
  - now apply reachable_step.
Qed.

Lemma operations_keep_two_opposite_players_witness :
  at_most_two_opposite Sample.flipped /\
  at_most_two_opposite (exec (FlipCoin Sample.env 0) Sample.flipped).
Proof.
  apply (operations_keep_two_opposite_players Sample.flipped (FlipCoin Sample.env 0)).
  - exact sample_flipped_reachable.
  - exact sample_env_reliable.
Defined.

(** C7, where the code departs from it. A [joinRoom] whose update of
    the room is lost throws after the joiner is in, and does not take the
    joiner back as [createRoom] takes its room back: the room still
    waits, with two players. The next [joinRoom], when its listing of the
    players is lost, skips the count, returns, and leaves the room with
    three players, two of them on tails. With the listing served the same
    call is refused for a full room. *)
Theorem joinRoom_adds_third_player :
  map side (players_in Sample.created 0) = [heads] /\
  (exists e,
     joinRoom Faulty.full_mark_lost (mkJoinRoomDto (lit "ABCDEF") None)
              (lit "sock-B") Sample.created = (Throws e, Faulty.half_joined)) /\
  map status (rooms Faulty.half_joined) = [waiting] /\
  map side (players_in Faulty.half_joined 0) = [heads; tails] /\
  (exists room' player,
     joinRoom Faulty.listing_lost (mkJoinRoomDto (lit "ABCDEF") None)
              (lit "sock-C") Faulty.half_joined
     = (Returns (room', player), Faulty.crowded) /\
     side player = tails /\ status room' = full) /\
  map side (players_in Faulty.crowded 0) = [heads; tails; tails] /\
  ~ at_most_two_opposite Faulty.crowded /\
  joinRoom Sample.env (mkJoinRoomDto (lit "ABCDEF") None) (lit "sock-C")
           Faulty.half_joined
  = (Throws (RoomFullException (lit "ABCDEF")), Faulty.half_joined).
Proof.
  split; [vm_compute; reflexivity|].
  split; [eexists; vm_compute; reflexivity|].
  split; [vm_compute; reflexivity|].
  split; [vm_compute; reflexivity|].
  split; [eexists; eexists; vm_compute; repeat split|].
  split; [vm_compute; reflexivity|].
  split; [|vm_compute; reflexivity].
  intros H. destruct (H 0) as [Hlen _].
  assert (E : List.length (players_in Faulty.crowded 0) = 3%nat)
    by (vm_compute; reflexivity).
  rewrite E in Hlen. lia.
Qed.

Lemma set_nonce_completed (n : N) (room : Room) :
  status room = completed ->
  set_nonce n (set_status completed (set_status full room)) = set_nonce n room.
Proof. destruct room; cbn; intros ->; reflexivity. Qed.

(** C3. In a completed room with a client seed and two players of
    opposite sides, [flipCoin] returns when no request is lost. It first
    resets the room to full, and the flip is the flip of the room so
    reset; it records one new game, for the room's nonce plus one and
    with the room's server and client seed; it leaves the room completed
    with that nonce and its seeds as they were. In a store the operations
    have built, every earlier game of the room carries the same seeds as
    the new one. The reset is a write of [flipCoin] itself, made before
    anything is resolved: when the request of the reset is lost the call
    throws and records no game, and when only the last update is lost the
    game is recorded and the room is left full, with its old nonce. *)
Theorem flipCoin_replay (env : Env) (roomId : Id) (db : Store) (room : Room)
    (seed : jsstring) (p1 p2 : Player) :
  reliable env ->
  room_with_id db roomId = [room] ->
  status room = completed ->
  room_client_seed room = Some seed -> seed <> [] ->
  players_in db roomId = [p1; p2] ->
  side p2 = Spec.opposite (side p1) ->
  exists out db2,
    flipCoin env roomId db = (Returns out, db2) /\
    resetRoomForReplay env roomId db = (Returns tt, after_reset roomId db) /\
    room_with_id (after_reset roomId db) roomId = [set_status full room] /\
    flipCoin env roomId db = flipCoin env roomId (after_reset roomId db) /\
    games db2 = games db ++ [out_game out] /\
    game_room_id (out_game out) = roomId /\
    game_nonce (out_game out) = room_nonce room + 1 /\
    game_server_seed (out_game out) = room_server_seed room /\
    game_client_seed (out_game out) = seed /\
    room_with_id db2 roomId = [set_nonce (room_nonce room + 1) room] /\
    status (set_nonce (room_nonce room + 1) room) = completed /\
    players db2 = players db /\
    (reachable db ->
     forall g0, In g0 (games db) -> game_room_id g0 = roomId ->
                game_server_seed g0 = game_server_seed (out_game out) /\
                game_client_seed g0 = game_client_seed (out_game out)) /\
    (forall lossy,
       served lossy FindRoom = true -> served lossy ResetRoom = false ->
       flipCoin lossy roomId db
       = (Throws (Error (lit "Failed to reset room for replay: "
                         ++ lit "fetch failed")), db)) /\
    (forall lossy,
       served lossy FindRoom = true -> served lossy ResetRoom = true ->
       served lossy RefetchRoom = true -> served lossy ListPlayers = true ->
       served lossy InsertGame = true -> served lossy MarkCompleted = false ->
       exists db1,
         flipCoin lossy roomId db = (Returns out, db1) /\
         room_with_id db1 roomId = [set_status full room] /\
         status (set_status full room) = full /\
         room_nonce (set_status full room) = room_nonce room /\
         games db1 = games db ++ [out_game out] /\
         players db1 = players db).
Proof.
  intros Hrel Hroom Hst Hseed Hne Hpl Hopp.
  pose proof (room_with_id_id _ _ _ Hroom) as Hid.
  pose proof (room_with_id_after_reset roomId db) as Hreset.
  rewrite Hroom in Hreset. cbn [map] in Hreset.
  destruct (find_side_opposite p1 p2
              (result (generateResult (room_server_seed room) seed
                                      (room_nonce room + 1))) Hopp)
    as (w & Hw & _ & _).
  pose proof (flipCoin_completed env roomId db room seed p1 p2
                (Hrel _) (Hrel _) (Hrel _) (Hrel _) (Hrel _) (Hrel _)
                Hroom Hst Hseed Hne Hpl) as Hflip.
  rewrite Hw in Hflip.
  pose proof (flipCoin_full env roomId (after_reset roomId db)
                (set_status full room) seed p1 p2
                (Hrel _) (Hrel _) (Hrel _) (Hrel _)
                Hreset eq_refl Hseed Hne Hpl) as Hflip'.
  cbn [set_status room_server_seed room_nonce] in Hflip'.
  rewrite Hw in Hflip'.
  eexists. eexists. split; [exact Hflip|].
  split.
  { unfold resetRoomForReplay, bind, ret, DB.rooms_update. now rewrite Hrel. }
  split; [exact Hreset|].
  split; [now rewrite Hflip, Hflip'|].
  cbn [outcome_of_flip out_game game_of_flip game_room_id game_nonce
       game_server_seed game_client_seed set_status room_id room_nonce
       room_server_seed after_flip after_reset games players].
  split; [reflexivity|]. split; [exact Hid|].
  split; [reflexivity|]. split; [reflexivity|]. split; [reflexivity|].
  split.
  { unfold room_with_id, after_flip. cbn [rooms].
    rewrite (filter_map_patch roomId
               (fun r => set_nonce (room_nonce room + 1) (set_status completed r)))
      by reflexivity.
    fold (after_reset roomId db).
    change (filter (fun r => room_id r =? roomId) (rooms (after_reset roomId db)))
      with (room_with_id (after_reset roomId db) roomId).
    rewrite Hreset. cbn [map]. now rewrite set_nonce_completed. }
  split; [cbn [set_nonce status]; exact Hst|].
  split; [reflexivity|].
  split; [|split].
  - intros Hreach g0 Hg0 Hg0room.
    destruct (wf_game_room db (reachable_wf db Hreach) g0 Hg0)
      as (r & Hr & Hrid & _ & Hss & Hcs).
    assert (r = room).
    { assert (Hin : In r (room_with_id db roomId)).
      { apply filter_In. split; [exact Hr|]. apply N.eqb_eq. congruence. }
      rewrite Hroom in Hin. destruct Hin as [Hin|[]]. now symmetry. }
    subst r. rewrite Hseed in Hcs. injection Hcs as Hcs.
    split; [exact Hss | now symmetry].
  - intros lossy S1 S2.
    now apply (flipCoin_completed_unreset lossy roomId db room).
  - intros lossy S1 S2 S3 S4 S5 S6.
    pose proof (flipCoin_completed_unmarked lossy roomId db room seed p1 p2
                  S1 S2 S3 S4 S5 S6 Hroom Hst Hseed Hne Hpl) as Hlost.
    rewrite Hw in Hlost.
    eexists. split; [exact Hlost|].
    split; [exact Hreset|].
    split; [reflexivity|]. split; [destruct room; reflexivity|].
    split; reflexivity.
Qed.

Lemma flipCoin_replay_witness :
  exists out db2,
    flipCoin Sample.env 0 Sample.flipped = (Returns out, db2) /\
    games db2 = games Sample.flipped ++ [out_game out] /\
    game_nonce (out_game out) = 2 /\
    (forall g0, In g0 (games Sample.flipped) ->
                game_server_seed g0 = game_server_seed (out_game out) /\
                game_client_seed g0 = game_client_seed (out_game out)) /\
    (exists e, flipCoin Faulty.reset_lost 0 Sample.flipped
               = (Throws e, Sample.flipped)) /\
    (exists db1,
       flipCoin Faulty.completed_mark_lost 0 Sample.flipped = (Returns out, db1) /\
       map status (room_with_id db1 0) = [full] /\
       map room_nonce (room_with_id db1 0) = [1]).
Proof.
  destruct (flipCoin_replay Sample.env 0 Sample.flipped
              (mkRoom 0 (lit "ABCDEF") heads 10 20 completed
                 (generateServerSeed (randomBytes Sample.env 32))
                 (Some (generateClientSeed (randomBytes Sample.env 16))) 1)
              (generateClientSeed (randomBytes Sample.env 16))
              (mkPlayer 1 0 (lit "sock-A") (lit "Player sock") heads true 10 true)
              (mkPlayer 2 0 (lit "sock-B") (lit "Player sock") tails false 10 true))
    as (out & db2 & Hflip & _ & _ & _ & Hgames & _ & Hnonce & _ & _ & _ & _ & _
        & Hold & Hunreset & Hunmarked).
  - exact sample_env_reliable.
  - vm_compute. reflexivity.
  - reflexivity.
  - reflexivity.
  - vm_compute. discriminate.
  - vm_compute. reflexivity.
  - reflexivity.
  - exists out, db2. split; [exact Hflip|]. split; [exact Hgames|].
    split; [exact Hnonce|]. split; [|split].
    + intros g0 Hg0. apply (Hold sample_flipped_reachable g0 Hg0).
      vm_compute in Hg0. destruct Hg0 as [<-|[]]. reflexivity.
    + eexists. apply (Hunreset Faulty.reset_lost); reflexivity.
    + destruct (Hunmarked Faulty.completed_mark_lost)
        as (db1 & Hlost & Hroom1 & _); try reflexivity.
      exists db1. split; [exact Hlost|]. rewrite Hroom1. split; reflexivity.
Defined.

(** * More properties of the services *)

(** ** createRoom *)

(** When [createRoom] returns, the room it returns is waiting, has no
    client seed and nonce 0, the side asked for, stake 10 and pot 20, a
    code no room had before; the store has gained this room and its
    creator, who holds the side asked for and a name that is not empty
    (the name given when one is given), and no game. *)
Theorem createRoom_adds_waiting_room (env : Env) (dto : CreateRoomDto)
    (socketId : jsstring) (db db' : Store) (room : Room) :
  createRoom env dto socketId db = (Returns room, db') ->
  status room = waiting /\ room_client_seed room = None /\
  room_nonce room = 0 /\ creator_side room = dto_side dto /\
  room_stake_amount room = 10%Z /\ room_total_pot room = 20%Z /\
  room_server_seed room = generateServerSeed (randomBytes env 32) /\
  (forall r, In r (rooms db) -> room_code r <> room_code room) /\
  rooms db' = rooms db ++ [room] /\
  games db' = games db /\
  exists creator,
    players db' = players db ++ [creator] /\
    player_room_id creator = room_id room /\
    socket_id creator = socketId /\
    is_creator creator = true /\ side creator = dto_side dto /\
    name creator <> [] /\
    (forall given, dto_playerName dto = Some given -> given <> [] ->
                   name creator = given).
Proof.
  intros H.
  apply createRoom_returns_inv in H as (j & _ & _ & _ & Hfree & -> & ->).
  cbn [status room_client_seed room_nonce creator_side room_stake_amount
       room_total_pot room_server_seed room_code room_id after_create
       rooms players games].
  repeat (split; [first [reflexivity | exact Hfree]|]).
  eexists. split; [reflexivity|].
  cbn [player_room_id socket_id is_creator side name].
  repeat (split; [reflexivity|]).
  split; [apply or_else_nonempty, defaultName_nonempty|].
  intros given -> Hne. destruct given; [now elim Hne | reflexivity].
Qed.

Lemma createRoom_adds_waiting_room_witness :
  exists room db',
    createRoom Sample.env (mkCreateRoomDto tails (Some (lit "Ann")))
               (lit "sock-A") empty_store = (Returns room, db') /\
    status room = waiting /\ rooms db' = [room] /\
    map name (players db') = [lit "Ann"].
Proof.
  destruct (createRoom Sample.env (mkCreateRoomDto tails (Some (lit "Ann")))
              (lit "sock-A") empty_store) as [[room|e] db'] eqn:H;
    [|vm_compute in H; discriminate].
  exists room, db'. split; [reflexivity|].
  destruct (createRoom_adds_waiting_room _ _ _ _ _ _ H)
    as (Hst & _ & _ & _ & _ & _ & _ & _ & Hrooms & _ & creator & Hp & _ & _
        & _ & _ & _ & Hname).
  split; [exact Hst|]. split; [exact Hrooms|].
  rewrite Hp. cbn [empty_store players app map]. f_equal.
  apply Hname; [reflexivity | vm_compute; discriminate].
Defined.

(** When [createRoom] throws, what it throws is a [DatabaseException],
    and it leaves no player and no game behind; it leaves a room behind
    only if both the request that adds the creator and the request that
    takes the room back are lost. *)
Theorem createRoom_failure_rolls_back (env : Env) (dto : CreateRoomDto)
    (socketId : jsstring) (db db' : Store) (e : Exn) :
  wf db ->
  createRoom env dto socketId db = (Throws e, db') ->
  (exists operation details, e = DatabaseException operation details) /\
  players db' = players db /\ games db' = games db /\
  (served env InsertCreator = true \/ served env RollbackRoom = true ->
   rooms db' = rooms db).
Proof.
  intros Hwf H.
  apply createRoom_throws_inv in H as [He [-> | (code & Hlost & _ & Hdb)]];
    [now auto | |].
  2:{ intros p Hp E. destruct (wf_owner db Hwf p Hp) as (r & Hr & Hid).
      pose proof (wf_room_ids db Hwf r Hr). lia. }
  split; [exact He|].
  cbv zeta in Hdb.
  assert (Hp : filter (fun p => negb (player_room_id p =? next_id db)) (players db)
               = players db).
  { apply filter_all. intros p Hp. apply negb_true_iff, N.eqb_neq. intros E.
    destruct (wf_owner db Hwf p Hp) as (r & Hr & Hid).
    pose proof (wf_room_ids db Hwf r Hr). lia. }
  assert (Hg : filter (fun g => negb (game_room_id g =? next_id db)) (games db)
               = games db).
  { apply filter_all. intros g Hg. apply negb_true_iff, N.eqb_neq. intros E.
    destruct (wf_game_room db Hwf g Hg) as (r & Hr & Hid & _).
    pose proof (wf_room_ids db Hwf r Hr). lia. }
  destruct (served env RollbackRoom); subst db';
    cbn [without_room rooms players games].
  - split; [exact Hp|]. split; [exact Hg|]. intros _.
    rewrite filter_app. cbn [filter room_id]. rewrite N.eqb_refl.
    cbn [negb]. rewrite app_nil_r.
    apply filter_all. intros r Hr. apply negb_true_iff, N.eqb_neq.
    pose proof (wf_room_ids db Hwf r Hr). lia.
  - split; [reflexivity|]. split; [reflexivity|].
    intros [Hs|Hs]; congruence.
Qed.

Lemma createRoom_failure_rolls_back_witness :
  rooms (snd (createRoom Faulty.creator_lost (mkCreateRoomDto heads None)
                (lit "sock-A") empty_store)) = [] /\
  players (snd (createRoom Faulty.creator_lost (mkCreateRoomDto heads None)
                  (lit "sock-A") empty_store)) = [].
Proof.
  destruct (createRoom Faulty.creator_lost (mkCreateRoomDto heads None)
              (lit "sock-A") empty_store) as [[room|e] db'] eqn:H;
    [vm_compute in H; discriminate|].
  destruct (createRoom_failure_rolls_back _ _ _ _ _ _ wf_empty H)
    as (_ & Hp & _ & Hr).
  cbn [snd]. split; [|exact Hp].
  apply Hr. right. reflexivity.
Defined.

Lemma code_lookup_taken (env : Env) (db : Store) (attempt : nat) (r : Room) :
  served env (LookupCode attempt) = true ->
  filter (fun r => streq (room_code r) (generateRoomCode env attempt)) (rooms db)
  = [r] ->
  is_data (code_lookup env db attempt) = true.
Proof.
  intros Hs Hr. unfold code_lookup. now rewrite Hs, Hr.
Qed.

(** When each of the ten codes drawn is found to be taken, [createRoom]
    gives up: it throws the [DatabaseException] that says no unique code
    could be generated, and the store is as before. *)
Theorem createRoom_gives_up_after_ten_codes (env : Env) (dto : CreateRoomDto)
    (socketId : jsstring) (db : Store) :
  (forall i, (i < 10)%nat ->
     served env (LookupCode i) = true /\
     exists r,
       filter (fun r => streq (room_code r) (generateRoomCode env i)) (rooms db)
       = [r]) ->
  createRoom env dto socketId db
  = (Throws (DatabaseException (lit "room creation")
                               (lit "Unable to generate unique room code")),
     db).
Proof.
  intros H. unfold createRoom, try_catch_M, bind.
  rewrite pickRoomCode_exhausted; [reflexivity|].
  intros i Hi.
  destruct (H i) as (Hs & r & Hr); [unfold maxAttempts in Hi; lia|].
  now apply (code_lookup_taken env db i r).
Qed.

Lemma createRoom_gives_up_after_ten_codes_witness :
  createRoom Faulty.same_code (mkCreateRoomDto tails None) (lit "sock-B")
             Faulty.taken
  = (Throws (DatabaseException (lit "room creation")
                               (lit "Unable to generate unique room code")),
     Faulty.taken).
Proof.
  apply (createRoom_gives_up_after_ten_codes Faulty.same_code).
  intros i _. split; [reflexivity|].
  exists (mkRoom 0 (lit "AAAAAA") heads 10 20 waiting
            (generateServerSeed (randomBytes Faulty.same_code 32)) None 0).
  vm_compute. reflexivity.
Defined.

(** ** joinRoom *)

(** With distinct codes, the rows with the code of a room are that room
    alone. *)
Lemma room_by_code (rs : list Room) (room : Room) :
  NoDup (map room_code rs) -> In room rs ->
  filter (fun r => streq (room_code r) (room_code room)) rs = [room].
Proof.
  induction rs as [|a rs IH]; intros Hnd Hin; [contradiction|].
  cbn [map] in Hnd. inversion Hnd as [|? ? Hfresh Hrest]; subst.
  cbn [filter]. destruct Hin as [-> | Hin].
  - rewrite streq_refl. f_equal. apply filter_none. intros r Hr.
    apply streq_neq. intros E. apply Hfresh. rewrite <- E. now apply in_map.
  - replace (streq (room_code a) (room_code room)) with false;
      [now apply IH|].
    symmetry. apply streq_neq. intros E. apply Hfresh. rewrite E.
    now apply in_map.
Qed.

Lemma joinRoom_throws_unknown (env : Env) (dto : JoinRoomDto)
    (socketId : jsstring) (db : Store) :
  (forall r, In r (rooms db) -> room_code r = dto_code dto ->
             status r <> waiting) ->
  joinRoom env dto socketId db
  = (Throws (Error (lit "Room not found or not available")), db).
Proof.
  intros Hnone.
  assert (E : filter (fun r => streq (room_code r) (dto_code dto)
                               && status_eqb (status r) waiting) (rooms db) = []).
  { apply filter_none. intros r Hr. apply andb_false_iff.
    destruct (streq (room_code r) (dto_code dto)) eqn:Ec; [right | now left].
    apply streq_eq in Ec.
    destruct (status_eqb (status r) waiting) eqn:Es; [|reflexivity].
    apply status_eqb_eq in Es. now elim (Hnone r Hr Ec). }
  unfold joinRoom, bind, throw, DB.rooms_select_single.
  rewrite E. now destruct (served env FindWaitingRoom).
Qed.

Lemma joinRoom_waiting (env : Env) (dto : JoinRoomDto) (socketId : jsstring)
    (db : Store) (room : Room) :
  reliable env ->
  filter (fun r => streq (room_code r) (dto_code dto)
                   && status_eqb (status r) waiting) (rooms db) = [room] ->
  (List.length (players_in db (room_id room)) < 2)%nat ->
  let seed := generateClientSeed (randomBytes env 16) in
  let joiner := mkPlayer (next_id db) (room_id room) socketId
                  (or_else (dto_joinerName dto) (defaultName socketId))
                  (Spec.opposite (creator_side room)) false FIXED_STAKE true in
  joinRoom env dto socketId db
  = (Returns (set_client_seed (Some seed) (set_status full room), joiner),
     after_join room seed joiner db).
Proof.
  intros Hrel Hroom Hlen seed joiner. subst seed joiner.
  unfold joinRoom, bind, ret, throw, DB.rooms_select_single, DB.players_select,
    DB.players_insert, DB.rooms_update.
  rewrite !Hrel, Hroom. cbn [DB.single]. cbv beta iota.
  change (filter (fun p => player_room_id p =? room_id room) (players db))
    with (players_in db (room_id room)).
  replace (2 <=? List.length (players_in db (room_id room)))%nat with false
    by (symmetry; now apply Nat.leb_gt).
  cbv beta iota.
  destruct (creator_side room) eqn:Hs; cbn [side_eqb Spec.opposite];
    cbv beta iota; reflexivity.
Qed.

(** In a store the operations have built and with no request lost,
    [joinRoom] does one of two things. If a room with the code is
    waiting, it returns that room, now full and with the client seed
    just drawn, and the store has gained the joiner on the side opposite
    to the creator's. If no room with the code is waiting, it throws the
    error that says so and the store is as before. It throws nothing
    else: not the room-full exception, not the same-side exception. *)
Theorem joinRoom_joins_or_finds_no_room (env : Env) (dto : JoinRoomDto)
    (socketId : jsstring) (db : Store) :
  reachable db -> reliable env ->
  (exists room joiner,
     In room (rooms db) /\ room_code room = dto_code dto /\
     status room = waiting /\
     is_creator joiner = false /\
     side joiner = Spec.opposite (creator_side room) /\
     joinRoom env dto socketId db
     = (Returns (set_client_seed
                   (Some (generateClientSeed (randomBytes env 16)))
                   (set_status full room), joiner),
        after_join room (generateClientSeed (randomBytes env 16)) joiner db))
  \/
  ((forall r, In r (rooms db) -> room_code r = dto_code dto ->
              status r <> waiting) /\
   joinRoom env dto socketId db
   = (Throws (Error (lit "Room not found or not available")), db)).
Proof.
  intros Hreach Hrel.
  pose proof (reachable_wf db Hreach) as Hwf.
  pose proof (reachable_invariant db Hreach) as Hinv.
  destruct (filter (fun r => streq (room_code r) (dto_code dto)
                             && status_eqb (status r) waiting) (rooms db))
    as [|room [|room2 l]] eqn:E.
  - right.
    assert (Hnone : forall r, In r (rooms db) -> room_code r = dto_code dto ->
                              status r <> waiting).
    { intros r Hr Hc Hs.
      assert (Hin : In r []).
      { rewrite <- E. apply filter_In. split; [exact Hr|].
        apply andb_true_iff. split; [now apply streq_eq | now apply status_eqb_eq]. }
      exact Hin. }
    split; [exact Hnone | now apply joinRoom_throws_unknown].
  - left.
    pose proof (filter_singleton _ _ _ E) as [Hin Hp].
    apply andb_true_iff in Hp as [Hc Hs].
    apply streq_eq in Hc. apply status_eqb_eq in Hs.
    destruct (wf_players db Hwf room Hin) as (c & _ & _ & [Hone | (Hw & _)]);
      [|contradiction].
    eexists room, _. split; [exact Hin|]. split; [exact Hc|].
    split; [exact Hs|]. split; [|split]; cycle 2.
    + apply (joinRoom_waiting env dto socketId db room Hrel E).
      rewrite Hone. cbn. lia.
    + reflexivity.
    + reflexivity.
  - exfalso.
    pose proof (room_code_filter
                  (fun r => streq (room_code r) (dto_code dto)
                            && status_eqb (status r) waiting)
                  (rooms db) (inv_codes db Hinv)) as Hnd.
    assert (H1 : In room (room :: room2 :: l)) by now left.
    assert (H2 : In room2 (room :: room2 :: l)) by (right; now left).
    rewrite <- E in H1, H2.
    apply filter_In in H1 as [_ H1]. apply filter_In in H2 as [_ H2].
    apply andb_true_iff in H1 as [H1 _]. apply andb_true_iff in H2 as [H2 _].
    apply streq_eq in H1, H2.
    rewrite E in Hnd. cbn [map] in Hnd.
    inversion Hnd as [|? ? Hfresh _]; subst.
    apply Hfresh. left. congruence.
Qed.

Lemma joinRoom_joins_or_finds_no_room_witness :
  (exists room joiner,
     In room (rooms Sample.created) /\ room_code room = lit "ABCDEF" /\
     status room = waiting /\
     is_creator joiner = false /\
     side joiner = Spec.opposite (creator_side room) /\
     joinRoom Sample.env (mkJoinRoomDto (lit "ABCDEF") None) (lit "sock-B")
              Sample.created
     = (Returns (set_client_seed
                   (Some (generateClientSeed (randomBytes Sample.env 16)))
                   (set_status full room), joiner),
        after_join room (generateClientSeed (randomBytes Sample.env 16)) joiner
                   Sample.created))
  \/
  ((forall r, In r (rooms Sample.created) -> room_code r = lit "ABCDEF" ->
              status r <> waiting) /\
   joinRoom Sample.env (mkJoinRoomDto (lit "ABCDEF") None) (lit "sock-B")
            Sample.created
   = (Throws (Error (lit "Room not found or not available")), Sample.created)).
Proof.
  apply (joinRoom_joins_or_finds_no_room Sample.env
           (mkJoinRoomDto (lit "ABCDEF") None) (lit "sock-B") Sample.created).
  - unfold Sample.created.
    apply reachable_step; [apply reachable_empty | exact sample_env_reliable].
  - exact sample_env_reliable.
Defined.

(** ** flipCoin *)

(** In a store the operations have built and with no request lost,
    [flipCoin] returns exactly when the room exists, has left the
    waiting state, has a client seed that is not empty, and holds two
    players. *)
Theorem flipCoin_returns_iff_ready (env : Env) (roomId : Id) (db : Store) :
  reachable db -> reliable env ->
  ((exists out db', flipCoin env roomId db = (Returns out, db')) <->
   (exists room u cs,
      In room (rooms db) /\ room_id room = roomId /\
      status room <> waiting /\
      room_client_seed room = Some (u :: cs) /\
      List.length (players_in db roomId) = 2%nat)).
Proof.
  intros Hreach Hrel.
  pose proof (reachable_wf db Hreach) as Hwf.
  pose proof (reachable_invariant db Hreach) as Hinv.
  split.
  - intros (out & db' & H).
    apply flipCoin_returns_inv in H
      as (room & cs & u & w & Hin & Hid & Hst & Hseed & Hlen & _).
    exists room, u, cs. repeat split; auto.
    destruct Hst as [-> | ->]; discriminate.
  - intros (room & u & cs & Hin & Hid & Hst & Hseed & Hlen).
    pose proof (wf_room_with_id db room Hwf Hin) as Hroom.
    rewrite Hid in Hroom.
    destruct (wf_players db Hwf room Hin)
      as (c & _ & Hcs & [Hone | (_ & j & _ & Hjs & Htwo)]);
      rewrite Hid in *; [rewrite Hone in Hlen; discriminate|].
    assert (Hopp : side j = Spec.opposite (side c)) by congruence.
    destruct (find_side_opposite c j
                (result (generateResult (room_server_seed room) (u :: cs)
                                        (room_nonce room + 1))) Hopp)
      as (w & Hw & _).
    destruct (inv_stage db Hinv room Hin) as [(Hw0 & _) | ([Hs|Hs] & _)];
      [contradiction | |].
    + pose proof (flipCoin_full env roomId db room (u :: cs) c j
                    (Hrel _) (Hrel _) (Hrel _) (Hrel _)
                    Hroom Hs Hseed ltac:(discriminate) Htwo) as H.
      rewrite Hw in H. eauto.
    + pose proof (flipCoin_completed env roomId db room (u :: cs) c j
                    (Hrel _) (Hrel _) (Hrel _) (Hrel _) (Hrel _) (Hrel _)
                    Hroom Hs Hseed ltac:(discriminate) Htwo) as H.
      rewrite Hw in H. eauto.
Qed.

Lemma flipCoin_returns_iff_ready_witness :
  (exists out db', flipCoin Sample.env 0 Sample.flipped = (Returns out, db')) <->
  (exists room u cs,
     In room (rooms Sample.flipped) /\ room_id room = 0 /\
     status room <> waiting /\
     room_client_seed room = Some (u :: cs) /\
     List.length (players_in Sample.flipped 0) = 2%nat).
Proof.
  apply (flipCoin_returns_iff_ready Sample.env 0 Sample.flipped).
  - exact sample_flipped_reachable.
  - exact sample_env_reliable.
Defined.

Lemma createVerificationData_fields (s c : jsstring) (n : N) :
  v_serverSeed (createVerificationData s c n) = s /\
  v_clientSeed (createVerificationData s c n) = c /\
  v_nonce (createVerificationData s c n) = n.
Proof.
  with_strategy transparent [createVerificationData]
    (unfold createVerificationData).
  cbn [v_serverSeed v_clientSeed v_nonce]. auto.
Qed.

(** Whatever requests are lost, when [flipCoin] returns, the seeds and
    the nonce of the verification data it hands out are those of the
    game it recorded, [verifyResult] accepts them for the recorded hash
    and the announced result, and the winner it names holds the side
    that came up and is a player of the room. *)
Theorem flipCoin_outcome_verifies (env : Env) (roomId : Id) (db db' : Store)
    (out : FlipOutcome) :
  flipCoin env roomId db = (Returns out, db') ->
  let v := out_verification out in
  v_serverSeed v = game_server_seed (out_game out) /\
  v_clientSeed v = game_client_seed (out_game out) /\
  v_nonce v = game_nonce (out_game out) /\
  verifyResult (v_serverSeed v) (v_clientSeed v) (v_nonce v)
               (hash_result (out_game out)) (side_text (out_result out))
  = Returns true /\
  out_winner out = out_result out /\
  side (out_winnerPlayer out) = out_result out /\
  In (out_winnerPlayer out) (players_in db roomId) /\
  winner_player_id (out_game out) = player_id (out_winnerPlayer out).
Proof.
  intros H v. subst v.
  apply flipCoin_returns_inv in H
    as (room & cs & u & w & _ & _ & _ & _ & _ & Hw & Hout & _).
  cbv zeta in Hout. subst out.
  cbn [out_verification out_game out_result out_winner out_winnerPlayer
       game_server_seed game_client_seed game_nonce hash_result
       winner_player_id].
  destruct (createVerificationData_fields (room_server_seed room) (u :: cs)
              (room_nonce room + 1)) as (-> & -> & ->).
  apply find_some in Hw as [Hin Hside]. apply side_eqb_eq in Hside.
  repeat split; auto.
  apply verifyResult_true_iff. split; reflexivity.
Qed.

Lemma flipCoin_outcome_verifies_witness :
  exists out db',
    flipCoin Sample.env 0 Sample.joined = (Returns out, db') /\
    verifyResult (v_serverSeed (out_verification out))
                 (v_clientSeed (out_verification out))
                 (v_nonce (out_verification out))
                 (hash_result (out_game out)) (side_text (out_result out))
    = Returns true.
Proof.
  destruct (flipCoin Sample.env 0 Sample.joined) as [[out|e] db'] eqn:H;
    [|vm_compute in H; discriminate].
  exists out, db'. split; [reflexivity|].
  destruct (flipCoin_outcome_verifies _ _ _ _ _ H) as (_ & _ & _ & Hv & _).
  exact Hv.
Defined.

(** ** removePlayer *)

(** The rooms [removePlayer] leaves were there before. *)
Lemma removePlayer_rooms (env : Env) (socketId : jsstring) (db : Store) :
  incl (rooms (snd (removePlayer env socketId db))) (rooms db).
Proof.
  unfold removePlayer, bind, ret, DB.players_select_single, DB.players_delete,
    DB.rooms_delete.
  destruct (served env FindPlayer); [|apply incl_refl].
  destruct (DB.single _) as [player|]; [|apply incl_refl].
  repeat match goal with
         | |- context [if ?b then _ else _] => destruct b; cbv beta iota zeta
         end;
    cbn [snd rooms]; first [apply incl_refl | apply incl_filter].
Qed.

(** [removePlayer] never throws, whatever requests are lost; it adds
    nothing to the store and hands out no identifier. *)
Theorem removePlayer_only_removes (env : Env) (socketId : jsstring)
    (db : Store) :
  exists db',
    removePlayer env socketId db = (Returns tt, db') /\
    incl (rooms db') (rooms db) /\ incl (players db') (players db) /\
    incl (games db') (games db) /\ next_id db' = next_id db.
Proof.
  destruct (removePlayer env socketId db) as [o db'] eqn:H.
  unfold removePlayer, bind, ret, DB.players_select_single, DB.players_delete,
    DB.rooms_delete, DB.single, DB.unreachable in H.
  repeat case_split H.
  all: cbv beta iota in H; injection H as <- <-.
  all: eexists; split; [reflexivity|].
  all: cbn [rooms players games next_id].
  all: repeat split;
       try (intros x Hx; repeat (apply filter_In in Hx as [Hx _]); exact Hx).
Qed.

Lemma players_on_without_socket (socketId : jsstring) (db : Store) :
  players_on (without_socket socketId db) socketId = [].
Proof.
  unfold players_on, without_socket. cbn [players].
  apply filter_none. intros p Hp. apply filter_In in Hp as [_ Hp].
  now apply negb_true_iff in Hp.
Qed.

Lemma players_on_without_room (socketId : jsstring) (db : Store) (p : Player) :
  players_on db socketId = [p] ->
  players_on (without_room (player_room_id p) db) socketId = [].
Proof.
  intros Hp. unfold players_on, without_room in *. cbn [players].
  rewrite filter_comm, Hp. cbn [filter]. now rewrite N.eqb_refl.
Qed.

Lemma removePlayer_joiner_winner_again (env env2 : Env) (socketId : jsstring)
    (db : Store) (p : Player) (g : Game) :
  players_on db socketId = [p] -> is_creator p = false ->
  In g (games db) -> winner_player_id g = player_id p ->
  removePlayer env2 socketId (snd (removePlayer env socketId db))
  = (Returns tt, snd (removePlayer env socketId db)).
Proof.
  intros Hp Hc Hg Hw.
  rewrite (removePlayer_joiner_winner env socketId db p g Hp Hc Hg Hw).
  cbn [snd]. now apply (removePlayer_joiner_winner env2 socketId db p g).
Qed.

(** With no request lost, removing the player of a connection a second
    time changes nothing. *)
Theorem removePlayer_twice (env env2 : Env) (socketId : jsstring) (db : Store) :
  reachable db -> reliable env ->
  removePlayer env2 socketId (snd (removePlayer env socketId db))
  = (Returns tt, snd (removePlayer env socketId db)).
Proof.
  intros Hreach Hrel.
  pose proof (reachable_wf db Hreach) as Hwf.
  pose proof (reachable_invariant db Hreach) as Hinv.
  destruct (players_on db socketId) as [|p [|p' l]] eqn:Hp.
  - rewrite (removePlayer_unmatched env socketId db);
      [|intros q'; rewrite Hp; discriminate].
    cbn [snd]. apply removePlayer_unmatched. intros q. rewrite Hp. discriminate.
  - assert (Hpin : In p (players db)).
    { assert (H : In p (players_on db socketId)) by (rewrite Hp; now left).
      now apply filter_In in H. }
    destruct (is_creator p) eqn:Hc.
    + destruct (wf_owner db Hwf p Hpin) as (r & Hr & Hid).
      rewrite (removePlayer_creator env socketId db p r); auto.
      * cbn [snd]. apply removePlayer_unmatched. intros q.
        rewrite (players_on_without_room socketId db p Hp). discriminate.
      * intros g q Hg Hq Hw Hroom.
        destruct (inv_winner db Hinv g q Hg Hq (eq_sym Hw)) as [E _].
        congruence.
    + destruct (winner_or_not db p) as [(g & Hg & Hw) | Hfree].
      * now apply (removePlayer_joiner_winner_again env env2 socketId db p g).
      * rewrite (removePlayer_joiner env socketId db p); auto.
        cbn [snd]. apply removePlayer_unmatched. intros q.
        rewrite players_on_without_socket. discriminate.
  - rewrite (removePlayer_unmatched env socketId db);
      [|intros q'; rewrite Hp; discriminate].
    cbn [snd]. apply removePlayer_unmatched. intros q. rewrite Hp. discriminate.
Qed.

Lemma removePlayer_twice_witness :
  removePlayer Sample.env (lit "sock-A")
    (snd (removePlayer Sample.env (lit "sock-A") Sample.flipped))
  = (Returns tt, snd (removePlayer Sample.env (lit "sock-A") Sample.flipped)).
Proof.
  apply (removePlayer_twice Sample.env Sample.env (lit "sock-A") Sample.flipped).
  - exact sample_flipped_reachable.
  - exact sample_env_reliable.
Defined.

(** A room whose joiner has left is stuck. In a store the operations
    have built, once the player of a connection who is not a creator and
    whom no game names as its winner has been removed, the room keeps
    its status, so that nobody can join it by its code any more, and no
    flip in it returns. (A joiner who has won a game is not removed: the
    database keeps the winner of a game.) *)
Theorem room_without_joiner_is_stuck (env env2 : Env) (socketId : jsstring)
    (db : Store) (p : Player) (room : Room) :
  reachable db -> reliable env ->
  players_on db socketId = [p] -> is_creator p = false ->
  (forall g, In g (games db) -> winner_player_id g <> player_id p) ->
  In room (rooms db) -> room_id room = player_room_id p ->
  let db' := snd (removePlayer env socketId db) in
  In room (rooms db') /\ status room <> waiting /\
  ~ In p (players db') /\
  (forall joinerName socketId2,
     joinRoom env2 (mkJoinRoomDto (room_code room) joinerName) socketId2 db'
     = (Throws (Error (lit "Room not found or not available")), db')) /\
  (forall out db'', flipCoin env2 (room_id room) db' <> (Returns out, db'')).
Proof.
  intros Hreach Hrel Hp Hc Hfree Hin Hid db'. subst db'.
  pose proof (reachable_wf db Hreach) as Hwf.
  pose proof (reachable_invariant db Hreach) as Hinv.
  rewrite (removePlayer_joiner env socketId db p Hrel Hp Hc Hfree). cbn [snd].
  assert (Hpin : In p (players_on db socketId)) by (rewrite Hp; now left).
  apply filter_In in Hpin as [Hpin Hsock].
  assert (Hproom : In p (players_in db (room_id room))).
  { apply filter_In. split; [exact Hpin|]. apply N.eqb_eq. congruence. }
  destruct (wf_players db Hwf room Hin)
    as (c & Hcc & _ & [Hone | (Hst & j & Hjc & _ & Htwo)]).
  { rewrite Hone in Hproom. destruct Hproom as [<-|[]]. congruence. }
  assert (p = j) as ->.
  { rewrite Htwo in Hproom. destruct Hproom as [<-|[<-|[]]]; congruence. }
  split; [exact Hin|]. split; [exact Hst|]. split; [|split].
  - intros H. apply (without_socket_players socketId db j j Hp) in H as [_ H].
    now elim H.
  - intros joinerName socketId2. apply joinRoom_throws_unknown.
    cbn [dto_code]. intros r Hr Hcode.
    cbn [without_socket rooms] in Hr.
    assert (r = room) as ->; [|exact Hst].
    pose proof (room_by_code (rooms db) room (inv_codes db Hinv) Hin) as Hone.
    assert (Hr' : In r [room]).
    { rewrite <- Hone. apply filter_In. split; [exact Hr|].
      now apply streq_eq. }
    destruct Hr' as [<-|[]]. reflexivity.
  - intros out db'' H.
    apply flipCoin_returns_inv in H as (_ & _ & _ & _ & _ & _ & _ & _ & Hlen & _).
    unfold players_in, without_socket in Hlen. cbn [players] in Hlen.
    rewrite filter_comm in Hlen.
    change (filter (fun p => player_room_id p =? room_id room) (players db))
      with (players_in db (room_id room)) in Hlen.
    rewrite Htwo in Hlen. cbn [filter] in Hlen. rewrite Hsock in Hlen.
    cbn [negb] in Hlen.
    destruct (negb (streq (socket_id c) socketId)); discriminate.
Qed.

Lemma room_without_joiner_is_stuck_witness :
  joinRoom Sample.env (mkJoinRoomDto (lit "ABCDEF") None) (lit "sock-C")
           Sample.joiner_left
  = (Throws (Error (lit "Room not found or not available")), Sample.joiner_left)
  /\ ~ (exists out db'',
          flipCoin Sample.env 0 Sample.joiner_left = (Returns out, db'')).
Proof.
  destruct (room_without_joiner_is_stuck Sample.env Sample.env (lit "sock-B")
              Sample.flipped
              (mkPlayer 2 0 (lit "sock-B") (lit "Player sock") tails false 10 true)
              (mkRoom 0 (lit "ABCDEF") heads 10 20 completed
                 (generateServerSeed (randomBytes Sample.env 32))
                 (Some (generateClientSeed (randomBytes Sample.env 16))) 1))
    as (_ & _ & _ & Hjoin & Hflip).
  - exact sample_flipped_reachable.
  - exact sample_env_reliable.
  - vm_compute. reflexivity.
  - reflexivity.
  - intros g Hg. vm_compute in Hg. destruct Hg as [<-|[]]. discriminate.
  - vm_compute. left. reflexivity.
  - reflexivity.
  - split; [exact (Hjoin None (lit "sock-C"))|].
    intros (out & db'' & H). exact (Hflip out db'' H).
Defined.

(** ** The queries *)

Lemma formatPlayerForWebSocket_named (p : Player) :
  name p <> [] -> formatPlayerForWebSocket p = p.
Proof.
  destruct p as [pid rid sock nm sd cr st paid]. cbn [name]. intros Hn.
  unfold formatPlayerForWebSocket.
  cbn [player_id player_room_id socket_id name side is_creator
       player_stake_amount has_paid or_else].
  destruct nm; [now elim Hn | reflexivity].
Qed.

Lemma getPlayersInRoom_named (served : Query -> bool) (roomId : Id) (db : Store) :
  (forall p, In p (players db) -> name p <> []) ->
  getPlayersInRoom served roomId db
  = (Returns (if served PlayersOfRoom then players_in db roomId else []), db).
Proof.
  intros Hnames.
  unfold getPlayersInRoom, bind, ret, players_select_ordered.
  destruct (served PlayersOfRoom); [|reflexivity].
  cbv beta iota. f_equal. f_equal.
  transitivity (map (fun p : Player => p) (players_in db roomId));
    [|apply map_id].
  apply map_ext_in. intros p Hp. apply formatPlayerForWebSocket_named.
  apply filter_In in Hp as [Hp _]. now apply Hnames.
Qed.

(** The rows with a key are none, or the one room with that key. *)
Lemma room_with_id_cases (db : Store) (roomId : Id) :
  wf db ->
  (room_with_id db roomId = [] /\
   forall r, In r (rooms db) -> room_id r <> roomId) \/
  (exists room, room_with_id db roomId = [room] /\ In room (rooms db) /\
                room_id room = roomId).
Proof.
  intros Hwf.
  destruct (room_with_id db roomId) as [|room l] eqn:E.
  - left. split; [reflexivity|]. intros r Hr Hid.
    assert (Hin : In r (room_with_id db roomId)).
    { apply filter_In. split; [exact Hr | now apply N.eqb_eq]. }
    now rewrite E in Hin.
  - right. exists room.
    assert (Hin : In room (room_with_id db roomId)) by (rewrite E; now left).
    apply filter_In in Hin as [Hin Hid]. apply N.eqb_eq in Hid.
    pose proof (wf_room_with_id db room Hwf Hin) as Hone.
    rewrite Hid, E in Hone. injection Hone as ->. auto.
Qed.

Lemma isRoomReadyForReplay_built (roomId : Id) (db : Store) :
  wf db -> (forall p, In p (players db) -> name p <> []) ->
  exists ready,
    isRoomReadyForReplay all_served roomId db = (Returns ready, db) /\
    (ready = true <->
     exists room, In room (rooms db) /\ room_id room = roomId /\
                  status room = completed /\
                  List.length (players_in db roomId) = 2%nat).
Proof.
  intros Hwf Hnames.
  unfold isRoomReadyForReplay, getRoomWithPlayers, bind, ret,
    DB.rooms_select_single.
  rewrite (getPlayersInRoom_named all_served roomId db Hnames).
  unfold all_served. cbv beta iota.
  change (filter (fun r => room_id r =? roomId) (rooms db))
    with (room_with_id db roomId).
  destruct (room_with_id_cases db roomId Hwf)
    as [[-> Hnone] | (room & -> & Hin & Hid)]; cbn [DB.single].
  - eexists. split; [reflexivity|]. split; [discriminate|].
    intros (room & Hin & Hid & _). now elim (Hnone room Hin).
  - cbv beta iota.
    assert (Honly : forall r, In r (rooms db) -> room_id r = roomId -> r = room).
    { intros r Hr Hrid.
      exact (NoDup_map_inj room_id (rooms db) r room (wf_room_key db Hwf) Hr Hin
               ltac:(congruence)). }
    destruct (wf_players db Hwf room Hin)
      as (c & Hc & Hcs & [Hone | (_ & j & Hj & Hjs & Htwo)]);
      rewrite Hid in *.
    + rewrite Hone. cbn [List.length Nat.eqb negb orb].
      eexists. split; [reflexivity|]. split; [discriminate|].
      intros (_ & _ & _ & _ & Hlen). discriminate.
    + rewrite Htwo. cbn [List.length Nat.eqb negb orb find].
      rewrite Hc, Hj. cbn [negb]. cbv beta iota.
      replace (side_eqb (side c) (side j)) with false.
      2:{ symmetry. destruct (side_eqb (side c) (side j)) eqn:E; [|reflexivity].
          apply side_eqb_eq in E. rewrite Hcs, Hjs in E.
          now destruct (creator_side room). }
      destruct (status_eqb (status room) completed) eqn:Es; cbn [negb].
      * apply status_eqb_eq in Es. eexists. split; [reflexivity|].
        split; [|reflexivity]. intros _. exists room. auto.
      * eexists. split; [reflexivity|]. split; [discriminate|].
        intros (r & Hr & Hrid & Hst & _).
        rewrite (Honly r Hr Hrid) in Hst. rewrite Hst in Es. discriminate.
Qed.

(** In a store the operations have built, [getRoomByCode] returns the
    room with the code when there is one and the request is served, and
    [null] otherwise; it leaves the store as it is. *)
Theorem getRoomByCode_finds_the_room (served : Query -> bool) (code : jsstring)
    (db : Store) :
  reachable db ->
  exists found,
    getRoomByCode served code db = (Returns found, db) /\
    (forall room, found = Some room ->
                  In room (rooms db) /\ room_code room = code) /\
    (served RoomByCode = true ->
     forall room, In room (rooms db) -> room_code room = code ->
                  found = Some room).
Proof.
  intros Hreach.
  pose proof (inv_codes db (reachable_invariant db Hreach)) as Hnd.
  unfold getRoomByCode, bind, ret, DB.rooms_select_single.
  destruct (served RoomByCode).
  - destruct (filter (fun r => streq (room_code r) code) (rooms db))
      as [|r [|r' l]] eqn:E; cbn [DB.single].
    + eexists. split; [reflexivity|]. split; [discriminate|].
      intros _ room Hin <-.
      rewrite (room_by_code (rooms db) room Hnd Hin) in E. discriminate.
    + eexists. split; [reflexivity|]. split.
      * intros room [= <-]. apply filter_singleton in E as [Hin Hc].
        apply streq_eq in Hc. auto.
      * intros _ room Hin <-.
        rewrite (room_by_code (rooms db) room Hnd Hin) in E. congruence.
    + eexists. split; [reflexivity|]. split; [discriminate|].
      intros _ room Hin <-.
      rewrite (room_by_code (rooms db) room Hnd Hin) in E. discriminate.
  - eexists. split; [reflexivity|]. split; discriminate.
Qed.

Lemma getRoomByCode_finds_the_room_witness :
  exists found,
    getRoomByCode all_served (lit "ABCDEF") Sample.flipped
    = (Returns found, Sample.flipped) /\
    (forall room, found = Some room ->
                  In room (rooms Sample.flipped) /\ room_code room = lit "ABCDEF") /\
    (all_served RoomByCode = true ->
     forall room, In room (rooms Sample.flipped) ->
                  room_code room = lit "ABCDEF" -> found = Some room).
Proof.
  apply (getRoomByCode_finds_the_room all_served (lit "ABCDEF") Sample.flipped).
  exact sample_flipped_reachable.
Defined.

(** In a store the operations have built, [getPlayersInRoom] returns
    the players of the room as they are stored, none of them renamed,
    the creator first and at most one player after the creator. *)
Theorem getPlayersInRoom_lists_creator_first (served : Query -> bool)
    (roomId : Id) (db : Store) :
  reachable db ->
  getPlayersInRoom served roomId db
  = (Returns (if served PlayersOfRoom then players_in db roomId else []), db) /\
  (forall room, In room (rooms db) -> room_id room = roomId ->
     exists creator others,
       players_in db roomId = creator :: others /\
       is_creator creator = true /\ (List.length others <= 1)%nat /\
       forall p, In p others -> is_creator p = false).
Proof.
  intros Hreach. split.
  - apply getPlayersInRoom_named, (inv_names db (reachable_invariant db Hreach)).
  - intros room Hin <-.
    destruct (wf_players db (reachable_wf db Hreach) room Hin)
      as (c & Hc & _ & [Hone | (_ & j & Hj & _ & Htwo)]).
    + exists c, []. rewrite Hone. cbn. repeat split; auto. contradiction.
    + exists c, [j]. rewrite Htwo. cbn. repeat split; auto.
      intros p [<-|[]]. exact Hj.
Qed.

Lemma getPlayersInRoom_lists_creator_first_witness :
  getPlayersInRoom all_served 0 Sample.flipped
  = (Returns (players_in Sample.flipped 0), Sample.flipped).
Proof.
  destruct (getPlayersInRoom_lists_creator_first all_served 0 Sample.flipped
              sample_flipped_reachable) as [H _].
  exact H.
Defined.

(** In a store the operations have built, [isRoomReadyForReplay] says
    yes exactly when the room exists, is completed and holds two
    players. *)
Theorem isRoomReadyForReplay_iff_completed_pair (roomId : Id) (db : Store) :
  reachable db ->
  exists ready,
    isRoomReadyForReplay all_served roomId db = (Returns ready, db) /\
    (ready = true <->
     exists room, In room (rooms db) /\ room_id room = roomId /\
                  status room = completed /\
                  List.length (players_in db roomId) = 2%nat).
Proof.
  intros Hreach.
  apply isRoomReadyForReplay_built;
    [now apply reachable_wf
    | apply (inv_names db (reachable_invariant db Hreach))].
Qed.

Lemma isRoomReadyForReplay_iff_completed_pair_witness :
  exists ready,
    isRoomReadyForReplay all_served 0 Sample.flipped
    = (Returns ready, Sample.flipped) /\
    (ready = true <->
     exists room, In room (rooms Sample.flipped) /\ room_id room = 0 /\
                  status room = completed /\
                  List.length (players_in Sample.flipped 0) = 2%nat).
Proof.
  apply (isRoomReadyForReplay_iff_completed_pair 0 Sample.flipped).
  exact sample_flipped_reachable.
Defined.

(** A flip that returns leaves the room ready for replay: in a store the
    operations have built and with no request lost, after [flipCoin] has
    returned, [isRoomReadyForReplay] says yes for the room. *)
Theorem flipCoin_leaves_room_ready_for_replay (env : Env) (roomId : Id)
    (db db' : Store) (out : FlipOutcome) :
  reachable db -> reliable env ->
  flipCoin env roomId db = (Returns out, db') ->
  isRoomReadyForReplay all_served roomId db' = (Returns true, db').
Proof.
  intros Hreach Hrel H.
  assert (Hreach' : reachable db').
  { change db' with (snd (Returns out, db')). rewrite <- H.
    exact (reachable_step (FlipCoin env roomId) db Hreach Hrel). }
  destruct (isRoomReadyForReplay_built roomId db' (reachable_wf db' Hreach')
              (inv_names db' (reachable_invariant db' Hreach')))
    as (ready & Hq & Hiff).
  rewrite Hq. do 2 f_equal. apply Hiff.
  pose proof (flipCoin_returns_inv _ _ _ _ _ H)
    as (_ & _ & _ & _ & _ & _ & _ & _ & Hlen & _ & _ & _ & Hplayers & _).
  destruct (flipCoin_cases env roomId db Hrel)
    as [(e & E) | [(e & room & _ & _ & _ & E)
                  | (room & seed & w & Hin & Hid & Hst & _ & _ & _ & _ & E)]];
    rewrite E in H; try discriminate.
  injection H as _ <-.
  exists (set_nonce (room_nonce room + 1) (set_status completed room)).
  split; [|split; [exact Hid | split; [reflexivity|]]].
  - unfold after_flip. cbn [rooms]. apply in_map_iff.
    destruct Hst as [Hst|Hst]; rewrite Hst.
    + exists room. rewrite Hid, N.eqb_refl. auto.
    + exists (set_status full room). cbn [set_status room_id].
      rewrite Hid, N.eqb_refl. split; [reflexivity|].
      rewrite <- Hid. now apply in_after_reset.
  - unfold players_in in *. rewrite Hplayers. exact Hlen.
Qed.

Lemma flipCoin_leaves_room_ready_for_replay_witness :
  isRoomReadyForReplay all_served 0 Sample.flipped
  = (Returns true, Sample.flipped).
Proof.
  destruct (flipCoin Sample.env 0 Sample.joined) as [[out|e] db'] eqn:H;
    [|vm_compute in H; discriminate].
  assert (E : Sample.flipped = db').
  { unfold Sample.flipped. cbn [exec]. now rewrite H. }
  rewrite E.
  apply (flipCoin_leaves_room_ready_for_replay Sample.env 0 Sample.joined db' out).
  - unfold Sample.joined, Sample.created.
    repeat (apply reachable_step; [|exact sample_env_reliable]).
    apply reachable_empty.
  - exact sample_env_reliable.
  - exact H.
Defined.

(** ** The stores the operations build *)

Lemma in_nonces_up_to (k n : N) : In k (nonces_up_to n) <-> 1 <= k <= n.
Proof.
  unfold nonces_up_to. rewrite in_map_iff. split.
  - intros (i & <- & Hi). apply in_seq in Hi. lia.
  - intros Hk. exists (N.to_nat k). split; [lia|]. apply in_seq. lia.
Qed.

Lemma nonces_up_to_NoDup (n : N) : NoDup (nonces_up_to n).
Proof.
  unfold nonces_up_to.
  generalize (seq_NoDup (N.to_nat n) 1).
  induction 1 as [|i l Hfresh _ IH]; cbn [map]; constructor; [|exact IH].
  rewrite in_map_iff. intros (k & Hk & Hin).
  apply Nat2N.inj in Hk. now subst k.
Qed.

Lemma nonces_up_to_length (n : N) :
  N.of_nat (List.length (nonces_up_to n)) = n.
Proof.
  unfold nonces_up_to. rewrite length_map, length_seq. lia.
Qed.

(** In a store the operations have built, a room is waiting, full or
    completed, never playing. It is waiting exactly as long as it has no
    client seed, and then its nonce is 0, it has no game and its creator
    is its only player. Once completed its nonce is at least 1. Its
    creator, who holds the room's side, is always its first player. *)
Theorem rooms_go_from_waiting_to_full_to_completed (db : Store) (room : Room) :
  reachable db -> In room (rooms db) ->
  status room <> playing /\
  (status room = waiting <-> room_client_seed room = None) /\
  (status room = waiting ->
     room_nonce room = 0 /\ games_of db (room_id room) = [] /\
     List.length (players_in db (room_id room)) = 1%nat) /\
  (status room = completed -> 1 <= room_nonce room) /\
  exists creator others,
    players_in db (room_id room) = creator :: others /\
    is_creator creator = true /\ side creator = creator_side room.
Proof.
  intros Hreach Hin.
  pose proof (reachable_wf db Hreach) as Hwf.
  pose proof (reachable_invariant db Hreach) as Hinv.
  pose proof (inv_stage db Hinv room Hin) as Hstage.
  pose proof (inv_nonces db Hinv room Hin) as Hnonces.
  destruct (wf_players db Hwf room Hin)
    as (c & Hc & Hcs & Hplayers).
  split; [|split; [|split; [|split]]].
  - destruct Hstage as [(-> & _) | ([-> | ->] & _)]; discriminate.
  - destruct Hstage as [(Hs & Hseed & _) | (Hs & seed & Hseed)]; split;
      try tauto; intros H; try congruence.
    destruct Hs; congruence.
  - intros Hs.
    destruct Hstage as [(_ & _ & Hn) | ([Hs' | Hs'] & _)]; try congruence.
    split; [exact Hn|]. split.
    + rewrite Hn in Hnonces. now apply map_eq_nil in Hnonces.
    + destruct Hplayers as [-> | (Hne & _)]; [reflexivity | contradiction].
  - apply (inv_completed db Hinv room Hin).
  - destruct Hplayers as [-> | (_ & j & _ & _ & ->)]; eauto.
Qed.

Lemma rooms_go_from_waiting_to_full_to_completed_witness :
  exists room,
    In room (rooms Sample.flipped) /\ status room <> playing /\
    (status room = completed -> 1 <= room_nonce room).
Proof.
  exists (mkRoom 0 (lit "ABCDEF") heads 10 20 completed
            (generateServerSeed (randomBytes Sample.env 32))
            (Some (generateClientSeed (randomBytes Sample.env 16))) 1).
  assert (Hin : In (mkRoom 0 (lit "ABCDEF") heads 10 20 completed
                      (generateServerSeed (randomBytes Sample.env 32))
                      (Some (generateClientSeed (randomBytes Sample.env 16))) 1)
                   (rooms Sample.flipped))
    by (vm_compute; left; reflexivity).
  destruct (rooms_go_from_waiting_to_full_to_completed Sample.flipped _
              sample_flipped_reachable Hin) as (H1 & _ & _ & H4 & _).
  auto.
Defined.

(** In a store the operations have built, the games recorded for a room
    carry, in the order of their recording, the nonces 1, 2, ... up to
    the nonce of the room: there are as many games as the nonce says and
    no nonce is used twice in a room. *)
Theorem games_of_a_room_count_its_nonce (db : Store) (room : Room) :
  reachable db -> In room (rooms db) ->
  map game_nonce (games_of db (room_id room)) = nonces_up_to (room_nonce room) /\
  N.of_nat (List.length (games_of db (room_id room))) = room_nonce room /\
  NoDup (map game_nonce (games_of db (room_id room))).
Proof.
  intros Hreach Hin.
  pose proof (inv_nonces db (reachable_invariant db Hreach) room Hin) as H.
  split; [exact H|]. split.
  - rewrite <- (length_map game_nonce), H. apply nonces_up_to_length.
  - rewrite H. apply nonces_up_to_NoDup.
Qed.

Lemma games_of_a_room_count_its_nonce_witness :
  map game_nonce (games_of Sample.replayed 0) = nonces_up_to 2.
Proof.
  assert (Hin : In (mkRoom 0 (lit "ABCDEF") heads 10 20 completed
                      (generateServerSeed (randomBytes Sample.env 32))
                      (Some (generateClientSeed (randomBytes Sample.env 16))) 2)
                   (rooms Sample.replayed))
    by (vm_compute; left; reflexivity).
  assert (Hreach : reachable Sample.replayed).
  { unfold Sample.replayed.
    apply reachable_step; [exact sample_flipped_reachable
                          | exact sample_env_reliable]. }
  destruct (games_of_a_room_count_its_nonce Sample.replayed _ Hreach Hin)
    as (H & _).
  exact H.
Defined.

(** In a store the operations have built, every recorded game checks
    out: [verifyResult] accepts its seeds and nonce for its hash and its
    flip result, its winner side is its flip result, and its room is
    still there with the server seed and the client seed of the game and
    a nonce the game's nonce does not exceed. *)
Theorem recorded_games_verify (db : Store) (g : Game) :
  reachable db -> In g (games db) ->
  verifyResult (game_server_seed g) (game_client_seed g) (game_nonce g)
               (hash_result g) (side_text (flip_result g)) = Returns true /\
  winner_side g = flip_result g /\ is_verified g = true /\
  exists room,
    In room (rooms db) /\ room_id room = game_room_id g /\
    room_server_seed room = game_server_seed g /\
    room_client_seed room = Some (game_client_seed g) /\
    1 <= game_nonce g <= room_nonce room.
Proof.
  intros Hreach Hg.
  pose proof (reachable_wf db Hreach) as Hwf.
  pose proof (reachable_invariant db Hreach) as Hinv.
  destruct (inv_games db Hinv g Hg) as (Hv & Hw & Hver).
  split; [exact Hv|]. split; [exact Hw|]. split; [exact Hver|].
  destruct (wf_game_room db Hwf g Hg) as (room & Hin & Hid & _ & Hss & Hcs).
  exists room. repeat (split; [solve [auto]|]).
  apply in_nonces_up_to.
  rewrite <- (inv_nonces db Hinv room Hin). apply in_map.
  apply filter_In. split; [exact Hg | apply N.eqb_eq; congruence].
Qed.

Lemma recorded_games_verify_witness :
  exists g,
    In g (games Sample.flipped) /\
    verifyResult (game_server_seed g) (game_client_seed g) (game_nonce g)
                 (hash_result g) (side_text (flip_result g)) = Returns true.
Proof.
  assert (Hex : existsb (fun _ => true) (games Sample.flipped) = true)
    by (vm_compute; reflexivity).
  apply existsb_exists in Hex as (g & Hg & _).
  destruct (recorded_games_verify Sample.flipped g sample_flipped_reachable Hg)
    as (Hv & _).
  exists g. exact (conj Hg Hv).
Defined.

(** In a store the operations have built, a player who is still there
    and whom a game names as its winner is a player of the room of that
    game and holds the side that came up. *)
Theorem winner_of_a_game_holds_its_result (db : Store) (g : Game) (p : Player) :
  reachable db -> In g (games db) -> In p (players db) ->
  player_id p = winner_player_id g ->
  player_room_id p = game_room_id g /\ side p = flip_result g /\
  winner_player_id g < next_id db.
Proof.
  intros Hreach Hg Hp Hid.
  pose proof (reachable_invariant db Hreach) as Hinv.
  destruct (inv_winner db Hinv g p Hg Hp Hid) as (Hroom & Hside).
  destruct (inv_games db Hinv g Hg) as (_ & Hw & _).
  split; [exact Hroom|]. split; [congruence|].
  apply (inv_winner_ids db Hinv g Hg).
Qed.

Lemma winner_of_a_game_holds_its_result_witness :
  exists g p,
    In g (games Sample.flipped) /\ In p (players Sample.flipped) /\
    player_id p = winner_player_id g /\ side p = flip_result g.
Proof.
  assert (Hex : existsb
                  (fun g => existsb (fun p => player_id p =? winner_player_id g)
                                    (players Sample.flipped))
                  (games Sample.flipped) = true)
    by (vm_compute; reflexivity).
  apply existsb_exists in Hex as (g & Hg & Hex).
  apply existsb_exists in Hex as (p & Hp & Hid).
  apply N.eqb_eq in Hid.
  destruct (winner_of_a_game_holds_its_result Sample.flipped g p
              sample_flipped_reachable Hg Hp Hid) as (_ & H & _).
  exists g, p. exact (conj Hg (conj Hp (conj Hid H))).
Defined.

(** ** What an operation may change in a room *)

Lemma room_succeeds_refl (r : Room) : room_succeeds r r.
Proof. unfold room_succeeds. repeat split; auto. lia. Qed.

Lemma succeeds_map (db : Store) (g : Room -> Room) :
  wf db ->
  (forall x, room_id (g x) = room_id x) ->
  (forall x, In x (rooms db) -> room_succeeds x (g x)) ->
  forall r r', In r (rooms db) -> In r' (map g (rooms db)) ->
               room_id r' = room_id r -> room_succeeds r r'.
Proof.
  intros Hwf Hid Hg r r' Hr Hr' E.
  apply in_map_iff in Hr' as (x & <- & Hx).
  assert (x = r) as ->.
  { apply (NoDup_map_inj room_id (rooms db) x r (wf_room_key db Hwf) Hx Hr).
    now rewrite <- Hid. }
  now apply Hg.
Qed.

Lemma succeeds_kept (db : Store) (rs' : list Room) :
  wf db -> incl rs' (rooms db) ->
  forall r r', In r (rooms db) -> In r' rs' ->
               room_id r' = room_id r -> room_succeeds r r'.
Proof.
  intros Hwf Hincl r r' Hr Hr' E.
  assert (r' = r) as ->; [|apply room_succeeds_refl].
  exact (NoDup_map_inj room_id (rooms db) r' r (wf_room_key db Hwf)
           (Hincl r' Hr') Hr E).
Qed.

Lemma succeeds_reset (roomId : Id) (x : Room) :
  status x <> waiting ->
  room_succeeds x (if room_id x =? roomId then set_status full x else x).
Proof.
  intros Hst. destruct (room_id x =? roomId); [|apply room_succeeds_refl].
  unfold room_succeeds. cbn. repeat split; auto; try lia. discriminate.
Qed.

Lemma succeeds_flip (roomId : Id) (n : N) (x : Room) :
  ((room_id x =? roomId) = true -> room_nonce x <= n) ->
  room_succeeds x (if room_id x =? roomId
                   then set_nonce n (set_status completed x) else x).
Proof.
  intros Hn. destruct (room_id x =? roomId); [|apply room_succeeds_refl].
  unfold room_succeeds. cbn. repeat split; auto. discriminate.
Qed.

Lemma succeeds_join (roomId : Id) (seed : jsstring) (x : Room) :
  room_client_seed x = None ->
  room_succeeds x (if room_id x =? roomId
                   then set_client_seed (Some seed) (set_status full x) else x).
Proof.
  intros Hseed. destruct (room_id x =? roomId); [|apply room_succeeds_refl].
  unfold room_succeeds. cbn. repeat split; auto; try lia; try discriminate.
  intros s Hs. congruence.
Qed.

Lemma room_succeeds_trans (a b c : Room) :
  room_succeeds a b -> room_succeeds b c -> room_succeeds a c.
Proof.
  unfold room_succeeds.
  intros (A1 & A2 & A3 & A4 & A5 & A6 & A7 & A8)
         (B1 & B2 & B3 & B4 & B5 & B6 & B7 & B8).
  repeat split; try congruence; auto. lia.
Qed.

(** Between a store the operations have built and the store one more
    operation leaves, a room that is still there has kept its code, its
    creator's side, its server seed, its stake and its pot; its nonce
    has not gone down; a client seed it had it still has; and if it had
    left the waiting state it has not gone back to it. *)
Theorem operations_keep_what_a_room_was_given (op : Op) (db : Store)
    (r r' : Room) :
  reachable db -> reliable (env_of op) ->
  In r (rooms db) -> In r' (rooms (exec op db)) -> room_id r' = room_id r ->
  room_succeeds r r'.
Proof.
  intros Hreach Hrel Hr Hr' Hid.
  pose proof (reachable_wf db Hreach) as Hwf.
  pose proof (reachable_invariant db Hreach) as Hinv.
  destruct op as [env dto s | env dto s | env rid | env s];
    cbn [exec env_of] in *.
  - destruct (createRoom_store env dto s db Hrel) as [E | (code & E)];
      rewrite E in Hr'.
    + now apply (succeeds_kept db (rooms db) Hwf (incl_refl _)).
    + cbn [after_create rooms] in Hr'.
      apply in_app_or in Hr' as [Hr'|[<-|[]]].
      * now apply (succeeds_kept db (rooms db) Hwf (incl_refl _)).
      * cbn [room_id] in Hid. pose proof (wf_room_ids db Hwf r Hr). lia.
  - destruct (joinRoom env dto s db) as [[[room' player]|e] db'] eqn:H;
      cbn [snd] in Hr'.
    + apply joinRoom_returns_inv in H as (room & Hroom & _ & _ & _ & ->).
      apply filter_singleton in Hroom as [Hin Hp].
      apply andb_true_iff in Hp as [_ Hst]. apply status_eqb_eq in Hst.
      cbn [after_join rooms] in Hr'.
      revert r r' Hr Hr' Hid. apply (succeeds_map db); [exact Hwf | |].
      * intros x. destruct (room_id x =? _); reflexivity.
      * intros x Hx. destruct (room_id x =? room_id room) eqn:E;
          [|apply room_succeeds_refl].
        rewrite (same_key db x room Hwf Hx Hin E).
        pose proof (succeeds_join (room_id room) (generateClientSeed
                                                    (randomBytes env 16)) room)
          as Hs.
        rewrite N.eqb_refl in Hs. apply Hs.
        destruct (inv_stage db Hinv room Hin) as [(_ & Hnone & _) | ([Hs'|Hs'] & _)];
          congruence.
    + apply joinRoom_throws_store in H; [subst db' | exact Hrel].
      now apply (succeeds_kept db (rooms db) Hwf (incl_refl _)).
  - destruct (flipCoin_cases env rid db Hrel)
      as [(e & E) | [(e & room & Hin & Hrid & Hst & E)
                    | (room & seed & w & Hin & Hrid & Hst & _ & _ & _ & _ & E)]];
      rewrite E in Hr'; cbn [snd] in Hr'.
    + now apply (succeeds_kept db (rooms db) Hwf (incl_refl _)).
    + cbn [after_reset rooms] in Hr'.
      revert r r' Hr Hr' Hid. apply (succeeds_map db); [exact Hwf | |].
      * intros x. destruct (room_id x =? _); reflexivity.
      * intros x Hx. destruct (room_id x =? rid) eqn:Ex;
          [|apply room_succeeds_refl].
        pose proof (succeeds_reset rid x) as Hs. rewrite Ex in Hs. apply Hs.
        rewrite <- Hrid in Ex. rewrite (same_key db x room Hwf Hx Hin Ex).
        rewrite Hst. discriminate.
    + assert (Hflip : forall x, In x (rooms db) ->
                room_succeeds x
                  (if room_id x =? rid
                   then set_nonce (room_nonce room + 1) (set_status completed x)
                   else x)).
      { intros x Hx. apply succeeds_flip. intros Ex.
        rewrite <- Hrid in Ex. rewrite (same_key db x room Hwf Hx Hin Ex). lia. }
      destruct Hst as [Hst|Hst]; rewrite Hst in Hr';
        cbn [after_flip after_reset rooms] in Hr'.
      * revert r r' Hr Hr' Hid. apply (succeeds_map db); [exact Hwf | |].
        -- intros x. destruct (room_id x =? _); reflexivity.
        -- exact Hflip.
      * rewrite map_map in Hr'.
        revert r r' Hr Hr' Hid. apply (succeeds_map db); [exact Hwf | |].
        -- intros x. cbv beta. destruct (room_id x =? rid) eqn:Ex;
             cbn [set_status room_id]; rewrite Ex; reflexivity.
        -- intros x Hx. cbv beta.
           destruct (room_id x =? rid) eqn:Ex.
           ++ cbn [set_status room_id]. rewrite Ex.
              pose proof (Hflip x Hx) as Hf. rewrite Ex in Hf.
              unfold room_succeeds in *. cbn in *. exact Hf.
           ++ rewrite Ex. apply room_succeeds_refl.
  - now apply (succeeds_kept db (rooms (snd (removePlayer env s db))) Hwf
                 (removePlayer_rooms env s db)).
Qed.

Lemma operations_keep_what_a_room_was_given_witness :
  exists r r',
    In r (rooms Sample.flipped) /\ In r' (rooms Sample.replayed) /\
    room_succeeds r r'.
Proof.
  assert (Hex : existsb
                  (fun r => existsb (fun r' => room_id r' =? room_id r)
                                    (rooms Sample.replayed))
                  (rooms Sample.flipped) = true)
    by (vm_compute; reflexivity).
  apply existsb_exists in Hex as (r & Hr & Hex).
  apply existsb_exists in Hex as (r' & Hr' & Hid).
  apply N.eqb_eq in Hid.
  exists r, r'.
  exact (conj Hr (conj Hr'
           (operations_keep_what_a_room_was_given (FlipCoin Sample.env 0)
              Sample.flipped r r' sample_flipped_reachable
              sample_env_reliable Hr Hr' Hid))).
Defined.

(** ** Lost updates *)

Lemma waiting_room_by_code (db : Store) (room : Room) :
  NoDup (map room_code (rooms db)) -> In room (rooms db) ->
  status room = waiting ->
  filter (fun r => streq (room_code r) (room_code room)
                   && status_eqb (status r) waiting) (rooms db) = [room].
Proof.
  intros Hnd Hin Hst.
  rewrite filter_andb, (room_by_code (rooms db) room Hnd Hin).
  cbn [filter]. now rewrite Hst.
Qed.

(** [joinRoom] does not take the joiner back. In a store the operations
    have built, when a room is waiting and only the update that marks it
    full is lost, [joinRoom] throws, yet the joiner has been added and
    the room still waits; whoever joins with the code next is refused
    with the room-full exception and the store stays as it is. *)
Theorem joinRoom_lost_update_keeps_the_joiner (env : Env) (dto : JoinRoomDto)
    (socketId : jsstring) (db : Store) (room : Room) :
  reachable db ->
  In room (rooms db) -> room_code room = dto_code dto -> status room = waiting ->
  served env FindWaitingRoom = true -> served env ListExisting = true ->
  served env InsertJoiner = true -> served env MarkFull = false ->
  exists message joiner db',
    joinRoom env dto socketId db
    = (Throws (Error (lit "Failed to update room status: " ++ message)), db') /\
    rooms db' = rooms db /\ players db' = players db ++ [joiner] /\
    player_room_id joiner = room_id room /\ is_creator joiner = false /\
    forall env2 joinerName2 socketId2,
      served env2 FindWaitingRoom = true -> served env2 ListExisting = true ->
      joinRoom env2 (mkJoinRoomDto (dto_code dto) joinerName2) socketId2 db'
      = (Throws (RoomFullException (dto_code dto)), db').
Proof.
  intros Hreach Hin Hcode Hst Hfind Hlist Hins Hlost.
  pose proof (reachable_wf db Hreach) as Hwf.
  pose proof (reachable_invariant db Hreach) as Hinv.
  pose proof (waiting_room_by_code db room (inv_codes db Hinv) Hin Hst) as Hroom.
  rewrite Hcode in Hroom.
  destruct (wf_players db Hwf room Hin) as (c & _ & _ & [Hone | (Hw & _)]);
    [|contradiction].
  exists (lit "fetch failed").
  exists (mkPlayer (next_id db) (room_id room) socketId
            (or_else (dto_joinerName dto) (defaultName socketId))
            (Spec.opposite (creator_side room)) false FIXED_STAKE true).
  exists (mkStore (rooms db)
            (players db
             ++ [mkPlayer (next_id db) (room_id room) socketId
                   (or_else (dto_joinerName dto) (defaultName socketId))
                   (Spec.opposite (creator_side room)) false FIXED_STAKE true])
            (games db) (N.succ (next_id db))).
  split; [|split; [reflexivity | split; [reflexivity | split;
           [reflexivity | split; [reflexivity|]]]]].
  - unfold joinRoom, bind, ret, throw, DB.rooms_select_single,
      DB.players_select, DB.players_insert, DB.rooms_update, DB.unreachable.
    rewrite Hfind, Hlist, Hins, Hlost, Hroom. cbn [DB.single]. cbv beta iota.
    change (filter (fun p => player_room_id p =? room_id room) (players db))
      with (players_in db (room_id room)).
    rewrite Hone. cbn [List.length Nat.leb]. cbv beta iota.
    destruct (creator_side room); cbn [side_eqb Spec.opposite];
      cbv beta iota; reflexivity.
  - intros env2 joinerName2 socketId2 Hfind2 Hlist2.
    unfold joinRoom, bind, ret, throw, DB.rooms_select_single,
      DB.players_select.
    cbn [dto_code rooms players]. rewrite Hfind2, Hlist2, Hroom.
    cbn [DB.single]. cbv beta iota. cbn [players].
    rewrite players_in_app, Hone.
    cbn [filter player_room_id]. rewrite N.eqb_refl.
    cbn [app List.length Nat.leb]. reflexivity.
Qed.

Lemma joinRoom_lost_update_keeps_the_joiner_witness :
  exists message joiner db',
    joinRoom Faulty.full_mark_lost (mkJoinRoomDto (lit "ABCDEF") None)
             (lit "sock-B") Sample.created
    = (Throws (Error (lit "Failed to update room status: " ++ message)), db') /\
    players db' = players Sample.created ++ [joiner] /\
    joinRoom Sample.env (mkJoinRoomDto (lit "ABCDEF") None) (lit "sock-C") db'
    = (Throws (RoomFullException (lit "ABCDEF")), db').
Proof.
  destruct (joinRoom_lost_update_keeps_the_joiner Faulty.full_mark_lost
              (mkJoinRoomDto (lit "ABCDEF") None) (lit "sock-B") Sample.created
              (mkRoom 0 (lit "ABCDEF") heads 10 20 waiting
                 (generateServerSeed (randomBytes Sample.env 32)) None 0))
    as (message & joiner & db' & Hthrow & _ & Hplayers & _ & _ & Hnext).
  - unfold Sample.created.
    apply reachable_step; [apply reachable_empty | exact sample_env_reliable].
  - vm_compute. left. reflexivity.
  - reflexivity.
  - reflexivity.
  - reflexivity.
  - reflexivity.
  - reflexivity.
  - reflexivity.
  - exists message, joiner, db'.
    exact (conj Hthrow (conj Hplayers
             (Hnext Sample.env None (lit "sock-C") eq_refl eq_refl))).
Defined.

(** With the completing update lost, [flipCoin] changes rooms without
    touching a nonce. *)
Lemma flipCoin_evolves_unmarked (env : Env) (roomId : Id) (db db' : Store)
    (o : Outcome FlipOutcome) :
  served env MarkCompleted = false ->
  flipCoin env roomId db = (o, db') ->
  exists f,
    (forall r, room_id (f r) = room_id r /\
               room_server_seed (f r) = room_server_seed r /\
               room_client_seed (f r) = room_client_seed r /\
               room_nonce (f r) = room_nonce r) /\
    rooms db' = map f (rooms db).
Proof.
  intros Hlost H. unfold_flip H. rewrite Hlost in H.
  repeat case_split H.
  all: cbv beta iota in H.
  all: injection H as <- <-; cbn [rooms].
  all: first
         [ exists (fun r => r); split; [now auto | symmetry; apply map_id]
         | eexists; split; [|reflexivity];
           let x := fresh "x" in
           intros x; cbv beta; destruct (room_id x =? roomId); cbn;
           now auto ].
Qed.

(** [flipCoin] does not look at what the completing update answers. In
    a store the operations have built, when that update is lost the flip
    returns all the same and its game is recorded, but the room keeps
    its nonce; the next flip in the room that returns then uses the same
    nonce again, with the same hash and the same result, and the room
    has two games with one nonce. *)
Theorem flipCoin_lost_update_repeats_the_nonce (env env2 : Env) (roomId : Id)
    (db db1 db2 : Store) (out out2 : FlipOutcome) :
  reachable db ->
  served env MarkCompleted = false ->
  flipCoin env roomId db = (Returns out, db1) ->
  flipCoin env2 roomId db1 = (Returns out2, db2) ->
  game_nonce (out_game out2) = game_nonce (out_game out) /\
  hash_result (out_game out2) = hash_result (out_game out) /\
  out_result out2 = out_result out /\
  games db2 = games db ++ [out_game out; out_game out2] /\
  game_room_id (out_game out) = roomId /\
  game_room_id (out_game out2) = roomId.
Proof.
  intros Hreach Hlost H1 H2.
  pose proof (reachable_wf db Hreach) as Hwf.
  destruct (flipCoin_evolves_unmarked env roomId db db1 _ Hlost H1)
    as (f & Hf & Hrooms).
  apply flipCoin_returns_inv in H1
    as (r1 & cs1 & u1 & w1 & Hin1 & Hid1 & _ & Hseed1 & _ & _ & Hout1 & Hg1 & _).
  apply flipCoin_returns_inv in H2
    as (r2 & cs2 & u2 & w2 & Hin2 & Hid2 & _ & Hseed2 & _ & _ & Hout2 & Hg2 & _).
  cbv zeta in Hout1, Hout2, Hg1, Hg2.
  rewrite Hrooms in Hin2. apply in_map_iff in Hin2 as (r & <- & Hr).
  destruct (Hf r) as (Fid & Fss & Fcs & Fn).
  assert (r = r1) as ->.
  { apply (NoDup_map_inj room_id (rooms db) r r1 (wf_room_key db Hwf) Hr Hin1).
    congruence. }
  rewrite Fss, Fn in *. rewrite Fcs, Hseed1 in Hseed2.
  injection Hseed2 as <- <-.
  subst out out2.
  cbn [out_game out_result game_nonce hash_result game_room_id].
  rewrite Hg2, Hg1, <- app_assoc. cbn [app].
  repeat split; reflexivity.
Qed.

Lemma flipCoin_lost_update_repeats_the_nonce_witness :
  exists out db1 out2 db2,
    flipCoin Faulty.completed_mark_lost 0 Sample.joined = (Returns out, db1) /\
    flipCoin Sample.env 0 db1 = (Returns out2, db2) /\
    game_nonce (out_game out2) = game_nonce (out_game out) /\
    out_result out2 = out_result out.
Proof.
  assert (Hreach : reachable Sample.joined).
  { unfold Sample.joined, Sample.created.
    repeat (apply reachable_step; [|exact sample_env_reliable]).
    apply reachable_empty. }
  assert (H1 : exists out db1,
             flipCoin Faulty.completed_mark_lost 0 Sample.joined
             = (Returns out, db1) /\
             exists out2 db2, flipCoin Sample.env 0 db1 = (Returns out2, db2)).
  { destruct (flipCoin Faulty.completed_mark_lost 0 Sample.joined)
      as [[out|e] db1] eqn:H; [|vm_compute in H; discriminate].
    exists out, db1. split; [reflexivity|].
    destruct (flipCoin Sample.env 0 db1) as [[out2|e2] db2] eqn:H';
      [now exists out2, db2|].
    vm_compute in H. injection H as _ <-. vm_compute in H'. discriminate. }
  destruct H1 as (out & db1 & H1 & out2 & db2 & H2).
  destruct (flipCoin_lost_update_repeats_the_nonce Faulty.completed_mark_lost
              Sample.env 0 Sample.joined db1 db2 out out2 Hreach eq_refl H1 H2)
    as (Hn & _ & Hr & _).
  exists out, db1, out2, db2. exact (conj H1 (conj H2 (conj Hn Hr))).
Defined.

(** * Rate limiting *)

Import RateLimitGuard.

Lemma times_of_set (key : jsstring) (value : list Z) (m : Requests)
    (clientIp : jsstring) :
  times_of (map_set key value m) clientIp
  = if streq clientIp key then value else times_of m clientIp.
Proof. unfold times_of, map_set. now destruct (streq clientIp key). Qed.

Lemma times_of_delete (key : jsstring) (m : Requests) (clientIp : jsstring) :
  times_of (map_delete key m) clientIp
  = if streq clientIp key then [] else times_of m clientIp.
Proof. unfold times_of, map_delete. now destruct (streq clientIp key). Qed.

(** After the cleaning, the address holds its times that are still in
    the window, and every other address holds what it held. *)
Lemma times_of_clean (now : Z) (clientIp : jsstring) (m : Requests)
    (other : jsstring) :
  times_of (cleanOldRequests now clientIp m) other
  = if streq other clientIp
    then filter (fun time => (now - time <? windowMs)%Z) (times_of m clientIp)
    else times_of m other.
Proof.
  unfold cleanOldRequests.
  destruct (filter (fun time => (now - time <? windowMs)%Z) (times_of m clientIp))
    as [|t l] eqn:E; cbn [List.length Nat.eqb].
  - apply times_of_delete.
  - apply times_of_set.
Qed.

Lemma times_of_canActivate (cleanedAt now : Z) (clientIp : jsstring)
    (m : Requests) (other : jsstring) :
  let kept := filter (fun time => (cleanedAt - time <? windowMs)%Z)
                     (times_of m clientIp) in
  times_of (snd (canActivate cleanedAt now clientIp m)) other
  = if streq other clientIp
    then (if (maxRequests <=? List.length kept)%nat then kept else kept ++ [now])
    else times_of m other.
Proof.
  intros kept. unfold canActivate.
  pose proof (times_of_clean cleanedAt clientIp m clientIp) as Hself.
  rewrite streq_refl in Hself. rewrite Hself. fold kept.
  destruct (maxRequests <=? List.length kept)%nat; cbn [snd].
  - rewrite times_of_clean. fold kept. reflexivity.
  - rewrite times_of_set, times_of_clean.
    now destruct (streq other clientIp).
Qed.

Lemma verdict_canActivate (cleanedAt now : Z) (clientIp : jsstring)
    (m : Requests) :
  fst (canActivate cleanedAt now clientIp m)
  = if (maxRequests <=?
        List.length (filter (fun time => (cleanedAt - time <? windowMs)%Z)
                            (times_of m clientIp)))%nat
    then TooManyRequests else Activated.
Proof.
  unfold canActivate.
  pose proof (times_of_clean cleanedAt clientIp m clientIp) as Hself.
  rewrite streq_refl in Hself. rewrite Hself.
  now destruct (maxRequests <=? _)%nat.
Qed.

Lemma serve_app (calls : list (Z * Z * jsstring)) (cleanedAt now : Z)
    (clientIp : jsstring) (m : Requests) :
  serve (calls ++ [(cleanedAt, now, clientIp)]) m
  = (fst (serve calls m)
       ++ [(now, clientIp,
            fst (canActivate cleanedAt now clientIp (snd (serve calls m))))],
     snd (canActivate cleanedAt now clientIp (snd (serve calls m)))).
Proof.
  revert m. induction calls as [|[[c n] ip] calls IH]; intros m;
    cbn [app serve fst snd].
  - destruct (canActivate cleanedAt now clientIp m) as [v m'].
    reflexivity.
  - destruct (canActivate c n ip m) as [v m'].
    rewrite IH. destruct (serve calls m') as [log m''].
    reflexivity.
Qed.

Lemma ascending_app (from : Z) (calls : list (Z * Z * jsstring))
    (cleanedAt now : Z) (clientIp : jsstring) :
  ascending from (calls ++ [(cleanedAt, now, clientIp)]) <->
  ascending from calls /\
  (clock_after from calls <= cleanedAt)%Z /\ (cleanedAt <= now)%Z.
Proof.
  revert from. induction calls as [|[[c n] ip] calls IH]; intros from;
    cbn [app ascending clock_after fold_left fst snd].
  - tauto.
  - fold (clock_after n calls). rewrite IH. tauto.
Qed.

Lemma clock_after_app (from : Z) (calls : list (Z * Z * jsstring))
    (cleanedAt now : Z) (clientIp : jsstring) :
  clock_after from (calls ++ [(cleanedAt, now, clientIp)]) = now.
Proof. unfold clock_after. now rewrite fold_left_app. Qed.

Lemma activated_at_app (clientIp : jsstring)
    (log : list (Z * jsstring * Verdict)) (now : Z) (ip : jsstring)
    (v : Verdict) :
  activated_at clientIp (log ++ [(now, ip, v)])
  = activated_at clientIp log
    ++ match v with
       | Activated => if streq ip clientIp then [now] else []
       | TooManyRequests => []
       end.
Proof.
  unfold activated_at. rewrite filter_app, map_app. f_equal.
  cbn [filter snd fst]. destruct v; [destruct (streq ip clientIp)|]; reflexivity.
Qed.

Lemma filter_window (c c' : Z) (l : list Z) :
  (c <= c')%Z ->
  filter (fun a => (c' - a <? windowMs)%Z)
         (filter (fun a => (c - a <? windowMs)%Z) l)
  = filter (fun a => (c' - a <? windowMs)%Z) l.
Proof.
  intros Hc. rewrite <- filter_andb. apply filter_ext. intros a.
  destruct (c' - a <? windowMs)%Z eqn:E; [|apply andb_false_r].
  apply Z.ltb_lt in E. rewrite andb_true_r. apply Z.ltb_lt. lia.
Qed.

Lemma window_count_le (p q : Z -> bool) (l : list Z) :
  (forall a, p a = true -> q a = true) ->
  (List.length (filter p l) <= List.length (filter q l))%nat.
Proof.
  intros Hpq. induction l as [|a l IH]; cbn [filter]; [lia|].
  destruct (p a) eqn:Ep.
  - rewrite (Hpq a Ep). cbn [List.length]. lia.
  - destruct (q a); cbn [List.length]; lia.
Qed.

Lemma streq_sym (a b : jsstring) : streq a b = streq b a.
Proof.
  destruct (streq a b) eqn:E; symmetry.
  - apply streq_eq in E. subst. apply streq_refl.
  - apply streq_neq. apply streq_neq in E. congruence.
Qed.

(** What the guard holds for an address after a run: the times at which
    it let the address through that were in the window at some reading
    of the clock not later than the present one. *)
Lemma serve_record (from : Z) (calls : list (Z * Z * jsstring))
    (clientIp : jsstring) :
  ascending from calls ->
  let log := fst (serve calls no_requests) in
  let m := snd (serve calls no_requests) in
  Forall (fun a => (a <= clock_after from calls)%Z) (activated_at clientIp log) /\
  exists c,
    (c <= clock_after from calls)%Z /\
    times_of m clientIp
    = filter (fun a => (c - a <? windowMs)%Z) (activated_at clientIp log).
Proof.
  induction calls as [|[[cleanedAt now] ip] calls IH] using rev_ind;
    intros Hasc.
  - cbn. split; [constructor|]. exists from. split; [lia | reflexivity].
  - apply ascending_app in Hasc as (Hasc & Hclean & Hnow).
    destruct (IH Hasc) as (Hall & c & Hc & Htimes). clear IH.
    cbv zeta. rewrite serve_app, clock_after_app. cbn [fst snd].
    rewrite activated_at_app, times_of_canActivate, verdict_canActivate.
    set (log := fst (serve calls no_requests)) in *.
    set (m := snd (serve calls no_requests)) in *.
    assert (Hall' : Forall (fun a => (a <= now)%Z) (activated_at clientIp log)).
    { eapply Forall_impl; [|exact Hall]. cbv beta. intros a Ha. lia. }
    destruct (streq clientIp ip) eqn:Eip.
    + apply streq_eq in Eip. subst ip. rewrite streq_refl.
      rewrite Htimes, (filter_window c cleanedAt) by lia.
      destruct (maxRequests <=? _)%nat.
      * rewrite app_nil_r. split; [exact Hall'|].
        exists cleanedAt. split; [lia | reflexivity].
      * split; [apply Forall_app; split; [exact Hall' | repeat constructor; lia]|].
        exists cleanedAt. split; [lia|].
        rewrite filter_app. f_equal. cbn [filter].
        replace (cleanedAt - now <? windowMs)%Z with true; [reflexivity|].
        symmetry. apply Z.ltb_lt. unfold windowMs. lia.
    + rewrite streq_sym, Eip.
      replace (match (if (maxRequests <=? _)%nat then TooManyRequests else Activated)
               with Activated => [] | TooManyRequests => [] end)
        with (@nil Z) by (now destruct (maxRequests <=? _)%nat).
      rewrite app_nil_r. split; [exact Hall'|].
      exists c. split; [lia | exact Htimes].
Qed.

(** While the clock never goes back, a request is refused exactly when
    the guard has let through 100 or more requests of the same address
    at times less than 15 minutes before the reading at which the
    request is checked; so a request that is let through comes after
    fewer than 100 requests of its address let through in the 15 minutes
    before it. *)
Theorem canActivate_refuses_the_101st_in_a_window (from : Z)
    (calls : list (Z * Z * jsstring)) (cleanedAt now : Z) (clientIp : jsstring) :
  ascending from (calls ++ [(cleanedAt, now, clientIp)]) ->
  let log := fst (serve calls no_requests) in
  let m := snd (serve calls no_requests) in
  (fst (canActivate cleanedAt now clientIp m) = TooManyRequests <->
   (100 <= List.length
             (filter (fun a => (cleanedAt - a <? 15 * 60 * 1000)%Z)
                     (activated_at clientIp log)))%nat) /\
  (fst (canActivate cleanedAt now clientIp m) = Activated ->
   (List.length (filter (fun a => (now - a <? 15 * 60 * 1000)%Z)
                        (activated_at clientIp log)) < 100)%nat).
Proof.
  intros Hasc log m. subst log m.
  apply ascending_app in Hasc as (Hasc & Hclean & Hnow).
  destruct (serve_record from calls clientIp Hasc) as (_ & c & Hc & Htimes).
  rewrite verdict_canActivate, Htimes, (filter_window c cleanedAt) by lia.
  change windowMs with (15 * 60 * 1000)%Z. change maxRequests with 100%nat.
  destruct (100 <=? _)%nat eqn:E;
    [apply Nat.leb_le in E | apply Nat.leb_gt in E].
  - split; [tauto | discriminate].
  - split; [split; [discriminate | lia]|]. intros _.
    eapply Nat.le_lt_trans; [|exact E].
    apply window_count_le. intros a Ha.
    apply Z.ltb_lt in Ha. apply Z.ltb_lt. lia.
Qed.

Lemma canActivate_refuses_the_101st_in_a_window_witness :
  fst (canActivate 5 6 (lit "10.0.0.1")
         (snd (serve [(0, 1, lit "10.0.0.1"); (2, 3, lit "10.0.0.1")]%Z
                     no_requests)))
  = TooManyRequests <->
  (100 <= List.length
            (filter (fun a => (5 - a <? 15 * 60 * 1000)%Z)
               (activated_at (lit "10.0.0.1")
                  (fst (serve [(0, 1, lit "10.0.0.1"); (2, 3, lit "10.0.0.1")]%Z
                              no_requests)))))%nat.
Proof.
  destruct (canActivate_refuses_the_101st_in_a_window 0
              [(0, 1, lit "10.0.0.1"); (2, 3, lit "10.0.0.1")]%Z 5 6
              (lit "10.0.0.1")) as (H & _).
  - cbn [app ascending]. lia.
  - exact H.
Defined.

(** Whatever the clock reads, the guard never holds more than 100 times
    for an address. *)
Theorem guard_holds_at_most_100_times (calls : list (Z * Z * jsstring))
    (clientIp : jsstring) :
  (List.length (times_of (snd (serve calls no_requests)) clientIp) <= 100)%nat.
Proof.
  induction calls as [|[[cleanedAt now] ip] calls IH] using rev_ind;
    [cbn; lia|].
  rewrite serve_app. cbn [snd]. rewrite times_of_canActivate.
  change maxRequests with 100%nat.
  destruct (streq clientIp ip) eqn:Eip; [|exact IH].
  apply streq_eq in Eip. subst ip.
  destruct (100 <=? _)%nat eqn:E.
  - etransitivity; [|exact IH].
    rewrite <- (filter_all (fun _ => true)
                  (times_of (snd (serve calls no_requests)) clientIp))
      at 2 by reflexivity.
    now apply window_count_le.
  - apply Nat.leb_gt in E. rewrite length_app. cbn [List.length]. lia.
Qed.

(** * The gateway *)

Import GameGateway.

(** In a store the operations have built, with no request lost and the
    queries served, what the gateway announces after the delay is this.
    When the flip throws, it is one error event with the message of the
    exception. When the flip returns, it is the result for the room and
    one personal result for each of the two players, the creator first:
    the winner named by the flip is told [win] and paid 20, the other is
    told [lose] and paid 0, so that the winnings paid add up to the
    pot. The store is the store the flip leaves. *)
Theorem announceFlip_pays_the_pot_to_the_winner (env : Env) (roomId : Id)
    (errorType : jsstring) (db : Store) :
  reachable db -> reliable env ->
  (forall error db',
     flipCoin env roomId db = (Throws error, db') ->
     announceFlip env all_served roomId errorType db
     = ([error_event roomId (message_of error) errorType], db')) /\
  (forall out db',
     flipCoin env roomId db = (Returns out, db') ->
     exists events creator joiner,
       announceFlip env all_served roomId errorType db = (events, db') /\
       players_in db roomId = [creator; joiner] /\
       events = [coin_flip_result roomId (out_result out) (out_winner out)
                   (formatPlayerForEvent (out_winnerPlayer out)) 20%Z
                   [creator; joiner] (out_game out) (out_verification out);
                 game_completed_for out [creator; joiner] creator;
                 game_completed_for out [creator; joiner] joiner] /\
       winnings_paid events = 20%Z /\
       winners_told events = [socket_id (out_winnerPlayer out)] /\
       side (out_winnerPlayer out) = out_result out).
Proof.
  intros Hreach Hrel. split.
  { intros e db' H. unfold announceFlip. now rewrite H. }
  intros out db1 H.
  assert (Hreach' : reachable db1).
  { change db1 with (snd (Returns out, db1)). rewrite <- H.
    exact (reachable_step (FlipCoin env roomId) db Hreach Hrel). }
  unfold announceFlip. rewrite H.
  unfold getRoomWithPlayers, bind, ret, DB.rooms_select_single.
  cbv beta iota.
  rewrite (getPlayersInRoom_named all_served roomId db1)
    by apply (inv_names db1 (reachable_invariant db1 Hreach')).
  unfold all_served. cbv beta iota.
  pose proof (reachable_wf db Hreach) as Hwf.
  pose proof (reachable_invariant db Hreach) as Hinv.
  apply flipCoin_returns_inv in H
    as (room & cs & u & w & Hin & Hid & _ & _ & Hlen & Hw & Hout & _
        & Hplayers & _).
  cbv zeta in Hout.
  assert (Hsame : players_in db1 roomId = players_in db roomId)
    by (unfold players_in; now rewrite Hplayers).
  rewrite Hsame.
  destruct (wf_players db Hwf room Hin)
    as (c & Hc & _ & [Hone | (_ & j & Hj & _ & Htwo)]);
    rewrite Hid in *; [rewrite Hone in Hlen; discriminate|].
  rewrite Htwo in *.
  apply find_some in Hw as [Hwin Hside]. apply side_eqb_eq in Hside.
  assert (Hcin : In c (players db)).
  { assert (Hx : In c (players_in db roomId)) by (rewrite Htwo; now left).
    now apply filter_In in Hx. }
  assert (Hjin : In j (players db)).
  { assert (Hx : In j (players_in db roomId))
      by (rewrite Htwo; right; now left).
    now apply filter_In in Hx. }
  assert (Hne : (player_id c =? player_id j) = false).
  { apply N.eqb_neq. intros E.
    pose proof (NoDup_map_inj player_id (players db) c j
                  (inv_player_key db Hinv) Hcin Hjin E) as Hcj.
    congruence. }
  assert (Hwinner : out_winnerPlayer out = w) by (subst out; reflexivity).
  assert (Hresult : out_result out
                    = result (generateResult (room_server_seed room) (u :: cs)
                                             (room_nonce room + 1)))
    by (subst out; reflexivity).
  eexists _, c, j. split; [reflexivity|]. split; [reflexivity|].
  cbn [map]. split; [reflexivity|].
  unfold winnings_paid, winners_told, game_completed_for.
  cbn [fold_right flat_map winnings_of told_win].
  rewrite Hwinner, Hresult.
  destruct Hwin as [<- | [<- | []]].
  - rewrite N.eqb_refl. rewrite N.eqb_sym, Hne. cbn [app].
    repeat split; auto.
  - rewrite N.eqb_refl, Hne. cbn [app]. repeat split; auto.
Qed.

Lemma announceFlip_pays_the_pot_to_the_winner_witness :
  exists out events db',
    flipCoin Sample.env 0 Sample.joined = (Returns out, db') /\
    announceFlip Sample.env all_served 0 (lit "flip_coin_error") Sample.joined
    = (events, db') /\
    winnings_paid events = 20%Z /\
    winners_told events = [socket_id (out_winnerPlayer out)].
Proof.
  assert (Hreach : reachable Sample.joined).
  { unfold Sample.joined, Sample.created.
    repeat (apply reachable_step; [|exact sample_env_reliable]).
    apply reachable_empty. }
  assert (Hflip : exists out db',
             flipCoin Sample.env 0 Sample.joined = (Returns out, db')).
  { destruct (flipCoin Sample.env 0 Sample.joined) as [[out|e] db'] eqn:H;
      [now exists out, db' | vm_compute in H; discriminate]. }
  destruct Hflip as (out & db' & H).
  destruct (announceFlip_pays_the_pot_to_the_winner Sample.env 0
              (lit "flip_coin_error") Sample.joined Hreach
              sample_env_reliable) as [_ Hret].
  destruct (Hret out db' H) as (events & c & j & Ha & _ & _ & Hpaid & Htold & _).
  exists out, events, db'.
  exact (conj H (conj Ha (conj Hpaid Htold))).
Defined.
